(** * A two-tier response cache: node-cache in front of Redis

    Shallow embedding of [src/middleware/cache.js] (class [CacheManager])
    and [src/config/redis.js] (class [RedisManager]), together with the
    parts of their environment the two classes call into: the JavaScript
    built-ins [JSON.stringify], [JSON.parse] and [String.prototype.includes],
    the [node-cache] package (the memory tier) and the [redis] client (the
    remote tier). *)

From Stdlib Require Import ZArith List String Ascii Bool Lia Decimal DecimalString DecimalZ
  Permutation.
Import ListNotations.

Set Warnings "-register-all".
Local Open Scope string_scope.
Local Open Scope Z_scope.

(** ** JavaScript values

    The payloads handed to [res.json] are JSON-like data.  Numbers are the
    integers (what a JavaScript number holds exactly up to 2^53); IEEE
    doubles with a fractional part are outside the embedding.  A string is
    a sequence of code units below 256.  An object lists its own properties
    in enumeration order. *)

Inductive json : Type :=
| JNull
| JBool (b : bool)
| JNum (n : Z)
| JStr (s : string)
| JArr (items : list json)
| JObj (props : list (string * json)).

(** [if (x)] on a value: [null], [false], [0] and the empty string are falsy. *)
Definition truthy (x : json) : bool :=
  match x with
  | JNull => false
  | JBool b => b
  | JNum n => negb (n =? 0)
  | JStr s => negb (String.eqb s EmptyString)
  | JArr _ => true
  | JObj _ => true
  end.

(** [if (x)] on the result of a lookup that may be [undefined]. *)
Definition truthy_opt (x : option json) : bool :=
  match x with
  | Some v => truthy v
  | None => false
  end.

(** [if (s)] on a string. *)
Definition truthy_str (s : string) : bool := negb (String.eqb s EmptyString).

(** What a [throw] carries. *)
Inductive error : Type :=
| ECACHEFULL          (* node-cache: Cache max keys amount exceeded *)
| ECONNREFUSED        (* redis client: the server cannot be reached *)
| ERR_INVALID_EXPIRE  (* redis server: invalid expire time in setex *)
| SyntaxError.        (* JSON.parse *)

(** A call either returns or throws. *)
Inductive completion (A : Type) : Type :=
| Normal (a : A)
| Throw (e : error).
Arguments Normal {A} a.
Arguments Throw {A} e.

(** ** Objects used as string-keyed maps

    Assigning an existing property keeps its place in the enumeration
    order, a new property goes last; [delete] removes it.  (Names that
    look like array indices, which JavaScript enumerates first, do not
    occur: every cache key starts with [api:].) *)
Section Props.
Context {A : Type}.

Fixpoint prop_get (k : string) (o : list (string * A)) : option A :=
  match o with
  | [] => None
  | (k', x) :: r => if String.eqb k k' then Some x else prop_get k r
  end.

Fixpoint prop_set (k : string) (x : A) (o : list (string * A)) : list (string * A) :=
  match o with
  | [] => [(k, x)]
  | (k', y) :: r => if String.eqb k k' then (k', x) :: r else (k', y) :: prop_set k x r
  end.

Fixpoint prop_delete (k : string) (o : list (string * A)) : list (string * A) :=
  match o with
  | [] => []
  | (k', y) :: r => if String.eqb k k' then r else (k', y) :: prop_delete k r
  end.

Definition prop_has (k : string) (o : list (string * A)) : bool :=
  match prop_get k o with Some _ => true | None => false end.

Definition Object_keys (o : list (string * A)) : list string := map fst o.
End Props.

(** [s.includes(p)]: [p] occurs in [s] as a contiguous substring. *)
Fixpoint includes (s p : string) : bool :=
  String.prefix p s ||
  match s with
  | EmptyString => false
  | String _ r => includes r p
  end.

(** ** [JSON.stringify] and [JSON.parse] *)
Module JSON.

Definition dquote : ascii := "034"%char.
Definition bslash : ascii := "092"%char.

Definition hex_digit (n : nat) : ascii :=
  match n with
  | 0 => "0" | 1 => "1" | 2 => "2" | 3 => "3" | 4 => "4" | 5 => "5" | 6 => "6"
  | 7 => "7" | 8 => "8" | 9 => "9" | 10 => "a" | 11 => "b" | 12 => "c"
  | 13 => "d" | 14 => "e" | _ => "f"
  end%nat%char.

Definition esc (c : ascii) : string := String bslash (String c EmptyString).

(** One code unit of a quoted string (QuoteJSONString). *)
Definition quote_char (c : ascii) : string :=
  let n := nat_of_ascii c in
  if Ascii.eqb c dquote then esc dquote
  else if Ascii.eqb c bslash then esc bslash
  else if (n =? 8)%nat then esc "b"
  else if (n =? 12)%nat then esc "f"
  else if (n =? 10)%nat then esc "n"
  else if (n =? 13)%nat then esc "r"
  else if (n =? 9)%nat then esc "t"
  else if (n <? 32)%nat then
    String bslash (String "u" (String "0" (String "0"
      (String (hex_digit (n / 16)) (String (hex_digit (n mod 16)) EmptyString)))))
  else String c EmptyString.

Fixpoint quote_chars (s : string) : string :=
  match s with
  | EmptyString => EmptyString
  | String c r => quote_char c ++ quote_chars r
  end.

Definition quote (s : string) : string :=
  String dquote (quote_chars s ++ String dquote EmptyString).

(** Decimal text of an integer, as [Number::toString] prints it. *)
Definition number_to_string (n : Z) : string :=
  NilEmpty.string_of_int (Z.to_int n).

(** The texts of the elements with [sep] between them. *)
Fixpoint join (sep : string) (l : list string) : string :=
  match l with
  | [] => EmptyString
  | x :: r =>
      match r with
      | [] => x
      | _ :: _ => x ++ sep ++ join sep r
      end
  end.

Fixpoint stringify (v : json) : string :=
  match v with
  | JNull => "null"
  | JBool true => "true"
  | JBool false => "false"
  | JNum n => number_to_string n
  | JStr s => quote s
  | JArr l => "[" ++ join "," (map stringify l) ++ "]"
  | JObj o =>
      "{" ++ join "," (map (fun kv => quote (fst kv) ++ ":" ++ stringify (snd kv)) o) ++ "}"
  end.

(** *** Parsing *)

Definition is_ws (c : ascii) : bool :=
  let n := nat_of_ascii c in
  ((n =? 32) || (n =? 9) || (n =? 10) || (n =? 13))%nat.

Fixpoint skip_ws (s : string) : string :=
  match s with
  | String c r => if is_ws c then skip_ws r else s
  | EmptyString => s
  end.

Fixpoint strip_prefix (p s : string) : option string :=
  match p with
  | EmptyString => Some s
  | String a p' =>
      match s with
      | String b s' => if Ascii.eqb a b then strip_prefix p' s' else None
      | EmptyString => None
      end
  end.

Definition hex_val (c : ascii) : option nat :=
  let n := nat_of_ascii c in
  if ((48 <=? n) && (n <=? 57))%nat then Some (n - 48)%nat
  else if ((97 <=? n) && (n <=? 102))%nat then Some (n - 87)%nat
  else if ((65 <=? n) && (n <=? 70))%nat then Some (n - 55)%nat
  else None.

Definition hex4 (a b c d : ascii) : option nat :=
  match hex_val a, hex_val b, hex_val c, hex_val d with
  | Some x, Some y, Some z, Some w => Some (((x * 16 + y) * 16 + z) * 16 + w)%nat
  | _, _, _, _ => None
  end.

(** The character a two-character escape stands for. *)
Definition unescape (e : ascii) : option ascii :=
  if Ascii.eqb e dquote then Some dquote
  else if Ascii.eqb e bslash then Some bslash
  else if Ascii.eqb e "/" then Some "/"%char
  else if Ascii.eqb e "b" then Some (ascii_of_nat 8)
  else if Ascii.eqb e "f" then Some (ascii_of_nat 12)
  else if Ascii.eqb e "n" then Some (ascii_of_nat 10)
  else if Ascii.eqb e "r" then Some (ascii_of_nat 13)
  else if Ascii.eqb e "t" then Some (ascii_of_nat 9)
  else None.

(** The characters of a string literal after its opening quote, up to
    and including the closing quote.  A [\u] escape of a code unit above
    255 has no counterpart in [string] and is refused. *)
Fixpoint parse_chars (s : string) : option (string * string) :=
  match s with
  | EmptyString => None
  | String c r =>
      if Ascii.eqb c dquote then Some (EmptyString, r)
      else if Ascii.eqb c bslash then
        match r with
        | EmptyString => None
        | String e r1 =>
            if Ascii.eqb e "u" then
              match r1 with
              | String h1 (String h2 (String h3 (String h4 r2))) =>
                  match hex4 h1 h2 h3 h4 with
                  | Some code =>
                      if (code <? 256)%nat then
                        match parse_chars r2 with
                        | Some (t, rest) => Some (String (ascii_of_nat code) t, rest)
                        | None => None
                        end
                      else None
                  | None => None
                  end
              | _ => None
              end
            else
              match unescape e with
              | Some c' =>
                  match parse_chars r1 with
                  | Some (t, rest) => Some (String c' t, rest)
                  | None => None
                  end
              | None => None
              end
        end
      else if (nat_of_ascii c <? 32)%nat then None
      else
        match parse_chars r with
        | Some (t, rest) => Some (String c t, rest)
        | None => None
        end
  end.

Definition digit_of_char (c : ascii) : option (uint -> uint) :=
  match c with
  | "0" => Some D0 | "1" => Some D1 | "2" => Some D2 | "3" => Some D3
  | "4" => Some D4 | "5" => Some D5 | "6" => Some D6 | "7" => Some D7
  | "8" => Some D8 | "9" => Some D9 | _ => None
  end%char.

(** The longest run of decimal digits at the head of [s]. *)
Fixpoint parse_digits (s : string) : uint * string :=
  match s with
  | EmptyString => (Nil, s)
  | String c r =>
      match digit_of_char c with
      | Some d => let (ds, rest) := parse_digits r in (d ds, rest)
      | None => (Nil, s)
      end
  end.

Definition starts_fraction_or_exponent (s : string) : bool :=
  match s with
  | String c _ => Ascii.eqb c "." || Ascii.eqb c "e" || Ascii.eqb c "E"
  | EmptyString => false
  end.

(** A number literal: an optional minus sign, then digits without a
    superfluous leading zero.  A literal that goes on with a fraction or
    an exponent denotes a double, which [json] does not hold; it is
    refused. *)
Definition parse_number (s : string) : option (json * string) :=
  let (negative, s1) :=
    match s with
    | String "-" r => (true, r)
    | _ => (false, s)
    end in
  let (ds, rest) := parse_digits s1 in
  match ds with
  | Nil => None
  | D0 (D0 _ | D1 _ | D2 _ | D3 _ | D4 _ | D5 _ | D6 _ | D7 _ | D8 _ | D9 _) => None
  | _ =>
      if starts_fraction_or_exponent rest then None
      else Some (JNum (Z.of_int (if negative then Neg ds else Pos ds)), rest)
  end.

(** Defining the properties of an object literal in textual order: a
    repeated name overwrites the value of its first occurrence. *)
Definition define_all (l : list (string * json)) : list (string * json) :=
  fold_left (fun o kv => prop_set (fst kv) (snd kv) o) l [].

Fixpoint parse_value (fuel : nat) (s : string) : option (json * string) :=
  match fuel with
  | O => None
  | S f =>
      match skip_ws s with
      | EmptyString => None
      | String c r =>
          if Ascii.eqb c "n" then
            match strip_prefix "ull" r with
            | Some r' => Some (JNull, r')
            | None => None
            end
          else if Ascii.eqb c "t" then
            match strip_prefix "rue" r with
            | Some r' => Some (JBool true, r')
            | None => None
            end
          else if Ascii.eqb c "f" then
            match strip_prefix "alse" r with
            | Some r' => Some (JBool false, r')
            | None => None
            end
          else if Ascii.eqb c dquote then
            match parse_chars r with
            | Some (t, r') => Some (JStr t, r')
            | None => None
            end
          else if Ascii.eqb c "[" then
            match strip_prefix "]" (skip_ws r) with
            | Some r' => Some (JArr [], r')
            | None =>
                match parse_elements f r with
                | Some (l, r') => Some (JArr l, r')
                | None => None
                end
            end
          else if Ascii.eqb c "{" then
            match strip_prefix "}" (skip_ws r) with
            | Some r' => Some (JObj [], r')
            | None =>
                match parse_members f r with
                | Some (l, r') => Some (JObj (define_all l), r')
                | None => None
                end
            end
          else parse_number (String c r)
      end
  end
with parse_elements (fuel : nat) (s : string) : option (list json * string) :=
  match fuel with
  | O => None
  | S f =>
      match parse_value f s with
      | Some (x, r) =>
          match skip_ws r with
          | String c r' =>
              if Ascii.eqb c "," then
                match parse_elements f r' with
                | Some (l, r'') => Some (x :: l, r'')
                | None => None
                end
              else if Ascii.eqb c "]" then Some ([x], r')
              else None
          | EmptyString => None
          end
      | None => None
      end
  end
with parse_members (fuel : nat) (s : string) : option (list (string * json) * string) :=
  match fuel with
  | O => None
  | S f =>
      match strip_prefix (String dquote EmptyString) (skip_ws s) with
      | Some r =>
          match parse_chars r with
          | Some (k, r1) =>
              match strip_prefix ":" (skip_ws r1) with
              | Some r2 =>
                  match parse_value f r2 with
                  | Some (x, r3) =>
                      match skip_ws r3 with
                      | String c r4 =>
                          if Ascii.eqb c "," then
                            match parse_members f r4 with
                            | Some (l, r5) => Some ((k, x) :: l, r5)
                            | None => None
                            end
                          else if Ascii.eqb c "}" then Some ([(k, x)], r4)
                          else None
                      | EmptyString => None
                      end
                  | None => None
                  end
              | None => None
              end
          | None => None
          end
      | None => None
      end
  end.

(** [JSON.parse(text)]: one value, then nothing but white space. *)
Definition parse (text : string) : completion json :=
  match parse_value (S (String.length text)) text with
  | Some (v, rest) =>
      match skip_ws rest with
      | EmptyString => Normal v
      | String _ _ => Throw SyntaxError
      end
  | None => Throw SyntaxError
  end.

End JSON.

(** [String(x)], the conversion a template literal applies to a value. *)
Fixpoint String_of (x : json) : string :=
  match x with
  | JNull => "null"
  | JBool true => "true"
  | JBool false => "false"
  | JNum n => JSON.number_to_string n
  | JStr s => s
  | JArr l =>
      JSON.join ","
        (map (fun x => match x with JNull => EmptyString | _ => String_of x end) l)
  | JObj _ => "[object Object]"
  end.

(** ** The memory tier: [node-cache]

    [new NodeCache({ stdTTL, maxKeys, deleteOnExpire: true })], as the
    package behaves since its version 5, which brought [maxKeys].  The
    cache keeps [data], an object from key to a wrapper [{ t, v }] with [t]
    the time of expiry in milliseconds ([0]: never), and the counters of
    [stats].  The byte-size counters [ksize] and [vsize] are left out; no
    method reads them to decide anything.  Values are cloned on the way in
    and out ([useClones]), which is what value passing gives here.  The
    periodic sweep that deletes expired entries between calls is not a call
    of the middleware; it is [_checkData] below, and [get] finds such
    entries expired all the same.

    [data] is a plain object, and the package reads it as [this.data[key]]:
    for a key that names a property a plain object inherits (see
    [inherited]) the read finds something although the key was never set.
    The definitions below are the package's behaviour for every other key;
    the keys of the middleware start with [api:] and are never such
    names. *)
Module NodeCache.

Record wrapper : Type := { t : Z; v : json }.

Record stats : Type := { hits : Z; misses : Z; keys : Z }.

Record cache : Type := {
  data : list (string * wrapper);
  stdTTL : Z;
  maxKeys : Z;
  st : stats
}.

Definition create (stdTTL maxKeys : Z) : cache :=
  {| data := []; stdTTL := stdTTL; maxKeys := maxKeys;
     st := {| hits := 0; misses := 0; keys := 0 |} |}.

Definition with_data (c : cache) (d : list (string * wrapper)) (s : stats) : cache :=
  {| data := d; stdTTL := stdTTL c; maxKeys := maxKeys c; st := s |}.

(** [_wrap(value, ttl)] at time [now]: a [ttl] of [0] never expires. *)
Definition _wrap (now : Z) (value : json) (ttl : Z) : wrapper :=
  {| t := if ttl =? 0 then 0 else now + ttl * 1000; v := value |}.

(** [del(key)]: removes the key if it is there; returns the number of
    keys removed. *)
Definition del (key : string) (c : cache) : Z * cache :=
  match prop_get key (data c) with
  | Some _ =>
      (1, with_data c (prop_delete key (data c))
            {| hits := hits (st c); misses := misses (st c); keys := keys (st c) - 1 |})
  | None => (0, c)
  end.

(** [_check(key, data)] with [deleteOnExpire]: an entry whose time of
    expiry is not [0] and lies before [now] is deleted and fails the
    check. *)
Definition _check (now : Z) (key : string) (w : wrapper) (c : cache) : bool * cache :=
  if negb (t w =? 0) && (t w <? now) then (false, snd (del key c))
  else (true, c).

(** [get(key)]: the value, or [undefined] ([None]). *)
Definition get (now : Z) (key : string) (c : cache) : option json * cache :=
  match prop_get key (data c) with
  | Some w =>
      let (live, c1) := _check now key w c in
      if live then
        (Some (v w),
         with_data c1 (data c1)
           {| hits := hits (st c1) + 1; misses := misses (st c1); keys := keys (st c1) |})
      else
        (None,
         with_data c1 (data c1)
           {| hits := hits (st c1); misses := misses (st c1) + 1; keys := keys (st c1) |})
  | None =>
      (None,
       with_data c (data c)
         {| hits := hits (st c); misses := misses (st c) + 1; keys := keys (st c) |})
  end.

(** [set(key, value, ttl)]: throws when the cache is full, whether or not
    the key is already there; otherwise writes the wrapper and counts the
    key if it is new. *)
Definition set (now : Z) (key : string) (value : json) (ttl : Z) (c : cache)
  : completion bool * cache :=
  if (maxKeys c >? -1) && (keys (st c) >=? maxKeys c) then (Throw ECACHEFULL, c)
  else
    let existent := prop_has key (data c) in
    (Normal true,
     with_data c (prop_set key (_wrap now value ttl) (data c))
       {| hits := hits (st c); misses := misses (st c);
          keys := if existent then keys (st c) else keys (st c) + 1 |}).

(** [keys()]. *)
Definition keys_of (c : cache) : list string := Object_keys (data c).

(** [_checkData()], the periodic sweep: [_check] on every key of [data]. *)
Definition _checkData (now : Z) (c : cache) : cache :=
  fold_left (fun c' kv => snd (_check now (fst kv) (snd kv) c')) (data c) c.

(** The property names of [Object.prototype]. *)
Definition Object_prototype_names : list string :=
  ["constructor"; "__defineGetter__"; "__defineSetter__"; "hasOwnProperty";
   "__lookupGetter__"; "__lookupSetter__"; "isPrototypeOf"; "propertyIsEnumerable";
   "toString"; "valueOf"; "__proto__"; "toLocaleString"].

(** [key] names a property every plain object inherits. *)
Definition inherited (key : string) : bool :=
  existsb (String.eqb key) Object_prototype_names.

(** [getStats()]. *)
Definition getStats (c : cache) : stats := st c.

End NodeCache.

(** ** The remote tier's network client: [redis.createClient(...)]

    The server keeps strings under keys with a time of expiry.  A command
    issued while the server cannot be reached rejects.  [issued] records
    the commands the client was asked to run, oldest first. *)
Module Redis.

Inductive command : Type :=
| GET (key : string)
| SETEX (key : string) (seconds : Z) (value : string)
| DEL (key : string).

Record client : Type := {
  reachable : bool;
  db : list (string * (Z * string));
  issued : list command
}.

Definition record (cmd : command) (c : client) : client :=
  {| reachable := reachable c; db := db c; issued := issued c ++ [cmd] |}.

Definition with_db (c : client) (d : list (string * (Z * string))) : client :=
  {| reachable := reachable c; db := d; issued := issued c |}.

(** [client.get(key)]: the string, or [null] ([None]) when the key is
    missing or has expired. *)
Definition get (now : Z) (key : string) (c : client) : completion (option string) * client :=
  let c := record (GET key) c in
  if reachable c then
    match prop_get key (db c) with
    | Some (expiry, s) => (Normal (if expiry <=? now then None else Some s), c)
    | None => (Normal None, c)
    end
  else (Throw ECONNREFUSED, c).

(** [client.setEx(key, seconds, value)]; the server refuses a time to
    live that is not positive. *)
Definition setEx (now : Z) (key : string) (seconds : Z) (value : string) (c : client)
  : completion unit * client :=
  let c := record (SETEX key seconds value) c in
  if reachable c then
    if seconds <=? 0 then (Throw ERR_INVALID_EXPIRE, c)
    else (Normal tt, with_db c (prop_set key (now + seconds * 1000, value) (db c)))
  else (Throw ECONNREFUSED, c).

(** [client.del(key)]: the number of keys removed. *)
Definition del (key : string) (c : client) : completion Z * client :=
  let c := record (DEL key) c in
  if reachable c then
    (Normal (if prop_has key (db c) then 1 else 0), with_db c (prop_delete key (db c)))
  else (Throw ECONNREFUSED, c).

End Redis.

(** ** The state the two classes work on

    [res] is the response object of the request in flight: its headers, the
    payloads that reached Express's own [res.json], and the closures the
    middleware put in place of [res.json] (latest first; each closes over
    [key], [ttl] and [useMemory]).  [nexts] lists the calls of [next],
    oldest first: [next()] is [None], [next(error)] is [Some error].
    [logged] lists the calls of [logger.error]. *)

Record capture : Type := { cap_key : string; cap_ttl : Z; cap_useMemory : bool }.

Record response : Type := {
  headers : list (string * string);
  emitted : list json;
  overrides : list capture
}.

Definition fresh_response : response :=
  {| headers := []; emitted := []; overrides := [] |}.

Record world : Type := {
  memoryCache : NodeCache.cache;
  redisClient : Redis.client;
  now : Z;
  res : response;
  nexts : list (option error);
  logged : list error
}.

Definition with_memoryCache (w : world) (c : NodeCache.cache) : world :=
  {| memoryCache := c; redisClient := redisClient w; now := now w; res := res w;
     nexts := nexts w; logged := logged w |}.

Definition with_redisClient (w : world) (c : Redis.client) : world :=
  {| memoryCache := memoryCache w; redisClient := c; now := now w; res := res w;
     nexts := nexts w; logged := logged w |}.

Definition with_res (w : world) (r : response) : world :=
  {| memoryCache := memoryCache w; redisClient := redisClient w; now := now w; res := r;
     nexts := nexts w; logged := logged w |}.

Definition with_nexts (w : world) (n : list (option error)) : world :=
  {| memoryCache := memoryCache w; redisClient := redisClient w; now := now w; res := res w;
     nexts := n; logged := logged w |}.

Definition with_logged (w : world) (l : list error) : world :=
  {| memoryCache := memoryCache w; redisClient := redisClient w; now := now w; res := res w;
     nexts := nexts w; logged := l |}.

Definition with_now (w : world) (time : Z) : world :=
  {| memoryCache := memoryCache w; redisClient := redisClient w; now := time; res := res w;
     nexts := nexts w; logged := logged w |}.

(** A new request arrives: a fresh response object, no [next] called yet. *)
Definition new_request (w : world) : world :=
  with_nexts (with_res w fresh_response) [].

(** Statements run in sequence on the world; a [throw] skips the rest. *)
Definition M (A : Type) : Type := world -> completion A * world.

Definition ret {A : Type} (a : A) : M A := fun w => (Normal a, w).

Definition bind {A B : Type} (m : M A) (k : A -> M B) : M B :=
  fun w =>
    match m w with
    | (Normal a, w1) => k a w1
    | (Throw e, w1) => (Throw e, w1)
    end.

(** [try { m } catch (error) { handler }]. *)
Definition try_catch {A : Type} (m : M A) (handler : error -> M A) : M A :=
  fun w =>
    match m w with
    | (Normal a, w1) => (Normal a, w1)
    | (Throw e, w1) => handler e w1
    end.

Declare Scope js_scope.
Delimit Scope js_scope with js.
Notation "x <- m ;; k" := (bind m (fun x => k))
  (at level 61, m at next level, right associativity) : js_scope.
Notation "m ;; k" := (bind m (fun _ => k))
  (at level 61, right associativity) : js_scope.
Local Open Scope js_scope.

(** Modelled from the spec: [logger.error(...)] of the repository's
    [utils/logger], which is not among the sources.  The spec has an error
    caught at a layer converted into a miss or a no-op and never propagated,
    so the call records the error and returns.  [logger.info] and
    [logger.debug] only write to the log and are left out. *)
Definition logger_error (e : error) : M unit :=
  fun w => (Normal tt, with_logged w (logged w ++ [e])).

(** [next()] and [next(error)]. *)
Definition next (arg : option error) : M unit :=
  fun w => (Normal tt, with_nexts w (nexts w ++ [arg])).

(** [res.set(name, value)]. *)
Definition res_set (name value : string) : M unit :=
  fun w =>
    (Normal tt,
     with_res w {| headers := prop_set name value (headers (res w));
                   emitted := emitted (res w);
                   overrides := overrides (res w) |}).

(** Express's own [res.json(data)]: the payload goes out. *)
Definition express_json (data : json) : M unit :=
  fun w =>
    (Normal tt,
     with_res w {| headers := headers (res w);
                   emitted := emitted (res w) ++ [data];
                   overrides := overrides (res w) |}).

(** [res.json = (data) => { ... }] for the closure [cap]. *)
Definition override_json (cap : capture) : M unit :=
  fun w =>
    (Normal tt,
     with_res w {| headers := headers (res w);
                   emitted := emitted (res w);
                   overrides := cap :: overrides (res w) |}).

(** The memory tier's methods on [this.memoryCache]. *)
Definition memoryCache_get (key : string) : M (option json) :=
  fun w =>
    let (r, c) := NodeCache.get (now w) key (memoryCache w) in
    (Normal r, with_memoryCache w c).

Definition memoryCache_set (key : string) (value : json) (ttl : Z) : M bool :=
  fun w =>
    let (r, c) := NodeCache.set (now w) key value ttl (memoryCache w) in
    (r, with_memoryCache w c).

Definition memoryCache_del (key : string) : M Z :=
  fun w =>
    let (r, c) := NodeCache.del key (memoryCache w) in
    (Normal r, with_memoryCache w c).

Definition memoryCache_keys : M (list string) :=
  fun w => (Normal (NodeCache.keys_of (memoryCache w)), w).

(** ** [RedisManager] (src/config/redis.js) *)
Module RedisManager.

Definition client_get (key : string) : M (option string) :=
  fun w =>
    let (r, c) := Redis.get (now w) key (redisClient w) in
    (r, with_redisClient w c).

Definition client_setEx (key : string) (seconds : Z) (value : string) : M unit :=
  fun w =>
    let (r, c) := Redis.setEx (now w) key seconds value (redisClient w) in
    (r, with_redisClient w c).

Definition client_del (key : string) : M Z :=
  fun w =>
    let (r, c) := Redis.del key (redisClient w) in
    (r, with_redisClient w c).

Definition JSON_parse (text : string) : M json :=
  fun w => (JSON.parse text, w).

(** [async get(key)]: [null] is [JNull]. *)
Definition get (key : string) : M json :=
  try_catch
    (value <- client_get key ;;
     match value with
     | Some s => if truthy_str s then JSON_parse s else ret JNull
     | None => ret JNull
     end)
    (fun error => logger_error error ;; ret JNull).

(** [async set(key, value, ttlSeconds = 300)]. *)
Definition set (key : string) (value : json) (ttlSeconds : Z) : M bool :=
  try_catch
    (let serialized := JSON.stringify value in
     client_setEx key ttlSeconds serialized ;;
     ret true)
    (fun error => logger_error error ;; ret false).

(** [async del(key)]. *)
Definition del (key : string) : M bool :=
  try_catch
    (client_del key ;; ret true)
    (fun error => logger_error error ;; ret false).

(** The two halves of a value's trip through the remote tier: what
    [set] writes and what [get] makes of the string it reads. *)
Definition serialize (value : json) : string := JSON.stringify value.

Definition deserialize (value : string) : completion json :=
  if truthy_str value then JSON.parse value else Normal JNull.

End RedisManager.

(** ** [CacheManager] (src/middleware/cache.js) *)

Record request : Type := {
  method : string;
  originalUrl : string;
  query : json;
  user : option (list (string * json))
}.

(** [`${x}`] for an [x] that may be [undefined]. *)
Definition template (x : option json) : string :=
  match x with
  | Some v => String_of v
  | None => "undefined"
  end.

Definition generateKey (req : request) : string :=
  let userId :=
    match user req with
    | Some u => prop_get "id" u
    | None => Some (JStr "anonymous")
    end in
  "api:" ++ method req ++ ":" ++ originalUrl req ++ ":"
    ++ JSON.stringify (query req) ++ ":" ++ template userId.

(** The closure put in place of [res.json] on a miss. *)
Definition wrapped_json (cap : capture) (originalJson : json -> M unit) (data : json) : M unit :=
  (if cap_useMemory cap
   then memoryCache_set (cap_key cap) data (cap_ttl cap) ;; ret tt
   else ret tt) ;;
  RedisManager.set (cap_key cap) data (cap_ttl cap) ;;
  originalJson data.

(** [res.json] as it stands after the overrides [caps]. *)
Fixpoint json_of (caps : list capture) : json -> M unit :=
  match caps with
  | [] => express_json
  | cap :: inner => wrapped_json cap (json_of inner)
  end.

(** [res.json(data)]: whatever [res.json] is at the time of the call. *)
Definition res_json (data : json) : M unit :=
  fun w => json_of (overrides (res w)) data w.

(** [cache(ttl = 300, useMemory = true)], the middleware for one request.
    [returned] tells whether the first level already answered. *)
Definition cache (ttl : Z) (useMemory : bool) (req : request) : M unit :=
  if negb (String.eqb (method req) "GET") then next None
  else
    let key := generateKey req in
    try_catch
      (returned <-
         (if useMemory then
            memoryResult <- memoryCache_get key ;;
            match memoryResult with
            | Some x =>
                if truthy x then
                  res_set "X-Cache" "HIT-MEMORY" ;; res_json x ;; ret true
                else ret false
            | None => ret false
            end
          else ret false) ;;
       if (returned : bool) then ret tt
       else
         redisResult <- RedisManager.get key ;;
         if truthy redisResult then
           (if useMemory
            then memoryCache_set key redisResult ttl ;; ret tt
            else ret tt) ;;
           res_set "X-Cache" "HIT-REDIS" ;;
           res_json redisResult
         else
           res_set "X-Cache" "MISS" ;;
           override_json {| cap_key := key; cap_ttl := ttl; cap_useMemory := useMemory |} ;;
           next None)
      (fun error => logger_error error ;; next None).

Fixpoint forEach {A : Type} (l : list A) (f : A -> M unit) : M unit :=
  match l with
  | [] => ret tt
  | x :: r => f x ;; forEach r f
  end.

Definition invalidatePattern (pattern : string) : M unit :=
  try_catch
    (keys <- memoryCache_keys ;;
     forEach keys (fun key =>
       if includes key pattern then memoryCache_del key ;; ret tt else ret tt))
    (fun error => logger_error error).

(** A route as the routers mount it, [router.get(path, cache.cache(ttl),
    handler)], with a handler that computes [data] and ends in
    [try { res.json(data) } catch (error) { next(error) }]. *)
Definition handler (data : json) : M unit :=
  try_catch (res_json data) (fun error => next (Some error)).

Definition route (ttl : Z) (useMemory : bool) (data : json) (req : request) : M unit :=
  fun w =>
    match cache ttl useMemory req (new_request w) with
    | (Normal _, w1) =>
        match nexts w1 with
        | [] => (Normal tt, w1)
        | _ :: _ => handler data w1
        end
    | (Throw e, w1) => (Throw e, w1)
    end.

(** The marker the response carries. *)
Definition X_Cache (w : world) : option string := prop_get "X-Cache" (headers (res w)).

(** ** Vocabulary of the statements *)

(** [const userId = user ? user.id : 'anonymous'], the caller part of the key. *)
Definition userId (req : request) : option json :=
  match user req with
  | Some u => prop_get "id" u
  | None => Some (JStr "anonymous")
  end.

(** The test [set] makes before anything else. *)
Definition full (c : NodeCache.cache) : bool :=
  (NodeCache.maxKeys c >? -1) && (NodeCache.keys (NodeCache.st c) >=? NodeCache.maxKeys c).

(** An entry that [_check] lets through at time [now]. *)
Definition live (now : Z) (e : NodeCache.wrapper) : bool :=
  negb (negb (NodeCache.t e =? 0) && (NodeCache.t e <? now)).

(** One [set] call after the other, each on the cache the previous one
    left; a call that throws does not stop the caller from making the next. *)
Fixpoint set_all (now : Z) (calls : list (string * json * Z)) (c : NodeCache.cache)
  : list (completion bool) * NodeCache.cache :=
  match calls with
  | [] => ([], c)
  | (key, value, ttl) :: r =>
      let (o, c1) := NodeCache.set now key value ttl c in
      let (os, c2) := set_all now r c1 in
      (o :: os, c2)
  end.

(** What happens to a memory tier on its own: a call of [set] at its time,
    or a run of the periodic sweep. *)
Inductive tier_call : Type :=
| SetCall (time : Z) (key : string) (value : json) (ttl : Z)
| CheckData (time : Z).

(** The calls one after the other; the outcomes of the [set] calls. *)
Fixpoint tier_run (calls : list tier_call) (c : NodeCache.cache)
  : list (completion bool) * NodeCache.cache :=
  match calls with
  | [] => ([], c)
  | SetCall time key value ttl :: r =>
      let (o, c1) := NodeCache.set time key value ttl c in
      let (os, c2) := tier_run r c1 in
      (o :: os, c2)
  | CheckData time :: r => tier_run r (NodeCache._checkData time c)
  end.

(** The key and the entry of each [set] call, in the order of the calls. *)
Fixpoint sets_of (calls : list tier_call) : list (string * NodeCache.wrapper) :=
  match calls with
  | [] => []
  | SetCall time key value ttl :: r => (key, NodeCache._wrap time value ttl) :: sets_of r
  | CheckData _ :: r => sets_of r
  end.

(** Up to the time [horizon] nothing expires: no sweep runs later than
    [horizon], and every entry set is still live then.  The keys set are
    not inherited names. *)
Definition within (horizon : Z) (call : tier_call) : Prop :=
  match call with
  | SetCall time key value ttl =>
      live horizon (NodeCache._wrap time value ttl) = true
      /\ NodeCache.inherited key = false
  | CheckData time => time <= horizon
  end.

(** The values [JSON.stringify] and [JSON.parse] carry faithfully: numbers
    are safe integers and the names of an object's properties are distinct. *)
Fixpoint representable (x : json) : Prop :=
  match x with
  | JNull => True
  | JBool _ => True
  | JNum n => - 2 ^ 53 < n < 2 ^ 53
  | JStr _ => True
  | JArr l =>
      (fix all (l : list json) : Prop :=
         match l with
         | [] => True
         | x :: r => representable x /\ all r
         end) l
  | JObj o =>
      NoDup (map fst o) /\
      (fix all (o : list (string * json)) : Prop :=
         match o with
         | [] => True
         | (_, x) :: r => representable x /\ all r
         end) o
  end.

(** The worlds of the examples: a memory tier of capacity [n] and a remote
    tier that is up or down, both empty, at time [1000]. *)
Definition redis_of (up : bool) (d : list (string * (Z * string))) : Redis.client :=
  {| Redis.reachable := up; Redis.db := d; Redis.issued := [] |}.

Definition world_of (c : NodeCache.cache) (r : Redis.client) : world :=
  {| memoryCache := c; redisClient := r; now := 1000; res := fresh_response;
     nexts := []; logged := [] |}.

Definition GET_of (url : string) : request :=
  {| method := "GET"; originalUrl := url; query := JObj []; user := None |}.

(** What a call into the remote tier leaves alone. *)
Definition same_request (w w' : world) : Prop :=
  memoryCache w' = memoryCache w /\ res w' = res w /\ nexts w' = nexts w /\ now w' = now w.

(** [get] counted as a hit, resp. a miss. *)
Definition count_hit (c : NodeCache.cache) : NodeCache.cache :=
  NodeCache.with_data c (NodeCache.data c)
    {| NodeCache.hits := NodeCache.hits (NodeCache.st c) + 1;
       NodeCache.misses := NodeCache.misses (NodeCache.st c);
       NodeCache.keys := NodeCache.keys (NodeCache.st c) |}.

Definition count_miss (c : NodeCache.cache) : NodeCache.cache :=
  NodeCache.with_data c (NodeCache.data c)
    {| NodeCache.hits := NodeCache.hits (NodeCache.st c);
       NodeCache.misses := NodeCache.misses (NodeCache.st c) + 1;
       NodeCache.keys := NodeCache.keys (NodeCache.st c) |}.

(** The response after [res.set('X-Cache', marker)] and, when [out] is
    given, Express's [res.json(out)]. *)
Definition marked (r : response) (marker : string) (out : list json) : response :=
  {| headers := prop_set "X-Cache" marker (headers r);
     emitted := emitted r ++ out;
     overrides := overrides r |}.

(** The first level of the middleware: what the memory tier answers and
    the world it leaves; with [useMemory] off the tier is not asked. *)
Definition level1 (useMemory : bool) (key : string) (w : world) : option json * world :=
  if useMemory then
    let (r, c) := NodeCache.get (now w) key (memoryCache w) in (r, with_memoryCache w c)
  else (None, w).

(** The closure the middleware installs for [req]. *)
Definition capture_of (ttl : Z) (useMemory : bool) (req : request) : capture :=
  {| cap_key := generateKey req; cap_ttl := ttl; cap_useMemory := useMemory |}.

(** The miss branch: mark, override [res.json], call [next()]. *)
Definition miss_branch (cap : capture) (w : world) : world :=
  with_nexts
    (with_res w {| headers := prop_set "X-Cache" "MISS" (headers (res w));
                   emitted := emitted (res w);
                   overrides := cap :: overrides (res w) |})
    (nexts w ++ [None]).

(** A memory tier of capacity [maxKeys] holding [entries]. *)
Definition memory_with (maxKeys : Z) (entries : list (string * NodeCache.wrapper))
  : NodeCache.cache :=
  {| NodeCache.data := entries; NodeCache.stdTTL := 300; NodeCache.maxKeys := maxKeys;
     NodeCache.st := {| NodeCache.hits := 0; NodeCache.misses := 0;
                        NodeCache.keys := Z.of_nat (List.length entries) |} |}.

Definition entry (t : Z) (v : json) : NodeCache.wrapper :=
  {| NodeCache.t := t; NodeCache.v := v |}.

Definition products : request := GET_of "/api/products".
Definition products_key : string := generateKey products.
Definition orders_key : string := generateKey (GET_of "/api/orders").

(** The entries [invalidatePattern(pattern)] is to keep. *)
Definition kept (pattern : string) (kv : string * NodeCache.wrapper) : bool :=
  negb (includes (fst kv) pattern).

(** The callback of [keys.forEach] in [invalidatePattern]. *)
Definition purge (pattern : string) (key : string) : M unit :=
  if includes key pattern then memoryCache_del key ;; ret tt else ret tt.

(** Two requests for the products list with the same parameters in a
    different order, as Express presents them. *)
Definition products_page_limit : request :=
  {| method := "GET"; originalUrl := "/api/products?page=1&limit=10";
     query := JObj [("page", JStr "1"); ("limit", JStr "10")]; user := None |}.

Definition products_limit_page : request :=
  {| method := "GET"; originalUrl := "/api/products?limit=10&page=1";
     query := JObj [("limit", JStr "10"); ("page", JStr "1")]; user := None |}.

(** The own properties of a query object. *)
Definition props_of (x : json) : list (string * json) :=
  match x with
  | JObj o => o
  | _ => []
  end.

(** The number of calls [JSON.parse] nests to read a value back. *)
Fixpoint size (x : json) : nat :=
  match x with
  | JArr l => S (list_sum (map (fun x => S (size x)) l))
  | JObj o => S (list_sum (map (fun kv => S (size (snd kv))) o))
  | _ => 1
  end.

(** What may follow a value inside a text: nothing, a comma, or the end
    of the enclosing array or object. *)
Definition delim (s : string) : bool :=
  match s with
  | EmptyString => true
  | String c _ => Ascii.eqb c "," || Ascii.eqb c "]" || Ascii.eqb c "}"
  end.

(** The characters a serialized value can begin with. *)
Definition value_start (c : ascii) : bool :=
  Ascii.eqb c "n" || Ascii.eqb c "t" || Ascii.eqb c "f" || Ascii.eqb c JSON.dquote
  || Ascii.eqb c "[" || Ascii.eqb c "{" || Ascii.eqb c "-"
  || match JSON.digit_of_char c with Some _ => true | None => false end.

(** What the induction carries for one value: wherever its text stands,
    with enough fuel it is read back and the rest is left. *)
Definition reads_back (x : json) : Prop :=
  forall fuel rest,
    (size x <= fuel)%nat ->
    delim rest = true ->
    JSON.parse_value fuel (JSON.stringify x ++ rest) = Some (x, rest).

(** ** The cache over a run of events

    What happens to one process over time: a request comes in on a route
    mounted with [cache.cache(ttl, useMemory)] whose handler emits [data];
    a write path calls [invalidatePattern]; the clock moves; the remote
    store goes away or comes back. *)
Inductive event : Type :=
| Request (ttl : Z) (useMemory : bool) (data : json) (req : request)
| Invalidate (pattern : string)
| Elapse (ms : Z)
| Network (up : bool).

Definition with_reachable (c : Redis.client) (up : bool) : Redis.client :=
  {| Redis.reachable := up; Redis.db := Redis.db c; Redis.issued := Redis.issued c |}.

Definition step (w : world) (ev : event) : world :=
  match ev with
  | Request ttl useMemory data req => snd (route ttl useMemory data req w)
  | Invalidate pattern => snd (invalidatePattern pattern w)
  | Elapse ms => with_now w (now w + ms)
  | Network up => with_redisClient w (with_reachable (redisClient w) up)
  end.

Definition run (events : list event) (w : world) : world := fold_left step events w.

(** The memory tier's bookkeeping is right and its bound is kept:
    [stats.keys] is the number of entries, and with a limit in force
    ([maxKeys] above [-1]) the entries do not exceed it. *)
Definition tier_ok (c : NodeCache.cache) : Prop :=
  NodeCache.keys (NodeCache.st c) = Z.of_nat (List.length (NodeCache.data c))
  /\ (-1 < NodeCache.maxKeys c ->
      Z.of_nat (List.length (NodeCache.data c)) <= NodeCache.maxKeys c).

(** A statement sequence that keeps [I] whenever it starts in [I], whether
    it returns or throws. *)
Definition preserves {A : Type} (I : world -> Prop) (m : M A) : Prop :=
  forall w, I w -> I (snd (m w)).

(** [I] looks at the memory tier only. *)
Definition memory_only (I : world -> Prop) : Prop :=
  forall w w', memoryCache w' = memoryCache w -> I w -> I w'.

(** No closure over [res.json] may write the memory tier. *)
Definition no_memory_closure (w : world) : Prop :=
  Forall (fun cap => cap_useMemory cap = false) (overrides (res w)).

(** The memory tier of [w] is in order and configured for [N] keys. *)
Definition bounded (N : Z) (w : world) : Prop :=
  tier_ok (memoryCache w) /\ NodeCache.maxKeys (memoryCache w) = N.

(** The memory tier of [w] is [c], and no closure may write it. *)
Definition memory_is (c : NodeCache.cache) (w : world) : Prop :=
  memoryCache w = c /\ no_memory_closure w.

(** The remote tier has nothing to give for [key] at time [time]: it
    cannot be reached, or the key is missing, or its entry has expired. *)
Definition remote_lacks (time : Z) (key : string) (c : Redis.client) : Prop :=
  Redis.reachable c = false
  \/ prop_get key (Redis.db c) = None
  \/ exists expiry s, prop_get key (Redis.db c) = Some (expiry, s) /\ expiry <= time.

(** The cache a successful [set(key, value, ttl)] at time [time] leaves. *)
Definition stored (time : Z) (key : string) (value : json) (ttl : Z) (c : NodeCache.cache)
  : NodeCache.cache :=
  NodeCache.with_data c
    (prop_set key (NodeCache._wrap time value ttl) (NodeCache.data c))
    {| NodeCache.hits := NodeCache.hits (NodeCache.st c);
       NodeCache.misses := NodeCache.misses (NodeCache.st c);
       NodeCache.keys :=
         if prop_has key (NodeCache.data c)
         then NodeCache.keys (NodeCache.st c)
         else NodeCache.keys (NodeCache.st c) + 1 |}.

(** The response of a miss once the handler has emitted [data]. *)
Definition miss_response (ttl : Z) (req : request) (data : json) : response :=
  {| headers := [("X-Cache", "MISS")]; emitted := [data];
     overrides := [capture_of ttl true req] |}.

(** The response of a hit with marker [marker] and payload [data]. *)
Definition hit_response (marker : string) (data : json) : response :=
  {| headers := [("X-Cache", marker)]; emitted := [data]; overrides := [] |}.

(** ** The rest of [RedisManager] (src/config/redis.js) *)

(** [reconnectStrategy: (retries) => ...] of the client's socket options:
    the delay in milliseconds before the next attempt, or the [Error] that
    makes the client give up ([inr] with its message). *)
Definition reconnectStrategy (retries : Z) : Z + string :=
  if retries >? 3 then inr "Redis connection failed"
  else inl (Z.min (retries * 100) 3000).

(** Three more commands of the network client.  They are not among the
    commands [Redis.issued] lists. *)
Definition client_exists (time : Z) (key : string) (c : Redis.client) : completion Z :=
  if Redis.reachable c then
    match prop_get key (Redis.db c) with
    | Some (expiry, _) => Normal (if expiry <=? time then 0 else 1)
    | None => Normal 0
    end
  else Throw ECONNREFUSED.

Definition client_flushAll (c : Redis.client) : completion unit * Redis.client :=
  if Redis.reachable c then (Normal tt, Redis.with_db c [])
  else (Throw ECONNREFUSED, c).

Definition client_ping (c : Redis.client) : completion string :=
  if Redis.reachable c then Normal "PONG" else Throw ECONNREFUSED.

(** [async exists(key)]: the client's count, or [false] after an error. *)
Definition RedisManager_exists (key : string) : M json :=
  try_catch
    (fun w => (match client_exists (now w) key (redisClient w) with
               | Normal n => Normal (JNum n)
               | Throw e => Throw e
               end, w))
    (fun error => logger_error error ;; ret (JBool false)).

(** [async flushAll()]. *)
Definition RedisManager_flushAll : M bool :=
  try_catch
    ((fun w => let (r, c) := client_flushAll (redisClient w) in (r, with_redisClient w c)) ;;
     ret true)
    (fun error => logger_error error ;; ret false).

(** [async ping()]: no [try] around the client's call. *)
Definition RedisManager_ping : M string :=
  fun w => (client_ping (redisClient w), w).

(** ** [errorHandler] (src/middleware/errorHandler.js)

    The error object as the handler reads it: [status] and [code] may be
    missing, [name], [message] and [stack] are strings. *)
Record js_error : Type := {
  err_status : option Z;
  err_name : string;
  err_code : option string;
  err_message : string;
  err_stack : string
}.

(** [x || 500] on a status that may be missing: [0] is falsy. *)
Definition status_or_500 (x : option Z) : Z :=
  match x with
  | Some n => if n =? 0 then 500 else n
  | None => 500
  end.

Definition code_is (x : option string) (code : string) : bool :=
  match x with
  | Some c => String.eqb c code
  | None => false
  end.

(** The status and the message before the environment is looked at. *)
Definition classify (err : js_error) : Z * string :=
  if String.eqb (err_name err) "ValidationError" then (400, "Validation Error")
  else if String.eqb (err_name err) "JsonWebTokenError" then (401, "Invalid Token")
  else if String.eqb (err_name err) "TokenExpiredError" then (401, "Token Expired")
  else if code_is (err_code err) "23505" then (409, "Resource already exists")
  else if code_is (err_code err) "23503" then (400, "Invalid reference")
  else (status_or_500 (err_status err), "Internal Server Error").

Definition is_production (NODE_ENV : option string) : bool :=
  match NODE_ENV with
  | Some e => String.eqb e "production"
  | None => false
  end.

(** [errorHandler(err, req, res, next)]: the status handed to [res.status]
    and the body handed to [res.json].  [timestamp] is what
    [new Date().toISOString()] gives and [path] is [req.path].  The call of
    [logger.error] at the top is left out. *)
Definition errorHandler (NODE_ENV : option string) (timestamp path : string) (err : js_error)
  : Z * json :=
  let (status, message) := classify err in
  let message :=
    if is_production NODE_ENV && (status =? 500) then "Internal Server Error"
    else if negb (is_production NODE_ENV) then err_message err
    else message in
  (status,
   JObj ([("error", JStr message); ("timestamp", JStr timestamp); ("path", JStr path)]
         ++ (if negb (is_production NODE_ENV) then [("stack", JStr (err_stack err))] else []))).

(** A route whose handler fails before it emits anything: the handler's
    [catch] calls [next(error)], and Express passes the error to
    [errorHandler], which answers through [res.json] as it stands then. *)
Definition failing_route (ttl : Z) (useMemory : bool) (NODE_ENV : option string)
    (timestamp path : string) (err : js_error) (req : request) : M unit :=
  fun w =>
    match cache ttl useMemory req (new_request w) with
    | (Normal _, w1) =>
        match nexts w1 with
        | [] => (Normal tt, w1)
        | _ :: _ => res_json (snd (errorHandler NODE_ENV timestamp path err)) w1
        end
    | (Throw e, w1) => (Throw e, w1)
    end.

(** ** [DatabaseManager.transaction] (src/config/database.js)

    A client checked out of the pool: the statements sent to it so far,
    how often it was released, and which statements the server rejects,
    with what message. *)
Module Database.

Inductive outcome (A : Type) : Type :=
| Resolved (a : A)
| Rejected (message : string).
Arguments Resolved {A} a.
Arguments Rejected {A} message.

Record client : Type := {
  statements : list string;
  released : nat;
  rejects : string -> option string
}.

(** [client.query(text)]. *)
Definition query (text : string) (c : client) : outcome unit * client :=
  let c' := {| statements := statements c ++ [text]; released := released c;
               rejects := rejects c |} in
  match rejects c text with
  | Some message => (Rejected message, c')
  | None => (Resolved tt, c')
  end.

(** [client.release()]. *)
Definition release (c : client) : client :=
  {| statements := statements c; released := S (released c); rejects := rejects c |}.

(** [async transaction(callback)] once [pool.connect()] has given the
    client: [try { BEGIN; callback; COMMIT } catch { ROLLBACK; throw }
    finally { release }].  A [ROLLBACK] that is itself rejected throws in
    place of the first error. *)
Definition transaction {A : Type} (callback : client -> outcome A * client) (c : client)
  : outcome A * client :=
  let tried :=
    match query "BEGIN" c with
    | (Resolved _, c1) =>
        match callback c1 with
        | (Resolved result, c2) =>
            match query "COMMIT" c2 with
            | (Resolved _, c3) => (Resolved result, c3)
            | (Rejected e, c3) => (Rejected e, c3)
            end
        | (Rejected e, c2) => (Rejected e, c2)
        end
    | (Rejected e, c1) => (Rejected e, c1)
    end in
  let caught :=
    match tried with
    | (Resolved result, c4) => (Resolved result, c4)
    | (Rejected e, c4) =>
        match query "ROLLBACK" c4 with
        | (Resolved _, c5) => (Rejected e, c5)
        | (Rejected e', c5) => (Rejected e', c5)
        end
    end in
  (fst caught, release (snd caught)).

End Database.

(** A callback that uses the client for statements only: it neither
    releases it nor changes what the server rejects. *)
Definition well_behaved {A : Type}
    (callback : Database.client -> Database.outcome A * Database.client) : Prop :=
  forall c,
    Database.released (snd (callback c)) = Database.released c
    /\ Database.rejects (snd (callback c)) = Database.rejects c
    /\ exists more, Database.statements (snd (callback c))
                    = (Database.statements c ++ more)%list.

(** ** The product list query (src/routes/products.js, [GET /])

    The handler builds the SQL text and its parameters side by side:
    [whereClause], [params] and [paramCount]. *)
Record builder : Type := {
  whereClause : string;
  params : list json;
  paramCount : Z
}.

Definition nl : string := String "010"%char EmptyString.

(** [`$${n}`]. *)
Definition placeholder (n : Z) : string := "$" ++ JSON.number_to_string n.

(** One block [if (req.query.f) { whereClause += ...; params.push(...) }]:
    [clause] gets the value of [++paramCount]. *)
Definition add_filter (value : option json) (clause : Z -> string) (param : json -> json)
    (b : builder) : builder :=
  if truthy_opt value then
    match value with
    | Some x =>
        {| whereClause := whereClause b ++ clause (paramCount b + 1);
           params := params b ++ [param x];
           paramCount := paramCount b + 1 |}
    | None => b
    end
  else b.

(** The [WHERE] clause and its parameters for the query object [q]. *)
Definition product_filters (q : list (string * json)) : builder :=
  let b := {| whereClause := "WHERE p.active = true"; params := []; paramCount := 0 |} in
  let b := add_filter (prop_get "category" q)
             (fun n => " AND p.category_id = " ++ placeholder n) (fun x => x) b in
  let b := add_filter (prop_get "min_price" q)
             (fun n => " AND p.price >= " ++ placeholder n) (fun x => x) b in
  let b := add_filter (prop_get "max_price" q)
             (fun n => " AND p.price <= " ++ placeholder n) (fun x => x) b in
  add_filter (prop_get "search" q)
    (fun n => " AND (p.name ILIKE " ++ placeholder n
              ++ " OR p.description ILIKE " ++ placeholder n ++ ")")
    (fun x => JStr ("%" ++ String_of x ++ "%")) b.

(** [params.slice(0, -2)]. *)
Definition slice_0_minus_2 {A : Type} (l : list A) : list A :=
  firstn (List.length l - 2) l.

(** The two calls of [dbPool.query]: the main query with its parameters,
    then the count query with its own. *)
Definition product_list_queries (q : list (string * json)) (limit offset : Z)
  : (string * list json) * (string * list json) :=
  let b := product_filters q in
  let n1 := paramCount b + 1 in
  let n2 := n1 + 1 in
  let query :=
    nl ++ "      SELECT p.id, p.name, p.description, p.price, p.stock_quantity, "
    ++ nl ++ "             p.created_at, p.updated_at, c.name as category_name"
    ++ nl ++ "      FROM products p"
    ++ nl ++ "      JOIN categories c ON p.category_id = c.id"
    ++ nl ++ "      " ++ whereClause b
    ++ nl ++ "      ORDER BY p.created_at DESC"
    ++ nl ++ "      LIMIT " ++ placeholder n1 ++ " OFFSET " ++ placeholder n2
    ++ nl ++ "    " in
  let all := (params b ++ [JNum limit; JNum offset])%list in
  let countQuery :=
    nl ++ "      SELECT COUNT(" ++ "*" ++ ") FROM products p "
    ++ nl ++ "      JOIN categories c ON p.category_id = c.id"
    ++ nl ++ "      " ++ whereClause b
    ++ nl ++ "    " in
  ((query, all), (countQuery, slice_0_minus_2 all)).

(** The numbers of the placeholders [$n] of an SQL text, in order. *)
Fixpoint placeholders (s : string) : list Z :=
  match s with
  | EmptyString => []
  | String c r =>
      if Ascii.eqb c "$" then
        match fst (JSON.parse_digits r) with
        | Nil => placeholders r
        | d => Z.of_uint d :: placeholders r
        end
      else placeholders r
  end.

(** A text without the character [$]. *)
Fixpoint plain (s : string) : bool :=
  match s with
  | EmptyString => true
  | String c r => negb (Ascii.eqb c "$") && plain r
  end.

(** A text that does not go on with a digit. *)
Definition stops (rest : string) : Prop :=
  match rest with
  | EmptyString => True
  | String c _ => JSON.digit_of_char c = None
  end.

(** The clause and the parameters of [b] are in step: [k] parameters, and
    in any text the clause is put in front of, the placeholders are
    [$1 .. $k] and those of the text that follows. *)
Definition in_step (b : builder) : Prop :=
  exists k : nat,
    paramCount b = Z.of_nat k
    /\ List.length (params b) = k
    /\ forall rest i,
         stops rest ->
         (In i (placeholders (whereClause b ++ rest))
          <-> 1 <= i <= Z.of_nat k \/ In i (placeholders rest)).

(** * Properties *)

(** ** The remote tier fails soft *)

Lemma RedisManager_get_down key w :
  Redis.reachable (redisClient w) = false ->
  RedisManager.get key w =
    (Normal JNull,
     with_logged (with_redisClient w (Redis.record (Redis.GET key) (redisClient w)))
       (logged w ++ [ECONNREFUSED])).
Proof.
  intros Hdown.
  unfold RedisManager.get, try_catch, bind, RedisManager.client_get, Redis.get.
  simpl. rewrite Hdown. reflexivity.
Qed.



Lemma RedisManager_get_total key w :
  exists j w', RedisManager.get key w = (Normal j, w') /\ same_request w w'.
Proof.
  unfold RedisManager.get, try_catch, bind, RedisManager.client_get, Redis.get,
    RedisManager.JSON_parse, logger_error, ret, same_request.
  simpl.
  destruct (Redis.reachable (redisClient w)); simpl.
  - destruct (prop_get key (Redis.db (redisClient w))) as [[expiry s]|]; simpl.
    + destruct (expiry <=? now w); simpl; [eauto 10|].
      destruct (truthy_str s); simpl; [|eauto 10].
      destruct (JSON.parse s); simpl; eauto 10.
    + eauto 10.
  - eauto 10.
Qed.

Lemma RedisManager_set_total key value ttl w :
  exists b w', RedisManager.set key value ttl w = (Normal b, w') /\ same_request w w'.
Proof.
  unfold RedisManager.set, try_catch, bind, RedisManager.client_setEx, Redis.setEx,
    logger_error, ret, same_request.
  simpl.
  destruct (Redis.reachable (redisClient w)); simpl; [|eauto 10].
  destruct (ttl <=? 0); simpl; eauto 10.
Qed.

Lemma parse_empty : JSON.parse EmptyString = Throw SyntaxError.
Proof. reflexivity. Qed.

(** A live, parsable entry of a reachable server is what [get] returns. *)
Lemma RedisManager_get_hit key w expiry s j :
  Redis.reachable (redisClient w) = true ->
  prop_get key (Redis.db (redisClient w)) = Some (expiry, s) ->
  now w < expiry ->
  JSON.parse s = Normal j ->
  RedisManager.get key w =
    (Normal j, with_redisClient w (Redis.record (Redis.GET key) (redisClient w))).
Proof.
  intros Hup Hdb Hlive Hparse.
  unfold RedisManager.get, try_catch, bind, RedisManager.client_get, Redis.get,
    RedisManager.JSON_parse, ret.
  simpl. rewrite Hup, Hdb. simpl.
  replace (expiry <=? now w) with false by (symmetry; apply Z.leb_gt; exact Hlive).
  simpl.
  destruct s as [|a s'].
  - rewrite parse_empty in Hparse. discriminate.
  - simpl. rewrite Hparse. reflexivity.
Qed.

(** ** The middleware, branch by branch *)

Lemma cache_memory_hit ttl req w x c1 :
  method req = "GET" ->
  NodeCache.get (now w) (generateKey req) (memoryCache w) = (Some x, c1) ->
  truthy x = true ->
  overrides (res w) = [] ->
  cache ttl true req w =
    (Normal tt, with_res (with_memoryCache w c1) (marked (res w) "HIT-MEMORY" [x])).
Proof.
  intros Hm Hget Hx Hov.
  unfold cache. rewrite Hm. simpl.
  unfold try_catch, bind, memoryCache_get. rewrite Hget. simpl. rewrite Hx.
  unfold res_set, res_json, ret, marked. simpl. rewrite Hov. reflexivity.
Qed.

Lemma cache_miss ttl useMemory req w r w1 j w2 :
  method req = "GET" ->
  level1 useMemory (generateKey req) w = (r, w1) ->
  truthy_opt r = false ->
  RedisManager.get (generateKey req) w1 = (Normal j, w2) ->
  truthy j = false ->
  cache ttl useMemory req w = (Normal tt, miss_branch (capture_of ttl useMemory req) w2).
Proof.
  intros Hm Hl1 Hr Hget Hj.
  unfold cache. rewrite Hm. simpl.
  unfold level1 in Hl1. unfold try_catch, bind, memoryCache_get.
  destruct useMemory.
  - destruct (NodeCache.get (now w) (generateKey req) (memoryCache w)) as [r0 c0].
    inversion Hl1; subst r0 w1; clear Hl1.
    destruct r as [x|]; simpl in Hr |- *.
    + rewrite Hr. simpl. rewrite Hget, Hj. reflexivity.
    + rewrite Hget, Hj. reflexivity.
  - inversion Hl1; subst r w1; clear Hl1.
    simpl. rewrite Hget, Hj. reflexivity.
Qed.

Lemma cache_remote_hit_backfill ttl req w r w1 j w2 c2 :
  method req = "GET" ->
  level1 true (generateKey req) w = (r, w1) ->
  truthy_opt r = false ->
  RedisManager.get (generateKey req) w1 = (Normal j, w2) ->
  truthy j = true ->
  NodeCache.set (now w2) (generateKey req) j ttl (memoryCache w2) = (Normal true, c2) ->
  overrides (res w2) = [] ->
  cache ttl true req w =
    (Normal tt, with_res (with_memoryCache w2 c2) (marked (res w2) "HIT-REDIS" [j])).
Proof.
  intros Hm Hl1 Hr Hget Hj Hset Hov.
  unfold cache. rewrite Hm. simpl.
  unfold level1 in Hl1. unfold try_catch, bind, memoryCache_get.
  destruct (NodeCache.get (now w) (generateKey req) (memoryCache w)) as [r0 c0].
  inversion Hl1; subst r0 w1; clear Hl1.
  assert (Hgo :
    (let (c, w3) :=
       (let (c, w3) := RedisManager.get (generateKey req) (with_memoryCache w c0) in
        match c with
        | Normal a =>
            (if truthy a
             then
               (memoryCache_set (generateKey req) a ttl ;; ret tt) ;;
               res_set "X-Cache" "HIT-REDIS" ;; res_json a
             else
               res_set "X-Cache" "MISS" ;;
               override_json {| cap_key := generateKey req; cap_ttl := ttl;
                                cap_useMemory := true |} ;;
               next None) w3
        | Throw e => (Throw e, w3)
        end) in
     match c with
     | Normal a => (Normal a, w3)
     | Throw e => (logger_error e ;; next None) w3
     end) =
    (Normal tt, with_res (with_memoryCache w2 c2) (marked (res w2) "HIT-REDIS" [j]))).
  { rewrite Hget, Hj.
    unfold bind, memoryCache_set. rewrite Hset.
    unfold res_set, res_json, ret, marked. simpl. rewrite Hov. reflexivity. }
  destruct r as [x|]; simpl in Hr |- *.
  - rewrite Hr. simpl. exact Hgo.
  - exact Hgo.
Qed.

Lemma cache_remote_hit_full ttl req w r w1 j w2 c2 e :
  method req = "GET" ->
  level1 true (generateKey req) w = (r, w1) ->
  truthy_opt r = false ->
  RedisManager.get (generateKey req) w1 = (Normal j, w2) ->
  truthy j = true ->
  NodeCache.set (now w2) (generateKey req) j ttl (memoryCache w2) = (Throw e, c2) ->
  cache ttl true req w =
    (Normal tt,
     with_nexts (with_logged (with_memoryCache w2 c2) (logged w2 ++ [e])) (nexts w2 ++ [None])).
Proof.
  intros Hm Hl1 Hr Hget Hj Hset.
  unfold cache. rewrite Hm. simpl.
  unfold level1 in Hl1. unfold try_catch, bind, memoryCache_get.
  destruct (NodeCache.get (now w) (generateKey req) (memoryCache w)) as [r0 c0].
  inversion Hl1; subst r0 w1; clear Hl1.
  destruct r as [x|]; simpl in Hr |- *.
  - rewrite Hr. simpl. rewrite Hget, Hj.
    unfold memoryCache_set. rewrite Hset. reflexivity.
  - rewrite Hget, Hj. unfold memoryCache_set. rewrite Hset. reflexivity.
Qed.

Lemma cache_remote_hit_no_memory ttl req w j w2 :
  method req = "GET" ->
  RedisManager.get (generateKey req) w = (Normal j, w2) ->
  truthy j = true ->
  overrides (res w2) = [] ->
  cache ttl false req w = (Normal tt, with_res w2 (marked (res w2) "HIT-REDIS" [j])).
Proof.
  intros Hm Hget Hj Hov.
  unfold cache. rewrite Hm. simpl.
  unfold try_catch, bind. simpl. rewrite Hget, Hj.
  unfold res_set, res_json, ret, marked. simpl. rewrite Hov. reflexivity.
Qed.

(** The origin handler's [res.json(data)] after a miss, memory tier on. *)
Lemma handler_stores data cap w c3 :
  overrides (res w) = [cap] ->
  cap_useMemory cap = true ->
  NodeCache.set (now w) (cap_key cap) data (cap_ttl cap) (memoryCache w) = (Normal true, c3) ->
  exists b w4,
    RedisManager.set (cap_key cap) data (cap_ttl cap) (with_memoryCache w c3) = (Normal b, w4)
    /\ handler data w =
         (Normal tt,
          with_res w4 {| headers := headers (res w4);
                         emitted := emitted (res w4) ++ [data];
                         overrides := overrides (res w4) |}).
Proof.
  intros Hov Hmem Hset.
  destruct (RedisManager_set_total (cap_key cap) data (cap_ttl cap) (with_memoryCache w c3))
    as (b & w4 & Hr & _).
  exists b, w4. split; [exact Hr|].
  unfold handler, try_catch, res_json. rewrite Hov. simpl.
  unfold wrapped_json, bind. rewrite Hmem.
  unfold memoryCache_set. rewrite Hset. simpl. rewrite Hr. reflexivity.
Qed.

Lemma handler_full data cap inner w c3 e :
  overrides (res w) = cap :: inner ->
  cap_useMemory cap = true ->
  NodeCache.set (now w) (cap_key cap) data (cap_ttl cap) (memoryCache w) = (Throw e, c3) ->
  handler data w = (Normal tt, with_nexts (with_memoryCache w c3) (nexts w ++ [Some e])).
Proof.
  intros Hov Hmem Hset.
  unfold handler, try_catch, res_json. rewrite Hov. simpl.
  unfold wrapped_json, bind. rewrite Hmem.
  unfold memoryCache_set. rewrite Hset. reflexivity.
Qed.

(** C9: a request whose method is not GET goes straight to [next()]; the
    memory tier, the remote tier, the response headers and [res.json] are
    as they were, and nothing computed from the key is used. *)
Theorem C9_non_GET_passes_through ttl useMemory req w :
  method req <> "GET" ->
  cache ttl useMemory req w = (Normal tt, with_nexts w (nexts w ++ [None])).
Proof.
  intros Hm. unfold cache.
  apply String.eqb_neq in Hm. rewrite Hm. reflexivity.
Qed.

Lemma C9_witness :
  "POST" <> "GET" /\
  cache 300 true
    {| method := "POST"; originalUrl := "/api/products"; query := JObj []; user := None |}
    (world_of (NodeCache.create 300 1000) (redis_of true []))
  = (Normal tt,
     with_nexts (world_of (NodeCache.create 300 1000) (redis_of true [])) [None]).
Proof.
  split; [discriminate|].
  apply (C9_non_GET_passes_through 300 true
           {| method := "POST"; originalUrl := "/api/products"; query := JObj []; user := None |}
           (world_of (NodeCache.create 300 1000) (redis_of true []))).
  discriminate.
Defined.

(** ** The memory tier on its own *)

Lemma get_live now key c e :
  prop_get key (NodeCache.data c) = Some e ->
  live now e = true ->
  NodeCache.get now key c = (Some (NodeCache.v e), count_hit c).
Proof.
  intros Hget Hlive. unfold NodeCache.get, NodeCache._check. rewrite Hget.
  unfold live in Hlive. apply negb_true_iff in Hlive. rewrite Hlive. reflexivity.
Qed.

Lemma get_absent now key c :
  prop_get key (NodeCache.data c) = None ->
  NodeCache.get now key c = (None, count_miss c).
Proof.
  intros Hget. unfold NodeCache.get. rewrite Hget. reflexivity.
Qed.

Lemma set_room now key value ttl c :
  full c = false ->
  NodeCache.set now key value ttl c =
    (Normal true,
     NodeCache.with_data c (prop_set key (NodeCache._wrap now value ttl) (NodeCache.data c))
       {| NodeCache.hits := NodeCache.hits (NodeCache.st c);
          NodeCache.misses := NodeCache.misses (NodeCache.st c);
          NodeCache.keys :=
            if prop_has key (NodeCache.data c)
            then NodeCache.keys (NodeCache.st c)
            else NodeCache.keys (NodeCache.st c) + 1 |}).
Proof.
  intros Hroom. unfold NodeCache.set. unfold full in Hroom. rewrite Hroom. reflexivity.
Qed.

Lemma set_full now key value ttl c :
  full c = true ->
  NodeCache.set now key value ttl c = (Throw ECACHEFULL, c).
Proof.
  intros Hfull. unfold NodeCache.set. unfold full in Hfull. rewrite Hfull. reflexivity.
Qed.

Lemma prop_get_set_same {A : Type} key (x : A) o :
  prop_get key (prop_set key x o) = Some x.
Proof.
  induction o as [|[k' y] r IH]; simpl.
  - rewrite String.eqb_refl. reflexivity.
  - destruct (String.eqb key k') eqn:E; simpl.
    + rewrite E. reflexivity.
    + rewrite E. exact IH.
Qed.


Lemma live_wrap now later value ttl :
  ttl = 0 \/ later <= now + ttl * 1000 ->
  live later (NodeCache._wrap now value ttl) = true.
Proof.
  intros H. unfold live, NodeCache._wrap. simpl.
  apply negb_true_iff. apply andb_false_iff.
  destruct H as [H|H].
  - subst ttl. left. reflexivity.
  - destruct (ttl =? 0); [left; reflexivity|right; apply Z.ltb_ge; exact H].
Qed.

Lemma X_Cache_marked w r marker out :
  X_Cache (with_res w (marked r marker out)) = Some marker.
Proof.
  unfold X_Cache, marked. simpl. apply prop_get_set_same.
Qed.

(** ** Tier precedence *)

(** C3, as the code has it: with the memory tier enabled, a key whose
    memory entry has not expired and holds a truthy value is answered from
    the memory tier with the marker HIT-MEMORY, whatever the remote tier
    holds under the key, and the remote tier is not asked. *)
Theorem C3_memory_hit_wins ttl req w e :
  method req = "GET" ->
  overrides (res w) = [] ->
  prop_get (generateKey req) (NodeCache.data (memoryCache w)) = Some e ->
  live (now w) e = true ->
  truthy (NodeCache.v e) = true ->
  exists w',
    cache ttl true req w = (Normal tt, w')
    /\ emitted (res w') = (emitted (res w) ++ [NodeCache.v e])%list
    /\ X_Cache w' = Some "HIT-MEMORY"
    /\ redisClient w' = redisClient w
    /\ nexts w' = nexts w.
Proof.
  intros Hm Hov Hget Hlive Hx.
  eexists. split.
  - apply (cache_memory_hit ttl req w (NodeCache.v e) (count_hit (memoryCache w)) Hm);
      [apply get_live; assumption | exact Hx | exact Hov].
  - split; [reflexivity|]. split; [apply X_Cache_marked|]. split; reflexivity.
Qed.

Lemma C3_witness :
  (method products = "GET"
   /\ prop_get products_key
        (NodeCache.data (memory_with 1000 [(products_key, entry 0 (JNum 7))]))
      = Some (entry 0 (JNum 7))
   /\ prop_get products_key [(products_key, (5000, "5"))] = Some (5000, "5"))
  /\ exists w',
       cache 300 true products
         (world_of (memory_with 1000 [(products_key, entry 0 (JNum 7))])
            (redis_of true [(products_key, (5000, "5"))]))
       = (Normal tt, w')
       /\ emitted (res w') = [JNum 7]
       /\ Redis.issued (redisClient w') = [].
Proof.
  split; [repeat split|].
  destruct (C3_memory_hit_wins 300 products
              (world_of (memory_with 1000 [(products_key, entry 0 (JNum 7))])
                 (redis_of true [(products_key, (5000, "5"))]))
              (entry 0 (JNum 7)) eq_refl eq_refl eq_refl eq_refl eq_refl)
    as (w' & Hc & Hem & _ & Hr & _).
  exists w'. split; [exact Hc|]. split; [exact Hem|].
  rewrite Hr. reflexivity.
Defined.

(** C3 as stated fails: a memory entry holding [0] loses to the remote
    entry, and with [useMemory] off the memory tier is not looked at. *)
Lemma C3_counterexample :
  (prop_get products_key
     (NodeCache.data (memory_with 1000 [(products_key, entry 0 (JNum 0))]))
   = Some (entry 0 (JNum 0))
   /\ prop_get products_key [(products_key, (5000, "5"))] = Some (5000, "5")
   /\ emitted (res (snd (cache 300 true products
        (world_of (memory_with 1000 [(products_key, entry 0 (JNum 0))])
           (redis_of true [(products_key, (5000, "5"))])))))
      = [JNum 5]
   /\ X_Cache (snd (cache 300 true products
        (world_of (memory_with 1000 [(products_key, entry 0 (JNum 0))])
           (redis_of true [(products_key, (5000, "5"))]))))
      = Some "HIT-REDIS")
  /\ (emitted (res (snd (cache 300 false products
        (world_of (memory_with 1000 [(products_key, entry 0 (JNum 7))])
           (redis_of true [(products_key, (5000, "5"))])))))
      = [JNum 5]
      /\ Redis.issued (redisClient (snd (cache 300 false products
           (world_of (memory_with 1000 [(products_key, entry 0 (JNum 7))])
              (redis_of true [(products_key, (5000, "5"))])))))
         = [Redis.GET products_key]).
Proof.
  vm_compute. repeat split.
Qed.

(** ** Backfill *)

(** C4, as the code has it: with the memory tier enabled and not full, a
    key missing from the memory tier and found (truthy) in the remote tier
    is answered with the marker HIT-REDIS and written into the memory tier
    under the route's [ttl]; a later lookup of the same key, before that
    entry expires, is answered from the memory tier with the marker
    HIT-MEMORY and the same value, without asking the remote tier. *)
Theorem C4_remote_hit_backfills ttl ttl' req w expiry s j later :
  method req = "GET" ->
  overrides (res w) = [] ->
  prop_get (generateKey req) (NodeCache.data (memoryCache w)) = None ->
  full (memoryCache w) = false ->
  Redis.reachable (redisClient w) = true ->
  prop_get (generateKey req) (Redis.db (redisClient w)) = Some (expiry, s) ->
  now w < expiry ->
  JSON.parse s = Normal j ->
  truthy j = true ->
  ttl = 0 \/ later <= now w + ttl * 1000 ->
  exists w1,
    cache ttl true req w = (Normal tt, w1)
    /\ X_Cache w1 = Some "HIT-REDIS"
    /\ emitted (res w1) = (emitted (res w) ++ [j])%list
    /\ prop_get (generateKey req) (NodeCache.data (memoryCache w1))
       = Some (NodeCache._wrap (now w) j ttl)
    /\ exists w2,
         cache ttl' true req (new_request (with_now w1 later)) = (Normal tt, w2)
         /\ X_Cache w2 = Some "HIT-MEMORY"
         /\ emitted (res w2) = [j]
         /\ redisClient w2 = redisClient w1.
Proof.
  intros Hm Hov Habsent Hroom Hup Hdb Hlive Hparse Hj Hlater.
  set (key := generateKey req) in *.
  set (w1 := with_memoryCache w (count_miss (memoryCache w))).
  assert (Hl1 : level1 true key w = (None, w1)).
  { unfold level1. rewrite (get_absent _ _ _ Habsent). reflexivity. }
  pose proof (RedisManager_get_hit key w1 expiry s j Hup Hdb Hlive Hparse) as Hget.
  set (w2 := with_redisClient w1 (Redis.record (Redis.GET key) (redisClient w1))) in Hget.
  assert (Hroom2 : full (memoryCache w2) = false) by exact Hroom.
  pose proof (set_room (now w2) key j ttl (memoryCache w2) Hroom2) as Hset.
  pose proof (cache_remote_hit_backfill ttl req w None w1 j w2 _ Hm Hl1 eq_refl Hget Hj
                Hset Hov) as Hc.
  eexists. split; [exact Hc|].
  split; [apply X_Cache_marked|].
  split; [reflexivity|].
  assert (Hstored : forall time,
    prop_get key (NodeCache.data (memoryCache (new_request (with_now
      (with_res (with_memoryCache w2
         (NodeCache.with_data (memoryCache w2)
            (prop_set key (NodeCache._wrap (now w2) j ttl) (NodeCache.data (memoryCache w2)))
            {| NodeCache.hits := NodeCache.hits (NodeCache.st (memoryCache w2));
               NodeCache.misses := NodeCache.misses (NodeCache.st (memoryCache w2));
               NodeCache.keys :=
                 if prop_has key (NodeCache.data (memoryCache w2))
                 then NodeCache.keys (NodeCache.st (memoryCache w2))
                 else NodeCache.keys (NodeCache.st (memoryCache w2)) + 1 |}))
         (marked (res w2) "HIT-REDIS" [j])) time))))
    = Some (NodeCache._wrap (now w) j ttl)).
  { intros time. simpl. apply prop_get_set_same. }
  split; [simpl; apply prop_get_set_same|].
  match goal with
  | |- exists w3, cache _ _ _ ?wl = _ /\ _ =>
      pose proof (cache_memory_hit ttl' req wl j _ Hm
                    (get_live (now wl) key (memoryCache wl) _ (Hstored later)
                       (live_wrap (now w) later j ttl Hlater))
                    Hj eq_refl) as Hc2
  end.
  eexists. split; [exact Hc2|].
  split; [apply X_Cache_marked|].
  split; reflexivity.
Qed.

Lemma C4_witness :
  (method products = "GET"
   /\ prop_get products_key (NodeCache.data (memory_with 1000 [])) = None
   /\ full (memory_with 1000 []) = false
   /\ prop_get products_key [(products_key, (5000, "[5]"))] = Some (5000, "[5]")
   /\ 1000 < 5000
   /\ JSON.parse "[5]" = Normal (JArr [JNum 5])
   /\ 2000 <= 1000 + 300 * 1000)
  /\ exists w1,
       cache 300 true products
         (world_of (memory_with 1000 []) (redis_of true [(products_key, (5000, "[5]"))]))
       = (Normal tt, w1)
       /\ X_Cache w1 = Some "HIT-REDIS"
       /\ exists w2,
            cache 300 true products (new_request (with_now w1 2000)) = (Normal tt, w2)
            /\ X_Cache w2 = Some "HIT-MEMORY"
            /\ emitted (res w2) = [JArr [JNum 5]].
Proof.
  split; [repeat split; lia|].
  destruct (C4_remote_hit_backfills 300 300 products
              (world_of (memory_with 1000 []) (redis_of true [(products_key, (5000, "[5]"))]))
              5000 "[5]" (JArr [JNum 5]) 2000
              eq_refl eq_refl eq_refl eq_refl eq_refl eq_refl eq_refl eq_refl eq_refl
              (or_intror (proj1 (Z.leb_le 2000 (1000 + 300 * 1000)) eq_refl)))
    as (w1 & Hc & Hx & _ & _ & w2 & Hc2 & Hx2 & Hem & _).
  exists w1. split; [exact Hc|]. split; [exact Hx|].
  exists w2. split; [exact Hc2|]. split; [exact Hx2|exact Hem].
Defined.

(** C4 as stated fails: with [useMemory] off a remote hit writes nothing
    back and the next lookup is a remote hit again; and with the memory
    tier full the write-back throws, nothing is written, no marker is set
    and the request goes on to the origin handler. *)
Lemma C4_counterexample :
  (X_Cache (snd (cache 300 false products
      (world_of (memory_with 1000 []) (redis_of true [(products_key, (5000, "[5]"))]))))
   = Some "HIT-REDIS"
   /\ NodeCache.data (memoryCache (snd (cache 300 false products
        (world_of (memory_with 1000 []) (redis_of true [(products_key, (5000, "[5]"))])))))
      = []
   /\ X_Cache (snd (cache 300 false products (new_request (snd (cache 300 false products
        (world_of (memory_with 1000 []) (redis_of true [(products_key, (5000, "[5]"))])))))))
      = Some "HIT-REDIS")
  /\ (cache 300 true products
        (world_of (memory_with 1 [(orders_key, entry 0 (JNum 1))])
           (redis_of true [(products_key, (5000, "[5]"))]))
      = (Normal tt,
         with_nexts
           (with_logged
              (world_of
                 (count_miss (memory_with 1 [(orders_key, entry 0 (JNum 1))]))
                 (Redis.record (Redis.GET products_key)
                    (redis_of true [(products_key, (5000, "[5]"))])))
              [ECACHEFULL])
           [None])).
Proof.
  vm_compute. repeat split.
Qed.

(** ** Falsy payloads *)

(** The falsy payloads are [null], [false], [0] and the empty string. *)
Lemma falsy_values x :
  truthy x = false <->
  x = JNull \/ x = JBool false \/ x = JNum 0 \/ x = JStr EmptyString.
Proof.
  split.
  - destruct x as [ |[]|n|s|l|o]; simpl; intros H; try discriminate H; auto.
    + apply negb_false_iff, Z.eqb_eq in H. subst n. auto.
    + apply negb_false_iff, String.eqb_eq in H. subst s. auto.
  - intros [H|[H|[H|H]]]; subst x; reflexivity.
Qed.

Lemma level1_frame useMemory key w r w1 :
  level1 useMemory key w = (r, w1) ->
  res w1 = res w /\ nexts w1 = nexts w /\ redisClient w1 = redisClient w /\ now w1 = now w.
Proof.
  unfold level1. destruct useMemory.
  - destruct (NodeCache.get (now w) key (memoryCache w)) as [r0 c0].
    intros H; inversion H; subst. repeat split.
  - intros H; inversion H; subst. repeat split.
Qed.

Lemma get_frame key w j w2 :
  RedisManager.get key w = (Normal j, w2) -> same_request w w2.
Proof.
  intros H. destruct (RedisManager_get_total key w) as (j' & w' & H' & Hsame).
  rewrite H in H'. inversion H'; subst. exact Hsame.
Qed.

Lemma X_Cache_miss_branch cap w : X_Cache (miss_branch cap w) = Some "MISS".
Proof. unfold X_Cache, miss_branch. simpl. apply prop_get_set_same. Qed.

(** C10: on a fresh response, when what the memory tier returns is falsy
    (or the tier is not asked) and what the remote tier returns is falsy,
    the request takes the miss branch: marker MISS, [res.json] overridden,
    [next()] called, nothing emitted by the middleware.  A hit marker is
    set only for a truthy tier result. *)
Theorem C10_falsy_results_are_misses ttl useMemory req w r w1 j w2 :
  method req = "GET" ->
  res w = fresh_response ->
  level1 useMemory (generateKey req) w = (r, w1) ->
  RedisManager.get (generateKey req) w1 = (Normal j, w2) ->
  exists w',
    cache ttl useMemory req w = (Normal tt, w')
    /\ (truthy_opt r = false -> truthy j = false ->
        X_Cache w' = Some "MISS"
        /\ nexts w' = (nexts w ++ [None])%list
        /\ emitted (res w') = []
        /\ overrides (res w') = [capture_of ttl useMemory req])
    /\ (X_Cache w' = Some "HIT-MEMORY" -> truthy_opt r = true)
    /\ (X_Cache w' = Some "HIT-REDIS" -> truthy_opt r = false /\ truthy j = true).
Proof.
  intros Hm Hres Hl1 Hget.
  destruct (level1_frame _ _ _ _ _ Hl1) as (Hres1 & Hnexts1 & _ & _).
  destruct (get_frame _ _ _ _ Hget) as (_ & Hres2 & Hnexts2 & _).
  assert (Hres2' : res w2 = fresh_response) by congruence.
  destruct (truthy_opt r) eqn:Hr.
  - (* the memory tier answered *)
    destruct useMemory; [|unfold level1 in Hl1; inversion Hl1; subst; discriminate].
    destruct r as [x|]; [|discriminate]. simpl in Hr.
    assert (Hnc : NodeCache.get (now w) (generateKey req) (memoryCache w)
                  = (Some x, memoryCache w1)).
    { unfold level1 in Hl1.
      destruct (NodeCache.get (now w) (generateKey req) (memoryCache w)) as [r0 c0].
      inversion Hl1; subst. reflexivity. }
    eexists. split.
    + apply (cache_memory_hit ttl req w x _ Hm Hnc Hr). rewrite Hres. reflexivity.
    + rewrite X_Cache_marked.
      split; [discriminate|]. split; [reflexivity|]. discriminate.
  - destruct (truthy j) eqn:Hj.
    + (* the remote tier answered *)
      destruct useMemory.
      * destruct (full (memoryCache w2)) eqn:Hfull.
        -- eexists. split.
           ++ apply (cache_remote_hit_full ttl req w r w1 j w2 (memoryCache w2) ECACHEFULL
                       Hm Hl1 Hr Hget Hj).
              apply set_full. exact Hfull.
           ++ unfold X_Cache. simpl. rewrite Hres2'. simpl.
              split; [discriminate|]. split; discriminate.
        -- eexists. split.
           ++ eapply (cache_remote_hit_backfill ttl req w r w1 j w2 _ Hm Hl1 Hr Hget Hj).
              ** apply set_room. exact Hfull.
              ** rewrite Hres2'. reflexivity.
           ++ rewrite X_Cache_marked.
              split; [discriminate|]. split; [discriminate|]. intros _. split; reflexivity.
      * unfold level1 in Hl1. inversion Hl1; subst r w1; clear Hl1.
        eexists. split.
        -- apply (cache_remote_hit_no_memory ttl req w j w2 Hm Hget Hj).
           rewrite Hres2'. reflexivity.
        -- rewrite X_Cache_marked.
           split; [discriminate|]. split; [discriminate|]. intros _. split; reflexivity.
    + (* both results are falsy *)
      eexists. split.
      * apply (cache_miss ttl useMemory req w r w1 j w2 Hm Hl1 Hr Hget Hj).
      * rewrite X_Cache_miss_branch.
        split.
        -- intros _ _. split; [reflexivity|].
           unfold miss_branch. simpl. rewrite Hres2'. simpl.
           split; [congruence|]. split; reflexivity.
        -- split; discriminate.
Qed.

Lemma C10_witness :
  (method products = "GET"
   /\ level1 true products_key
        (world_of (memory_with 1000 [(products_key, entry 0 (JNum 0))])
           (redis_of true [(products_key, (5000, "0"))]))
      = (Some (JNum 0),
         world_of (count_hit (memory_with 1000 [(products_key, entry 0 (JNum 0))]))
           (redis_of true [(products_key, (5000, "0"))]))
   /\ truthy (JNum 0) = false)
  /\ exists w',
       cache 300 true products
         (world_of (memory_with 1000 [(products_key, entry 0 (JNum 0))])
            (redis_of true [(products_key, (5000, "0"))]))
       = (Normal tt, w')
       /\ X_Cache w' = Some "MISS" /\ nexts w' = [None] /\ emitted (res w') = [].
Proof.
  split; [repeat split|].
  destruct (C10_falsy_results_are_misses 300 true products
              (world_of (memory_with 1000 [(products_key, entry 0 (JNum 0))])
                 (redis_of true [(products_key, (5000, "0"))]))
              (Some (JNum 0))
              (world_of (count_hit (memory_with 1000 [(products_key, entry 0 (JNum 0))]))
                 (redis_of true [(products_key, (5000, "0"))]))
              (JNum 0)
              (with_redisClient
                 (world_of (count_hit (memory_with 1000 [(products_key, entry 0 (JNum 0))]))
                    (redis_of true [(products_key, (5000, "0"))]))
                 (Redis.record (Redis.GET products_key)
                    (redis_of true [(products_key, (5000, "0"))])))
              eq_refl eq_refl eq_refl eq_refl)
    as (w' & Hc & Hmiss & _).
  destruct (Hmiss eq_refl eq_refl) as (Hx & Hn & He & _).
  exists w'. split; [exact Hc|]. split; [exact Hx|]. split; [exact Hn|exact He].
Defined.

(** ** Capacity of the memory tier *)

Lemma prop_set_new {A : Type} key (x : A) o :
  prop_get key o = None -> prop_set key x o = (o ++ [(key, x)])%list.
Proof.
  induction o as [|[k' y] r IH]; simpl; intros H.
  - reflexivity.
  - destruct (String.eqb key k'); [discriminate|]. rewrite (IH H). reflexivity.
Qed.

Lemma prop_get_app_none {A : Type} key (o o' : list (string * A)) :
  prop_get key o = None -> prop_get key (o ++ o')%list = prop_get key o'.
Proof.
  induction o as [|[k' y] r IH]; simpl; intros H.
  - reflexivity.
  - destruct (String.eqb key k'); [discriminate|]. exact (IH H).
Qed.

Lemma prop_get_notin {A : Type} key (o : list (string * A)) :
  ~ In key (map fst o) -> prop_get key o = None.
Proof.
  induction o as [|[k x] r IH]; simpl; intros H; [reflexivity|].
  destruct (String.eqb key k) eqn:E.
  - apply String.eqb_eq in E. exfalso. apply H. left. symmetry. exact E.
  - apply IH. intros Hin. apply H. right. exact Hin.
Qed.

Lemma prop_get_In {A : Type} key (x : A) (o : list (string * A)) :
  NoDup (map fst o) -> In (key, x) o -> prop_get key o = Some x.
Proof.
  induction o as [|[k y] r IH]; simpl; intros Hnd Hin; [contradiction|].
  inversion Hnd as [|k' ks Hnotin Hnd' Heq]; subst k' ks.
  destruct Hin as [E|Hin].
  - inversion E; subst k y. rewrite String.eqb_refl. reflexivity.
  - destruct (String.eqb key k) eqn:E.
    + apply String.eqb_eq in E. subst k. exfalso. apply Hnotin.
      change key with (fst (key, x)). apply in_map. exact Hin.
    + exact (IH Hnd' Hin).
Qed.

Lemma NoDup_app_disjoint {A : Type} (l1 l2 : list A) a :
  NoDup (l1 ++ l2) -> In a l1 -> ~ In a l2.
Proof.
  intros Hnd H1 H2. apply in_split in H2. destruct H2 as (x & y & E). subst l2.
  rewrite app_assoc in Hnd. apply NoDup_remove_2 in Hnd.
  apply Hnd. apply in_or_app. left. apply in_or_app. left. exact H1.
Qed.

Lemma live_earlier horizon time e :
  time <= horizon -> live horizon e = true -> live time e = true.
Proof.
  unfold live. intros Hle H.
  apply negb_true_iff in H. apply negb_true_iff.
  apply andb_false_iff in H. apply andb_false_iff.
  destruct H as [H|H]; [left; exact H|right].
  apply Z.ltb_ge in H. apply Z.ltb_ge. lia.
Qed.

(** The sweep leaves a tier whose entries are all live as it is. *)
Lemma checkData_live now c :
  (forall kv, In kv (NodeCache.data c) -> live now (snd kv) = true) ->
  NodeCache._checkData now c = c.
Proof.
  unfold NodeCache._checkData. generalize (NodeCache.data c) as l.
  induction l as [|[k e] r IH]; intros Hlive; simpl; [reflexivity|].
  assert (He : live now e = true) by (apply (Hlive (k, e)); left; reflexivity).
  unfold NodeCache._check at 2. unfold live in He. apply negb_true_iff in He.
  simpl fst. simpl snd. rewrite He. simpl snd.
  apply IH. intros kv Hin. apply Hlive. right. exact Hin.
Qed.

(** With room for [room] more keys, the first [room] of the [set] calls
    succeed and append their entries, the others throw; the sweep changes
    nothing while no entry has expired. *)
Lemma tier_run_outcomes horizon n calls :
  forall c room,
    NodeCache.maxKeys c = Z.of_nat n ->
    NodeCache.keys (NodeCache.st c) = Z.of_nat (List.length (NodeCache.data c)) ->
    (List.length (NodeCache.data c) + room = n)%nat ->
    NoDup (map fst (sets_of calls)) ->
    (forall kv, In kv (sets_of calls) -> prop_get (fst kv) (NodeCache.data c) = None) ->
    Forall (within horizon) calls ->
    (forall kv, In kv (NodeCache.data c) -> live horizon (snd kv) = true) ->
    exists c',
      tier_run calls c =
        ((repeat (Normal true) (Nat.min room (List.length (sets_of calls)))
          ++ repeat (Throw ECACHEFULL) (List.length (sets_of calls) - room))%list, c')
      /\ NodeCache.data c' = (NodeCache.data c ++ firstn room (sets_of calls))%list
      /\ NodeCache.keys (NodeCache.st c') = Z.of_nat (List.length (NodeCache.data c')).
Proof.
  induction calls as [|[time key value ttl|time] r IH];
    intros c room Hmax Hkeys Hroom Hnd Hnew Hwithin Hlive.
  - exists c. simpl. rewrite Nat.min_0_r, firstn_nil. simpl.
    split; [reflexivity|]. split; [symmetry; apply app_nil_r|exact Hkeys].
  - inversion Hwithin as [|x xs Hthis Hrest Heq]; subst x xs.
    destruct Hthis as [Hthis _].
    simpl in Hnd. inversion Hnd as [|k ks Hnotin Hnd' Heq]; subst k ks.
    destruct room as [|room'].
    + assert (Hfull : full c = true).
      { unfold full. rewrite Hmax, Hkeys.
        apply andb_true_iff. split; [apply Z.gtb_lt; lia|apply Z.geb_le; lia]. }
      destruct (IH c 0%nat Hmax Hkeys Hroom Hnd'
                  (fun kv Hin => Hnew kv (or_intror Hin)) Hrest Hlive)
        as (c' & Hrun & Hdata & Hkeys').
      exists c'. simpl. rewrite (set_full time key value ttl c Hfull), Hrun.
      simpl. rewrite Nat.sub_0_r. split; [reflexivity|]. split; assumption.
    + assert (Hroom1 : full c = false).
      { unfold full. rewrite Hmax, Hkeys.
        apply andb_false_iff. right. rewrite Z.geb_leb. apply Z.leb_gt. lia. }
      assert (Hkey : prop_get key (NodeCache.data c) = None)
        by (apply (Hnew (key, NodeCache._wrap time value ttl)); left; reflexivity).
      simpl. rewrite (set_room time key value ttl c Hroom1).
      unfold prop_has. rewrite Hkey. rewrite (prop_set_new _ _ _ Hkey).
      match goal with
      | |- context [tier_run r ?c1] =>
          destruct (IH c1 room') as (c' & Hrun & Hdata & Hkeys')
      end.
      * exact Hmax.
      * simpl. rewrite Hkeys, length_app. simpl. lia.
      * simpl. rewrite length_app. simpl. lia.
      * exact Hnd'.
      * intros kv Hin. simpl.
        rewrite (prop_get_app_none _ _ _ (Hnew kv (or_intror Hin))). simpl.
        destruct (String.eqb (fst kv) key) eqn:E; [|reflexivity].
        apply String.eqb_eq in E. exfalso. apply Hnotin.
        rewrite <- E. apply in_map. exact Hin.
      * exact Hrest.
      * intros kv Hin. simpl in Hin. apply in_app_or in Hin.
        destruct Hin as [Hin|[E|[]]]; [exact (Hlive kv Hin)|].
        subst kv. exact Hthis.
      * exists c'. rewrite Hrun. simpl in Hdata.
        rewrite <- app_assoc in Hdata. simpl in Hdata.
        split; [reflexivity|]. split; assumption.
  - inversion Hwithin as [|x xs Hthis Hrest Heq]; subst x xs. simpl in Hthis.
    simpl. rewrite (checkData_live time c).
    + exact (IH c room Hmax Hkeys Hroom Hnd Hnew Hrest Hlive).
    + intros kv Hin. exact (live_earlier horizon time _ Hthis (Hlive kv Hin)).
Qed.

(** The keys the middleware builds are never names a plain object
    inherits. *)
Lemma generateKey_not_inherited req : NodeCache.inherited (generateKey req) = false.
Proof. reflexivity. Qed.

(** C6, as the code has it: on an empty memory tier of capacity [N], of
    [N + 1] [set] calls with distinct keys, none of them a name a plain
    object inherits, each at its own time and with the sweep running in
    between while no entry has expired, the first [N] return [true] and the
    last throws ECACHEFULL; nothing is evicted and the last entry is not
    inserted: the tier ends with exactly the first [N] entries. *)
Theorem C6_full_tier_throws horizon stdTTL N calls :
  1 <= N ->
  List.length (sets_of calls) = S (Z.to_nat N) ->
  NoDup (map fst (sets_of calls)) ->
  Forall (within horizon) calls ->
  exists c',
    tier_run calls (NodeCache.create stdTTL N) =
      ((repeat (Normal true) (Z.to_nat N) ++ [Throw ECACHEFULL])%list, c')
    /\ (forall key e,
          In (key, e) (firstn (Z.to_nat N) (sets_of calls)) ->
          prop_get key (NodeCache.data c') = Some e)
    /\ (forall key e,
          In (key, e) (skipn (Z.to_nat N) (sets_of calls)) ->
          prop_get key (NodeCache.data c') = None)
    /\ Z.of_nat (List.length (NodeCache.data c')) = N
    /\ NodeCache.keys (NodeCache.st c') = N.
Proof.
  intros HN Hlen Hnd Hwithin.
  set (n := Z.to_nat N) in *.
  assert (Hmax : NodeCache.maxKeys (NodeCache.create stdTTL N) = Z.of_nat n)
    by (simpl; unfold n; lia).
  destruct (tier_run_outcomes horizon n calls (NodeCache.create stdTTL N) n
              Hmax eq_refl eq_refl Hnd (fun kv _ => eq_refl) Hwithin
              (fun kv (Hin : In kv []) => match Hin with end))
    as (c' & Hrun & Hdata & Hkeys).
  - simpl in Hdata.
    assert (Hl1 : List.length (firstn n (sets_of calls)) = n)
      by (rewrite length_firstn; lia).
    pose proof (firstn_skipn n (sets_of calls)) as Hsplit.
    rewrite <- Hsplit in Hnd. rewrite map_app in Hnd.
    exists c'. rewrite Hrun, Hlen, Hkeys, Hdata, Hl1.
    replace (Nat.min n (S n)) with n by lia.
    replace (S n - n)%nat with 1%nat by lia.
    split; [reflexivity|]. split; [|split; [|split; unfold n; lia]].
    + intros key e Hin. apply prop_get_In; [|exact Hin].
      exact (NoDup_app_remove_r _ _ Hnd).
    + intros key e Hin. apply prop_get_notin. intros Hfirst.
      apply (NoDup_app_disjoint _ _ key Hnd Hfirst).
      change key with (fst (key, e)). apply in_map. exact Hin.
Qed.

Lemma C6_witness :
  (1 <= 2
   /\ List.length
        (sets_of [SetCall 1000 products_key (JNum 1) 300; CheckData 2000;
                  SetCall 3000 orders_key (JNum 2) 0; CheckData 4000;
                  SetCall 5000 "api:GET:/api/users:{}:anonymous" (JNum 3) 300])
      = S (Z.to_nat 2)
   /\ NoDup (map fst
        (sets_of [SetCall 1000 products_key (JNum 1) 300; CheckData 2000;
                  SetCall 3000 orders_key (JNum 2) 0; CheckData 4000;
                  SetCall 5000 "api:GET:/api/users:{}:anonymous" (JNum 3) 300]))
   /\ Forall (within 5000)
        [SetCall 1000 products_key (JNum 1) 300; CheckData 2000;
         SetCall 3000 orders_key (JNum 2) 0; CheckData 4000;
         SetCall 5000 "api:GET:/api/users:{}:anonymous" (JNum 3) 300])
  /\ exists c',
       tier_run
         [SetCall 1000 products_key (JNum 1) 300; CheckData 2000;
          SetCall 3000 orders_key (JNum 2) 0; CheckData 4000;
          SetCall 5000 "api:GET:/api/users:{}:anonymous" (JNum 3) 300]
         (NodeCache.create 300 2)
       = ([Normal true; Normal true; Throw ECACHEFULL], c')
       /\ prop_get products_key (NodeCache.data c') = Some (entry 301000 (JNum 1))
       /\ prop_get orders_key (NodeCache.data c') = Some (entry 0 (JNum 2))
       /\ prop_get "api:GET:/api/users:{}:anonymous" (NodeCache.data c') = None.
Proof.
  assert (Hnd : NoDup (map fst
            (sets_of [SetCall 1000 products_key (JNum 1) 300; CheckData 2000;
                      SetCall 3000 orders_key (JNum 2) 0; CheckData 4000;
                      SetCall 5000 "api:GET:/api/users:{}:anonymous" (JNum 3) 300]))).
  { vm_compute. repeat constructor; simpl; intros H;
      repeat (destruct H as [H|H]; [discriminate H|]); exact H. }
  assert (Hwithin : Forall (within 5000)
            [SetCall 1000 products_key (JNum 1) 300; CheckData 2000;
             SetCall 3000 orders_key (JNum 2) 0; CheckData 4000;
             SetCall 5000 "api:GET:/api/users:{}:anonymous" (JNum 3) 300]).
  { repeat constructor; simpl; lia. }
  split; [split; [lia|split; [reflexivity|split; [exact Hnd|exact Hwithin]]]|].
  destruct (C6_full_tier_throws 5000 300 2
              [SetCall 1000 products_key (JNum 1) 300; CheckData 2000;
               SetCall 3000 orders_key (JNum 2) 0; CheckData 4000;
               SetCall 5000 "api:GET:/api/users:{}:anonymous" (JNum 3) 300]
              ltac:(lia) eq_refl Hnd Hwithin)
    as (c' & Hrun & Hfirst & Hlast & _).
  exists c'. split; [exact Hrun|]. split; [|split].
  - apply Hfirst. left. reflexivity.
  - apply Hfirst. right. left. reflexivity.
  - apply (Hlast _ (NodeCache._wrap 5000 (JNum 3) 300)). left. reflexivity.
Defined.

(** C6 as stated fails: with capacity [2], the third insert does not
    succeed, and the oldest entry is still there afterwards. *)
Lemma C6_counterexample :
  fst (set_all 1000 [("k1", JNum 1, 300); ("k2", JNum 2, 300); ("k3", JNum 3, 300)]
         (NodeCache.create 300 2))
  = [Normal true; Normal true; Throw ECACHEFULL]
  /\ NodeCache.keys_of
       (snd (set_all 1000 [("k1", JNum 1, 300); ("k2", JNum 2, 300); ("k3", JNum 3, 300)]
               (NodeCache.create 300 2)))
     = ["k1"; "k2"].
Proof.
  vm_compute. split; reflexivity.
Qed.

(** ** Invalidation *)

Lemma prefix_spec p s :
  String.prefix p s = true <-> exists b, s = p ++ b.
Proof.
  revert s. induction p as [|a p IH]; intros s; simpl.
  - destruct s; (split; [intros _; eexists; reflexivity|reflexivity]).
  - destruct s as [|c s]; simpl.
    + split; [discriminate|]. intros (b & H). discriminate H.
    + destruct (ascii_dec a c) as [E|E].
      * subst c. rewrite IH. split; intros (b & H); exists b.
        -- rewrite H. reflexivity.
        -- inversion H. reflexivity.
      * split; [discriminate|]. intros (b & H). inversion H. subst c.
        exfalso. apply E. reflexivity.
Qed.

(** [includes] is the substring test: some text before, the pattern, some
    text after. *)
Lemma includes_spec s p :
  includes s p = true <-> exists a b, s = a ++ p ++ b.
Proof.
  induction s as [|c s IH].
  - change (includes EmptyString p) with (String.prefix p EmptyString || false).
    rewrite orb_false_r, prefix_spec. split.
    + intros (b & H). exists EmptyString, b. exact H.
    + intros (a & b & H). destruct a; [exists b; exact H|discriminate H].
  - change (includes (String c s) p)
      with (String.prefix p (String c s) || includes s p).
    rewrite orb_true_iff, prefix_spec, IH. split.
    + intros [(b & H)|(a & b & H)].
      * exists EmptyString, b. exact H.
      * exists (String c a), b. rewrite H. reflexivity.
    + intros (a & b & H). destruct a as [|c' a].
      * left. exists b. exact H.
      * right. exists a, b. inversion H. reflexivity.
Qed.

Lemma prop_get_app_some {A : Type} key (x : A) (o o' : list (string * A)) :
  exists y, prop_get key (o ++ (key, x) :: o')%list = Some y.
Proof.
  induction o as [|[k' y] r IH]; simpl.
  - rewrite String.eqb_refl. eauto.
  - destruct (String.eqb key k'); [eauto|exact IH].
Qed.

Lemma prop_delete_app {A : Type} key (x : A) (o o' : list (string * A)) :
  (forall kv, In kv o -> fst kv <> key) ->
  prop_delete key (o ++ (key, x) :: o')%list = (o ++ o')%list.
Proof.
  induction o as [|[k' y] r IH]; simpl; intros Hne.
  - rewrite String.eqb_refl. reflexivity.
  - destruct (String.eqb key k') eqn:E.
    + apply String.eqb_eq in E. exfalso.
      apply (Hne (k', y)); [left; reflexivity|]. simpl. congruence.
    + rewrite IH; [reflexivity|]. intros kv Hin. apply Hne. right. exact Hin.
Qed.

(** The loop of [invalidatePattern] over the keys of [d], the entries
    [pre] before them being kept ones already passed. *)
Lemma forEach_purge pattern :
  forall d pre w,
    NodeCache.data (memoryCache w) = (pre ++ d)%list ->
    (forall kv, In kv pre -> includes (fst kv) pattern = false) ->
    exists w',
      forEach (map fst d) (purge pattern) w = (Normal tt, w')
      /\ NodeCache.data (memoryCache w') = (pre ++ filter (kept pattern) d)%list
      /\ redisClient w' = redisClient w
      /\ res w' = res w /\ nexts w' = nexts w /\ logged w' = logged w.
Proof.
  induction d as [|[k x] d' IH]; intros pre w Hdata Hpre.
  - exists w. simpl. repeat split. exact Hdata.
  - simpl. unfold bind. unfold purge at 1. unfold kept at 1. simpl.
    destruct (includes k pattern) eqn:Hk; simpl.
    + unfold bind, memoryCache_del, NodeCache.del. rewrite Hdata.
      destruct (prop_get_app_some k x pre d') as (y & Hy). rewrite Hy.
      rewrite prop_delete_app.
      * simpl.
        match goal with
        | |- context [forEach _ _ ?w1] =>
            destruct (IH pre w1) as (w' & Hrun & Hd & Hr & Hres & Hn & Hl)
        end; [reflexivity|exact Hpre|].
        exists w'. rewrite Hrun. repeat split; assumption.
      * intros kv Hin Heq. subst k.
        rewrite (Hpre kv Hin) in Hk. discriminate.
    + destruct (IH (pre ++ [(k, x)])%list w) as (w' & Hrun & Hd & Hr & Hres & Hn & Hl).
      * rewrite Hdata, <- app_assoc. reflexivity.
      * intros kv Hin. apply in_app_or in Hin. destruct Hin as [Hin|[Hin|[]]].
        -- apply Hpre. exact Hin.
        -- subst kv. exact Hk.
      * exists w'. unfold ret. rewrite Hrun. rewrite <- app_assoc in Hd.
        repeat split; assumption.
Qed.

Lemma prop_get_filter pattern key (d : list (string * NodeCache.wrapper)) :
  prop_get key (filter (kept pattern) d) =
    if includes key pattern then None else prop_get key d.
Proof.
  induction d as [|[k x] r IH]; simpl.
  - destruct (includes key pattern); reflexivity.
  - unfold kept at 1. simpl.
    destruct (includes k pattern) eqn:Hk; simpl.
    + rewrite IH. destruct (String.eqb key k) eqn:E; [|reflexivity].
      apply String.eqb_eq in E. subst k. rewrite Hk. reflexivity.
    + destruct (String.eqb key k) eqn:E; [|exact IH].
      apply String.eqb_eq in E. subst k. rewrite Hk. reflexivity.
Qed.

(** C7: [invalidatePattern(p)] returns normally; afterwards the memory
    tier holds exactly the entries whose key does not contain [p], each as
    it was and in the same order, so no key containing [p] is left; the
    remote tier, with the commands sent to it, is untouched. *)
Theorem C7_invalidation_is_local_and_exact pattern w :
  exists w',
    invalidatePattern pattern w = (Normal tt, w')
    /\ NodeCache.data (memoryCache w')
       = filter (kept pattern) (NodeCache.data (memoryCache w))
    /\ (forall key, In key (NodeCache.keys_of (memoryCache w')) ->
                    includes key pattern = false)
    /\ (forall key, includes key pattern = true ->
                    prop_get key (NodeCache.data (memoryCache w')) = None)
    /\ (forall key, includes key pattern = false ->
                    prop_get key (NodeCache.data (memoryCache w'))
                    = prop_get key (NodeCache.data (memoryCache w)))
    /\ redisClient w' = redisClient w.
Proof.
  destruct (forEach_purge pattern (NodeCache.data (memoryCache w)) [] w eq_refl)
    as (w' & Hrun & Hd & Hr & _).
  { intros kv []. }
  exists w'. simpl in Hd.
  split.
  - change (invalidatePattern pattern)
      with (try_catch (keys <- memoryCache_keys ;; forEach keys (purge pattern))
              (fun error => logger_error error)).
    unfold try_catch. unfold bind at 1. unfold memoryCache_keys.
    unfold NodeCache.keys_of, Object_keys.
    rewrite Hrun. reflexivity.
  - split; [exact Hd|]. split; [|split; [|split; [|exact Hr]]].
    + intros key Hin. unfold NodeCache.keys_of, Object_keys in Hin. rewrite Hd in Hin.
      apply in_map_iff in Hin. destruct Hin as ([k x] & Hk & Hin). simpl in Hk. subst k.
      apply filter_In in Hin. destruct Hin as [_ Hkept].
      unfold kept in Hkept. simpl in Hkept. apply negb_true_iff in Hkept. exact Hkept.
    + intros key Hk. rewrite Hd, prop_get_filter, Hk. reflexivity.
    + intros key Hk. rewrite Hd, prop_get_filter, Hk. reflexivity.
Qed.

(** ** Errors of the cache on the request path *)

(** C2 fails on the store path: when a GET request misses both tiers while
    the memory tier is full, the closure the middleware put in place of
    [res.json] throws ECACHEFULL into the origin handler; the payload is
    never emitted, the remote tier is not written, and the handler passes
    the error to [next(error)], which Express answers with an error
    response. *)
Theorem C2_store_error_reaches_the_client ttl data req w r w1 j w2 :
  method req = "GET" ->
  level1 true (generateKey req) (new_request w) = (r, w1) ->
  truthy_opt r = false ->
  RedisManager.get (generateKey req) w1 = (Normal j, w2) ->
  truthy j = false ->
  full (memoryCache w2) = true ->
  exists w',
    route ttl true data req w = (Normal tt, w')
    /\ nexts w' = [None; Some ECACHEFULL]
    /\ emitted (res w') = []
    /\ redisClient w' = redisClient w2
    /\ memoryCache w' = memoryCache w2.
Proof.
  intros Hm Hl1 Hr Hget Hj Hfull.
  destruct (level1_frame _ _ _ _ _ Hl1) as (Hres1 & Hnexts1 & _ & _).
  destruct (get_frame _ _ _ _ Hget) as (_ & Hres2 & Hnexts2 & _).
  assert (Hres : res w2 = fresh_response) by (rewrite Hres2, Hres1; reflexivity).
  assert (Hnexts : nexts w2 = []) by (rewrite Hnexts2, Hnexts1; reflexivity).
  unfold route.
  rewrite (cache_miss ttl true req (new_request w) r w1 j w2 Hm Hl1 Hr Hget Hj).
  cbv beta iota.
  set (wm := miss_branch (capture_of ttl true req) w2).
  assert (Hn : nexts wm = [None]) by (unfold wm, miss_branch; simpl; rewrite Hnexts; reflexivity).
  rewrite Hn.
  assert (Hov : overrides (res wm) = capture_of ttl true req :: overrides (res w2))
    by reflexivity.
  rewrite (handler_full data _ _ wm (memoryCache w2) ECACHEFULL Hov eq_refl
             (set_full _ _ _ _ _ Hfull)).
  eexists. split; [reflexivity|]. simpl. rewrite Hnexts, Hres.
  split; [reflexivity|]. split; [reflexivity|]. split; reflexivity.
Qed.

Lemma C2_witness :
  (method products = "GET"
   /\ truthy_opt None = false
   /\ truthy JNull = false
   /\ full (count_miss (memory_with 1 [(orders_key, entry 0 (JNum 1))])) = true)
  /\ exists w',
       route 300 true (JObj [("products", JArr [])]) products
         (world_of (memory_with 1 [(orders_key, entry 0 (JNum 1))]) (redis_of true []))
       = (Normal tt, w')
       /\ nexts w' = [None; Some ECACHEFULL]
       /\ emitted (res w') = [].
Proof.
  split; [repeat split|].
  destruct (C2_store_error_reaches_the_client 300 (JObj [("products", JArr [])]) products
              (world_of (memory_with 1 [(orders_key, entry 0 (JNum 1))]) (redis_of true []))
              None
              (world_of (count_miss (memory_with 1 [(orders_key, entry 0 (JNum 1))]))
                 (redis_of true []))
              JNull
              (with_redisClient
                 (world_of (count_miss (memory_with 1 [(orders_key, entry 0 (JNum 1))]))
                    (redis_of true []))
                 (Redis.record (Redis.GET products_key) (redis_of true [])))
              eq_refl eq_refl eq_refl eq_refl eq_refl eq_refl)
    as (w' & Hc & Hn & He & _).
  exists w'. split; [exact Hc|]. split; [exact Hn|exact He].
Defined.

(** ** The cache key *)

(** C5, as the code has it: the key is [api:], the method, [originalUrl]
    (the path with the query string as it was sent), [JSON.stringify] of
    the query object (its parameters in the order they came in) and the
    caller's [id], or [anonymous] when the request has no user, joined by
    colons; requests that agree on the method, on [originalUrl], on the
    query object and on the caller's [id] get the same key. *)
Theorem C5_key_of_equal_requests req1 req2 :
  method req1 = method req2 ->
  originalUrl req1 = originalUrl req2 ->
  query req1 = query req2 ->
  userId req1 = userId req2 ->
  generateKey req1 = generateKey req2
  /\ generateKey req1 =
       "api:" ++ method req1 ++ ":" ++ originalUrl req1 ++ ":"
         ++ JSON.stringify (query req1) ++ ":"
         ++ match userId req1 with Some x => String_of x | None => "undefined" end
  /\ (user req1 = None ->
      generateKey req1 =
        "api:" ++ method req1 ++ ":" ++ originalUrl req1 ++ ":"
          ++ JSON.stringify (query req1) ++ ":" ++ "anonymous").
Proof.
  intros Hm Hu Hq Hid.
  assert (Hkey : forall req,
    generateKey req =
      "api:" ++ method req ++ ":" ++ originalUrl req ++ ":"
        ++ JSON.stringify (query req) ++ ":"
        ++ match userId req with Some x => String_of x | None => "undefined" end)
    by reflexivity.
  split; [|split].
  - rewrite (Hkey req1), (Hkey req2), Hm, Hu, Hq, Hid. reflexivity.
  - apply Hkey.
  - intros Hnone. rewrite (Hkey req1). unfold userId. rewrite Hnone. reflexivity.
Qed.

Lemma C5_witness :
  (method (GET_of "/api/users") = method (GET_of "/api/users")
   /\ userId (GET_of "/api/users") = Some (JStr "anonymous"))
  /\ generateKey (GET_of "/api/users") = "api:GET:/api/users:{}:anonymous".
Proof.
  split; [split; reflexivity|].
  destruct (C5_key_of_equal_requests (GET_of "/api/users") (GET_of "/api/users")
              eq_refl eq_refl eq_refl eq_refl) as (_ & _ & Hanon).
  rewrite (Hanon eq_refl). reflexivity.
Defined.

(** C5 as stated fails: the same method, path, parameters and caller, with
    the parameters in a different order, give different keys; the query
    object alone already does, its serialization following the order of
    arrival. *)
Lemma C5_counterexample :
  method products_page_limit = method products_limit_page
  /\ Permutation (props_of (query products_page_limit)) (props_of (query products_limit_page))
  /\ userId products_page_limit = userId products_limit_page
  /\ generateKey products_page_limit <> generateKey products_limit_page
  /\ JSON.stringify (query products_page_limit) <> JSON.stringify (query products_limit_page).
Proof.
  split; [reflexivity|]. split; [apply perm_swap|]. split; [reflexivity|].
  split; intros H; vm_compute in H; discriminate H.
Qed.

(** ** [JSON.parse] reads back what [JSON.stringify] writes *)

Lemma append_assoc (a b c : string) : (a ++ b) ++ c = a ++ (b ++ c).
Proof. induction a as [|x a IH]; simpl; [reflexivity|rewrite IH; reflexivity]. Qed.

Lemma append_empty_r (a : string) : a ++ EmptyString = a.
Proof. induction a as [|x a IH]; simpl; [reflexivity|rewrite IH; reflexivity]. Qed.

Lemma length_append (a b : string) :
  String.length (a ++ b) = (String.length a + String.length b)%nat.
Proof. induction a as [|x a IH]; simpl; [reflexivity|rewrite IH; reflexivity]. Qed.

Lemma json_induction (P : json -> Prop) :
  P JNull ->
  (forall b, P (JBool b)) ->
  (forall n, P (JNum n)) ->
  (forall s, P (JStr s)) ->
  (forall l, Forall P l -> P (JArr l)) ->
  (forall o, Forall (fun kv => P (snd kv)) o -> P (JObj o)) ->
  forall x, P x.
Proof.
  intros Hnull Hbool Hnum Hstr Harr Hobj.
  fix IH 1. intros [ |b|n|s|l|o].
  - exact Hnull.
  - apply Hbool.
  - apply Hnum.
  - apply Hstr.
  - apply Harr. induction l as [|x r IHl]; constructor; [apply IH|exact IHl].
  - apply Hobj. induction o as [|[k x] r IHo]; constructor; [apply IH|exact IHo].
Qed.

(** One quoted character reads back as itself. *)
Lemma parse_chars_quote_char c tail :
  JSON.parse_chars (JSON.quote_char c ++ tail) =
    match JSON.parse_chars tail with
    | Some (t, rest) => Some (String c t, rest)
    | None => None
    end.
Proof.
  destruct c as [[] [] [] [] [] [] [] []]; reflexivity.
Qed.

Lemma parse_chars_quote_chars s rest :
  JSON.parse_chars (JSON.quote_chars s ++ String JSON.dquote rest) = Some (s, rest).
Proof.
  induction s as [|c s IH].
  - reflexivity.
  - simpl JSON.quote_chars. rewrite append_assoc, parse_chars_quote_char, IH. reflexivity.
Qed.

Lemma delim_no_digit rest :
  delim rest = true -> JSON.parse_digits rest = (Nil, rest).
Proof.
  destruct rest as [|c r]; [reflexivity|].
  unfold delim. intros H. simpl.
  destruct (JSON.digit_of_char c) eqn:E; [|reflexivity].
  destruct c as [[] [] [] [] [] [] [] []]; simpl in *; discriminate.
Qed.

Lemma delim_no_fraction rest :
  delim rest = true -> JSON.starts_fraction_or_exponent rest = false.
Proof.
  destruct rest as [|c r]; [reflexivity|].
  unfold delim. intros H.
  destruct c as [[] [] [] [] [] [] [] []]; simpl in *; try reflexivity; discriminate.
Qed.

Lemma parse_digits_uint d rest :
  delim rest = true ->
  JSON.parse_digits (NilEmpty.string_of_uint d ++ rest) = (d, rest).
Proof.
  intros Hrest. induction d; simpl; try rewrite IHd; try reflexivity.
  apply delim_no_digit. exact Hrest.
Qed.

(** [Pos.to_uint] prints no superfluous zero. *)
Lemma to_uint_no_leading_zero p d : Pos.to_uint p <> D0 d.
Proof.
  intros H.
  assert (Hnorm : unorm (Pos.to_uint p) = Pos.to_uint p).
  { rewrite <- DecimalPos.Unsigned.to_of, DecimalPos.Unsigned.of_to. reflexivity. }
  assert (Hcases : nzhead (Pos.to_uint p) = Nil \/ nzhead (Pos.to_uint p) <> Nil)
    by (destruct (nzhead (Pos.to_uint p)); [left; reflexivity|right; discriminate ..]).
  destruct Hcases as [E|E].
  - apply (DecimalPos.Unsigned.to_uint_nonzero p).
    rewrite <- Hnorm. apply DecimalFacts.unorm_0. exact E.
  - rewrite (DecimalFacts.unorm_nzhead _ E) in Hnorm.
    apply (DecimalFacts.nzhead_nonzero (Pos.to_uint p) d). rewrite Hnorm. exact H.
Qed.

Lemma parse_number_uint (negative : bool) d rest :
  d <> Nil ->
  (forall d', d = D0 d' -> d' = Nil) ->
  delim rest = true ->
  JSON.parse_number
    ((if negative then "-" else EmptyString) ++ NilEmpty.string_of_uint d ++ rest)
  = Some (JNum (Z.of_int (if negative then Neg d else Pos d)), rest).
Proof.
  intros Hnil Hzero Hrest.
  assert (Hdigits : JSON.parse_number
            ((if negative then "-" else EmptyString) ++ NilEmpty.string_of_uint d ++ rest)
          = let (ds, rest') := JSON.parse_digits (NilEmpty.string_of_uint d ++ rest) in
            match ds with
            | Nil => None
            | D0 (D0 _ | D1 _ | D2 _ | D3 _ | D4 _ | D5 _ | D6 _ | D7 _ | D8 _ | D9 _) => None
            | _ =>
                if JSON.starts_fraction_or_exponent rest' then None
                else Some (JNum (Z.of_int (if negative then Neg ds else Pos ds)), rest')
            end).
  { destruct negative; [reflexivity|].
    destruct d; try reflexivity. contradiction. }
  rewrite Hdigits, (parse_digits_uint d rest Hrest).
  rewrite (delim_no_fraction rest Hrest).
  destruct d as [|d'|d'|d'|d'|d'|d'|d'|d'|d'|d']; try reflexivity; [contradiction|].
  rewrite (Hzero d' eq_refl). reflexivity.
Qed.

Lemma parse_number_to_string n rest :
  delim rest = true ->
  JSON.parse_number (JSON.number_to_string n ++ rest) = Some (JNum n, rest).
Proof.
  intros Hrest. unfold JSON.number_to_string.
  rewrite <- (DecimalZ.of_to n) at 2.
  destruct n as [|p|p]; unfold Z.to_int, NilEmpty.string_of_int.
  - apply (parse_number_uint false (D0 Nil) rest); [discriminate| |exact Hrest].
    intros d' H. inversion H. reflexivity.
  - apply (parse_number_uint false (Pos.to_uint p) rest);
      [apply DecimalPos.Unsigned.to_uint_nonnil| |exact Hrest].
    intros d' H. exfalso. exact (to_uint_no_leading_zero p d' H).
  - change (String "-" (NilEmpty.string_of_uint (Pos.to_uint p)) ++ rest)
      with ("-" ++ NilEmpty.string_of_uint (Pos.to_uint p) ++ rest).
    apply (parse_number_uint true (Pos.to_uint p) rest);
      [apply DecimalPos.Unsigned.to_uint_nonnil| |exact Hrest].
    intros d' H. exfalso. exact (to_uint_no_leading_zero p d' H).
Qed.

Lemma value_start_facts c :
  value_start c = true ->
  JSON.is_ws c = false /\ Ascii.eqb c "]" = false /\ Ascii.eqb c "}" = false.
Proof.
  destruct c as [[] [] [] [] [] [] [] []]; simpl; intros H;
    first [discriminate H | repeat split].
Qed.

Lemma uint_head d :
  d <> Nil ->
  exists c r, NilEmpty.string_of_uint d = String c r
              /\ JSON.digit_of_char c <> None.
Proof.
  destruct d; intros H; try contradiction; simpl; eexists; eexists;
    (split; [reflexivity|discriminate]).
Qed.

(** A number begins with a digit or a minus sign. *)
Lemma number_head n :
  exists c r, JSON.number_to_string n = String c r
              /\ (Ascii.eqb c "-" = true \/ JSON.digit_of_char c <> None).
Proof.
  unfold JSON.number_to_string. destruct n as [|p|p]; simpl.
  - eexists; eexists; split; [reflexivity|right; discriminate].
  - destruct (uint_head (Pos.to_uint p) (DecimalPos.Unsigned.to_uint_nonnil p))
      as (c & r & E & Hd).
    exists c, r. split; [exact E|right; exact Hd].
  - eexists; eexists; split; [reflexivity|left; reflexivity].
Qed.

Lemma parse_value_number c tail f :
  Ascii.eqb c "-" = true \/ JSON.digit_of_char c <> None ->
  JSON.parse_value (S f) (String c tail) = JSON.parse_number (String c tail).
Proof.
  destruct c as [[] [] [] [] [] [] [] []]; simpl; intros [H|H];
    first [discriminate H | exfalso; apply H; reflexivity | reflexivity].
Qed.

Lemma stringify_head x :
  exists c r, JSON.stringify x = String c r /\ value_start c = true.
Proof.
  destruct x as [ |[]|n|s|l|o]; simpl; try (eexists; eexists; split; reflexivity).
  destruct (number_head n) as (c & r & E & H).
  exists c, r. split; [exact E|].
  unfold value_start. destruct H as [H|H].
  - rewrite H. repeat rewrite orb_true_r. reflexivity.
  - destruct (JSON.digit_of_char c); [apply orb_true_r|contradiction].
Qed.

Lemma join_head (f : json -> string) l :
  (forall x, exists c r, f x = String c r /\ value_start c = true) ->
  l <> [] ->
  exists c r, JSON.join "," (map f l) = String c r /\ value_start c = true.
Proof.
  intros Hf Hl. destruct l as [|x [|y l']]; [contradiction| |].
  - simpl. apply Hf.
  - destruct (Hf x) as (c & r & E & H).
    change (JSON.join "," (map f (x :: y :: l')))
      with (f x ++ "," ++ JSON.join "," (map f (y :: l'))).
    rewrite E. simpl. eauto.
Qed.

Lemma no_close_bracket c t :
  value_start c = true -> JSON.strip_prefix "]" (JSON.skip_ws (String c t)) = None.
Proof.
  destruct c as [[] [] [] [] [] [] [] []]; simpl; intros H;
    first [discriminate H | reflexivity].
Qed.

Lemma skip_ws_value c r :
  value_start c = true -> JSON.skip_ws (String c r) = String c r.
Proof.
  intros H. destruct (value_start_facts c H) as (Hws & _). simpl. rewrite Hws. reflexivity.
Qed.

(** One step of each of the three parsers. *)
Lemma parse_value_array f body :
  JSON.parse_value (S f) (String "[" body) =
    match JSON.strip_prefix "]" (JSON.skip_ws body) with
    | Some r' => Some (JArr [], r')
    | None =>
        match JSON.parse_elements f body with
        | Some (l, r') => Some (JArr l, r')
        | None => None
        end
    end.
Proof. reflexivity. Qed.

Lemma parse_value_object f body :
  JSON.parse_value (S f) (String "{" body) =
    match JSON.strip_prefix "}" (JSON.skip_ws body) with
    | Some r' => Some (JObj [], r')
    | None =>
        match JSON.parse_members f body with
        | Some (l, r') => Some (JObj (JSON.define_all l), r')
        | None => None
        end
    end.
Proof. reflexivity. Qed.

Lemma parse_elements_step f s :
  JSON.parse_elements (S f) s =
    match JSON.parse_value f s with
    | Some (x, r) =>
        match JSON.skip_ws r with
        | String c r' =>
            if Ascii.eqb c "," then
              match JSON.parse_elements f r' with
              | Some (l, r'') => Some (x :: l, r'')
              | None => None
              end
            else if Ascii.eqb c "]" then Some ([x], r')
            else None
        | EmptyString => None
        end
    | None => None
    end.
Proof. reflexivity. Qed.

Lemma parse_members_step f k body :
  JSON.parse_members (S f) (JSON.quote k ++ ":" ++ body) =
    match JSON.parse_value f body with
    | Some (x, r3) =>
        match JSON.skip_ws r3 with
        | String c r4 =>
            if Ascii.eqb c "," then
              match JSON.parse_members f r4 with
              | Some (l, r5) => Some ((k, x) :: l, r5)
              | None => None
              end
            else if Ascii.eqb c "}" then Some ([(k, x)], r4)
            else None
        | EmptyString => None
        end
    | None => None
    end.
Proof.
  unfold JSON.quote.
  change (JSON.parse_members (S f)
            (String JSON.dquote (JSON.quote_chars k ++ String JSON.dquote EmptyString)
               ++ ":" ++ body))
    with (match JSON.parse_chars
                  ((JSON.quote_chars k ++ String JSON.dquote EmptyString) ++ ":" ++ body) with
          | Some (k, r1) =>
              match JSON.strip_prefix ":" (JSON.skip_ws r1) with
              | Some r2 =>
                  match JSON.parse_value f r2 with
                  | Some (x, r3) =>
                      match JSON.skip_ws r3 with
                      | String c r4 =>
                          if Ascii.eqb c "," then
                            match JSON.parse_members f r4 with
                            | Some (l, r5) => Some ((k, x) :: l, r5)
                            | None => None
                            end
                          else if Ascii.eqb c "}" then Some ([(k, x)], r4)
                          else None
                      | EmptyString => None
                      end
                  | None => None
                  end
              | None => None
              end
          | None => None
          end).
  rewrite append_assoc. simpl (String JSON.dquote EmptyString ++ _).
  rewrite parse_chars_quote_chars. reflexivity.
Qed.

Lemma parse_elements_stringify l :
  Forall reads_back l ->
  l <> [] ->
  forall fuel rest,
    (list_sum (map (fun x => S (size x)) l) <= fuel)%nat ->
    JSON.parse_elements fuel (JSON.join "," (map JSON.stringify l) ++ String "]" rest)
    = Some (l, rest).
Proof.
  induction 1 as [|x r Hx Hr IH]; intros Hne fuel rest Hfuel; [contradiction|].
  simpl in Hfuel. destruct fuel as [|f]; [lia|].
  rewrite parse_elements_step.
  destruct r as [|y r'].
  - simpl JSON.join. rewrite (Hx f (String "]" rest)); [reflexivity|simpl; lia|reflexivity].
  - change (JSON.join "," (map JSON.stringify (x :: y :: r')))
      with (JSON.stringify x ++ "," ++ JSON.join "," (map JSON.stringify (y :: r'))).
    set (J := JSON.join "," (map JSON.stringify (y :: r'))) in *.
    rewrite append_assoc.
    change (("," ++ J) ++ String "]" rest) with (String "," (J ++ String "]" rest)).
    rewrite (Hx f _); [|simpl in *; lia|reflexivity].
    simpl.
    rewrite (IH ltac:(discriminate) f rest); [reflexivity|simpl in *; lia].
Qed.

Lemma parse_members_stringify o :
  Forall (fun kv => reads_back (snd kv)) o ->
  o <> [] ->
  forall fuel rest,
    (list_sum (map (fun kv => S (size (snd kv))) o) <= fuel)%nat ->
    JSON.parse_members fuel
      (JSON.join "," (map (fun kv => JSON.quote (fst kv) ++ ":" ++ JSON.stringify (snd kv)) o)
         ++ String "}" rest)
    = Some (o, rest).
Proof.
  induction 1 as [|[k x] r Hx Hr IH]; intros Hne fuel rest Hfuel; [contradiction|].
  simpl in Hfuel, Hx. destruct fuel as [|f]; [lia|].
  destruct r as [|y r'].
  - change (JSON.join ","
              (map (fun kv => JSON.quote (fst kv) ++ ":" ++ JSON.stringify (snd kv))
                 [(k, x)]))
      with (JSON.quote k ++ ":" ++ JSON.stringify x).
    rewrite !append_assoc.
    rewrite parse_members_step.
    rewrite (Hx f (String "}" rest)); [reflexivity|lia|reflexivity].
  - change (JSON.join ","
              (map (fun kv => JSON.quote (fst kv) ++ ":" ++ JSON.stringify (snd kv))
                 ((k, x) :: y :: r')))
      with ((JSON.quote k ++ ":" ++ JSON.stringify x) ++ "," ++
            JSON.join ","
              (map (fun kv => JSON.quote (fst kv) ++ ":" ++ JSON.stringify (snd kv))
                 (y :: r'))).
    set (J := JSON.join ","
                (map (fun kv => JSON.quote (fst kv) ++ ":" ++ JSON.stringify (snd kv))
                   (y :: r'))) in *.
    rewrite !append_assoc.
    rewrite parse_members_step.
    change (JSON.stringify x ++ "," ++ J ++ String "}" rest)
      with (JSON.stringify x ++ String "," (J ++ String "}" rest)).
    rewrite (Hx f _); [|simpl in *; lia|reflexivity].
    simpl.
    rewrite (IH ltac:(discriminate) f rest); [reflexivity|simpl in *; lia].
Qed.

Lemma define_all_gen (l : list (string * json)) :
  forall acc,
    NoDup (map fst (acc ++ l)) ->
    fold_left (fun o kv => prop_set (fst kv) (snd kv) o) l acc = (acc ++ l)%list.
Proof.
  induction l as [|[k x] r IH]; intros acc Hnd; simpl.
  - rewrite app_nil_r. reflexivity.
  - rewrite prop_set_new.
    + rewrite IH; rewrite <- app_assoc; [reflexivity|exact Hnd].
    + apply prop_get_notin. rewrite map_app in Hnd. simpl in Hnd.
      apply NoDup_remove_2 in Hnd. intros Hin. apply Hnd.
      apply in_or_app. left. exact Hin.
Qed.

Lemma define_all_distinct o :
  NoDup (map fst o) -> JSON.define_all o = o.
Proof.
  intros Hnd. unfold JSON.define_all. apply (define_all_gen o []). exact Hnd.
Qed.

Lemma representable_array l :
  representable (JArr l) -> Forall representable l.
Proof.
  induction l as [|x r IH]; intros H; constructor.
  - apply H.
  - apply IH. apply H.
Qed.

Lemma representable_object o :
  representable (JObj o) ->
  NoDup (map fst o) /\ Forall (fun kv => representable (snd kv)) o.
Proof.
  intros [Hnd H]. split; [exact Hnd|].
  clear Hnd. induction o as [|[k x] r IH]; constructor.
  - apply H.
  - apply IH. apply H.
Qed.

Lemma Forall_reads_back {A : Type} (f : A -> json) (l : list A) :
  Forall (fun a => representable (f a) -> reads_back (f a)) l ->
  Forall (fun a => representable (f a)) l ->
  Forall (fun a => reads_back (f a)) l.
Proof.
  induction 1 as [|a r Ha Hr IH]; intros Hrep; constructor.
  - apply Ha. inversion Hrep; assumption.
  - apply IH. inversion Hrep; assumption.
Qed.

Lemma parse_value_stringify x : representable x -> reads_back x.
Proof.
  induction x as [ |b|n|s|l IH|o IH] using json_induction; intros Hrep fuel rest Hfuel Hrest;
    (destruct fuel as [|f]; [simpl in Hfuel; lia|]).
  - reflexivity.
  - destruct b; reflexivity.
  - destruct (number_head n) as (c & r & E & Hc).
    change (JSON.stringify (JNum n)) with (JSON.number_to_string n).
    pose proof (parse_number_to_string n rest Hrest) as Hp.
    rewrite E in Hp |- *. simpl append in Hp |- *.
    rewrite (parse_value_number c (r ++ rest) f Hc). exact Hp.
  - change (JSON.stringify (JStr s) ++ rest)
      with (String JSON.dquote ((JSON.quote_chars s ++ String JSON.dquote EmptyString) ++ rest)).
    rewrite append_assoc. simpl (String JSON.dquote EmptyString ++ rest).
    change (JSON.parse_value (S f)
              (String JSON.dquote (JSON.quote_chars s ++ String JSON.dquote rest)))
      with (match JSON.parse_chars (JSON.quote_chars s ++ String JSON.dquote rest) with
            | Some (t, r') => Some (JStr t, r')
            | None => None
            end).
    rewrite parse_chars_quote_chars. reflexivity.
  - assert (Hl : Forall reads_back l).
    { apply (Forall_reads_back (fun x => x)); [exact IH|].
      apply representable_array. exact Hrep. }
    change (JSON.stringify (JArr l) ++ rest)
      with (String "[" ((JSON.join "," (map JSON.stringify l) ++ "]") ++ rest)).
    rewrite append_assoc. simpl ("]" ++ rest).
    rewrite parse_value_array.
    destruct l as [|x r].
    + reflexivity.
    + destruct (join_head JSON.stringify (x :: r) stringify_head ltac:(discriminate))
        as (c & t & E & Hc).
      pose proof (parse_elements_stringify (x :: r) Hl ltac:(discriminate) f rest) as Hp.
      rewrite E in Hp |- *. simpl append in Hp |- *.
      rewrite (no_close_bracket c _ Hc).
      rewrite Hp; [reflexivity|simpl in Hfuel |- *; lia].
  - destruct (representable_object o Hrep) as (Hnd & Hrep').
    assert (Ho : Forall (fun kv => reads_back (snd kv)) o)
      by (apply (Forall_reads_back (fun kv => snd kv)); assumption).
    change (JSON.stringify (JObj o) ++ rest)
      with (String "{"
              ((JSON.join ","
                  (map (fun kv => JSON.quote (fst kv) ++ ":" ++ JSON.stringify (snd kv)) o)
                ++ "}") ++ rest)).
    rewrite append_assoc. simpl ("}" ++ rest).
    rewrite parse_value_object.
    destruct o as [|[k x] r].
    + reflexivity.
    + pose proof (parse_members_stringify ((k, x) :: r) Ho ltac:(discriminate) f rest) as Hp.
      rewrite Hp; [|simpl in Hfuel |- *; lia].
      rewrite (define_all_distinct _ Hnd).
      destruct r as [|y r']; reflexivity.
Qed.

Lemma join_length (f : json -> string) (g : json -> nat) l :
  Forall (fun x => (g x <= String.length (f x))%nat) l ->
  (list_sum (map (fun x => S (g x)) l) <= S (String.length (JSON.join "," (map f l))))%nat.
Proof.
  induction 1 as [|x r Hx Hr IH]; [simpl; lia|].
  destruct r as [|y r'].
  - simpl. lia.
  - change (JSON.join "," (map f (x :: y :: r')))
      with (f x ++ "," ++ JSON.join "," (map f (y :: r'))).
    change (list_sum (map (fun x => S (g x)) (x :: y :: r')))
      with (S (g x) + list_sum (map (fun x => S (g x)) (y :: r')))%nat.
    set (J := JSON.join "," (map f (y :: r'))) in *.
    set (L := list_sum (map (fun x => S (g x)) (y :: r'))) in *.
    rewrite !length_append.
    change (String.length ",") with 1%nat. lia.
Qed.

Lemma members_length (o : list (string * json)) :
  Forall (fun kv => (size (snd kv) <= String.length (JSON.stringify (snd kv)))%nat) o ->
  (list_sum (map (fun kv => S (size (snd kv))) o)
   <= S (String.length
           (JSON.join ","
              (map (fun kv => JSON.quote (fst kv) ++ ":" ++ JSON.stringify (snd kv)) o))))%nat.
Proof.
  induction 1 as [|[k x] r Hx Hr IH]; [simpl; lia|].
  simpl in Hx.
  destruct r as [|y r'].
  - change (JSON.join ","
              (map (fun kv => JSON.quote (fst kv) ++ ":" ++ JSON.stringify (snd kv))
                 [(k, x)]))
      with (JSON.quote k ++ ":" ++ JSON.stringify x).
    rewrite !length_append. simpl. lia.
  - change (JSON.join ","
              (map (fun kv => JSON.quote (fst kv) ++ ":" ++ JSON.stringify (snd kv))
                 ((k, x) :: y :: r')))
      with ((JSON.quote k ++ ":" ++ JSON.stringify x) ++ "," ++
            JSON.join ","
              (map (fun kv => JSON.quote (fst kv) ++ ":" ++ JSON.stringify (snd kv))
                 (y :: r'))).
    change (list_sum (map (fun kv => S (size (snd kv))) ((k, x) :: y :: r')))
      with (S (size x) + list_sum (map (fun kv => S (size (snd kv))) (y :: r')))%nat.
    set (J := JSON.join ","
                (map (fun kv => JSON.quote (fst kv) ++ ":" ++ JSON.stringify (snd kv))
                   (y :: r'))) in *.
    set (L := list_sum (map (fun kv => S (size (snd kv))) (y :: r'))) in *.
    rewrite !length_append.
    change (String.length ",") with 1%nat. lia.
Qed.

(** The fuel [JSON.parse] takes from the length of the text is enough. *)
Lemma size_le_length x : (size x <= String.length (JSON.stringify x))%nat.
Proof.
  induction x as [ |b|n|s|l IH|o IH] using json_induction.
  - simpl. lia.
  - destruct b; simpl; lia.
  - destruct (number_head n) as (c & r & E & _).
    change (JSON.stringify (JNum n)) with (JSON.number_to_string n).
    rewrite E. simpl. lia.
  - simpl. lia.
  - change (JSON.stringify (JArr l))
      with (String "[" (JSON.join "," (map JSON.stringify l) ++ "]")).
    pose proof (join_length JSON.stringify size l IH) as H.
    change (size (JArr l)) with (S (list_sum (map (fun x => S (size x)) l))).
    simpl String.length. rewrite length_append. simpl String.length.
    apply le_n_S. rewrite Nat.add_1_r. exact H.
  - change (JSON.stringify (JObj o))
      with (String "{"
              (JSON.join ","
                 (map (fun kv => JSON.quote (fst kv) ++ ":" ++ JSON.stringify (snd kv)) o)
               ++ "}")).
    pose proof (members_length o IH) as H.
    change (size (JObj o)) with (S (list_sum (map (fun kv => S (size (snd kv))) o))).
    simpl String.length. rewrite length_append. simpl String.length.
    apply le_n_S. rewrite Nat.add_1_r. exact H.
Qed.

Lemma parse_stringify x :
  representable x -> JSON.parse (JSON.stringify x) = Normal x.
Proof.
  intros Hrep. unfold JSON.parse.
  pose proof (parse_value_stringify x Hrep (S (String.length (JSON.stringify x)))
                EmptyString) as H.
  rewrite append_empty_r in H.
  rewrite H; [reflexivity| |reflexivity].
  pose proof (size_le_length x). lia.
Qed.

(** The round trip through the remote tier for payloads whose numbers are
    safe integers: for every representable payload (null, booleans, safe
    integers, strings, arrays and objects with distinct property names of
    such), what [RedisManager.get] makes of the string [RedisManager.set]
    writes is the payload itself; and through a reachable store, a [set]
    with a positive time to live followed by a [get] of the same key
    returns the payload.  A number with a fraction is a double, which
    [json] does not hold. *)
Theorem integer_payloads_round_trip x :
  representable x ->
  RedisManager.deserialize (RedisManager.serialize x) = Normal x
  /\ forall key ttl w,
       Redis.reachable (redisClient w) = true ->
       0 < ttl ->
       exists w1 w2,
         RedisManager.set key x ttl w = (Normal true, w1)
         /\ RedisManager.get key w1 = (Normal x, w2).
Proof.
  intros Hrep.
  pose proof (parse_stringify x Hrep) as Hparse.
  split.
  - unfold RedisManager.deserialize, RedisManager.serialize.
    destruct (stringify_head x) as (c & r & E & _).
    rewrite <- Hparse. rewrite E. reflexivity.
  - intros key ttl w Hup Httl.
    assert (Hset : RedisManager.set key x ttl w =
              (Normal true,
               with_redisClient w
                 (Redis.with_db
                    (Redis.record (Redis.SETEX key ttl (JSON.stringify x)) (redisClient w))
                    (prop_set key (now w + ttl * 1000, JSON.stringify x)
                       (Redis.db (redisClient w)))))).
    { unfold RedisManager.set, try_catch, bind, RedisManager.client_setEx, Redis.setEx.
      simpl. rewrite Hup.
      replace (ttl <=? 0) with false by (symmetry; apply Z.leb_gt; exact Httl).
      reflexivity. }
    eexists. eexists. split; [exact Hset|].
    apply (RedisManager_get_hit key _ (now w + ttl * 1000) (JSON.stringify x) x).
    + exact Hup.
    + simpl. apply prop_get_set_same.
    + simpl. lia.
    + exact Hparse.
Qed.

Lemma integer_payloads_round_trip_witness :
  representable
    (JObj [("users", JArr [JObj [("id", JNum 1); ("name", JStr "Ada \ Lovelace")];
                           JObj [("id", JNum (-2)); ("name", JNull)]]);
           ("pagination", JObj [("page", JNum 1); ("pages", JNum 0)]);
           ("cached", JBool false)])
  /\ RedisManager.deserialize
       (RedisManager.serialize
          (JObj [("users", JArr [JObj [("id", JNum 1); ("name", JStr "Ada \ Lovelace")];
                                 JObj [("id", JNum (-2)); ("name", JNull)]]);
                 ("pagination", JObj [("page", JNum 1); ("pages", JNum 0)]);
                 ("cached", JBool false)]))
     = Normal
         (JObj [("users", JArr [JObj [("id", JNum 1); ("name", JStr "Ada \ Lovelace")];
                                JObj [("id", JNum (-2)); ("name", JNull)]]);
                ("pagination", JObj [("page", JNum 1); ("pages", JNum 0)]);
                ("cached", JBool false)]).
Proof.
  assert (Hrep : representable
    (JObj [("users", JArr [JObj [("id", JNum 1); ("name", JStr "Ada \ Lovelace")];
                           JObj [("id", JNum (-2)); ("name", JNull)]]);
           ("pagination", JObj [("page", JNum 1); ("pages", JNum 0)]);
           ("cached", JBool false)])).
  { simpl. repeat split; try lia;
      repeat constructor; simpl; intros H;
      repeat (destruct H as [H|H]; [discriminate H|]); exact H. }
  split; [exact Hrep|].
  exact (proj1 (integer_payloads_round_trip _ Hrep)).
Defined.

(** * Further properties of the code *)

(** ** Invariants along statement sequences *)

Lemma preserves_ret {A : Type} I (a : A) : preserves I (ret a).
Proof. intros w H. exact H. Qed.

Lemma preserves_bind {A B : Type} I (m : M A) (k : A -> M B) :
  preserves I m -> (forall a, preserves I (k a)) -> preserves I (bind m k).
Proof.
  intros Hm Hk w H. unfold bind. specialize (Hm w H).
  destruct (m w) as [[a|e] w1]; simpl in *.
  - apply Hk. exact Hm.
  - exact Hm.
Qed.

Lemma preserves_try_catch {A : Type} I (m : M A) (h : error -> M A) :
  preserves I m -> (forall e, preserves I (h e)) -> preserves I (try_catch m h).
Proof.
  intros Hm Hh w H. unfold try_catch. specialize (Hm w H).
  destruct (m w) as [[a|e] w1]; simpl in *.
  - exact Hm.
  - apply Hh. exact Hm.
Qed.

Lemma preserves_frame {A : Type} I (m : M A) :
  memory_only I ->
  (forall w, memoryCache (snd (m w)) = memoryCache w) ->
  preserves I m.
Proof. intros HI Hm w H. apply (HI w); [apply Hm|exact H]. Qed.

Lemma RedisManager_del_total key w :
  exists b w', RedisManager.del key w = (Normal b, w') /\ same_request w w'.
Proof.
  unfold RedisManager.del, try_catch, bind, RedisManager.client_del, Redis.del,
    logger_error, ret, same_request.
  simpl.
  destruct (Redis.reachable (redisClient w)); simpl; eauto 10.
Qed.

Lemma RedisManager_get_memory key w :
  memoryCache (snd (RedisManager.get key w)) = memoryCache w.
Proof.
  destruct (RedisManager_get_total key w) as (j & w' & E & H & _). rewrite E. exact H.
Qed.

Lemma RedisManager_set_memory key value ttl w :
  memoryCache (snd (RedisManager.set key value ttl w)) = memoryCache w.
Proof.
  destruct (RedisManager_set_total key value ttl w) as (j & w' & E & H & _).
  rewrite E. exact H.
Qed.

(** The three methods of the memory tier keep its bookkeeping and bound. *)
Lemma length_prop_delete {A : Type} key (o : list (string * A)) x :
  prop_get key o = Some x ->
  S (List.length (prop_delete key o)) = List.length o.
Proof.
  induction o as [|[k y] r IH]; simpl; [discriminate|].
  destruct (String.eqb key k); [reflexivity|].
  intros H. simpl. rewrite (IH H). reflexivity.
Qed.

Lemma length_prop_set {A : Type} key (x : A) (o : list (string * A)) :
  List.length (prop_set key x o) =
    if prop_has key o then List.length o else S (List.length o).
Proof.
  unfold prop_has. induction o as [|[k y] r IH]; simpl; [reflexivity|].
  destruct (String.eqb key k); simpl; [reflexivity|].
  rewrite IH. destruct (prop_get key r); reflexivity.
Qed.

Lemma del_ok key c :
  tier_ok c ->
  tier_ok (snd (NodeCache.del key c))
  /\ NodeCache.maxKeys (snd (NodeCache.del key c)) = NodeCache.maxKeys c.
Proof.
  intros (Hk & Hb). unfold NodeCache.del.
  destruct (prop_get key (NodeCache.data c)) as [x|] eqn:E; simpl.
  - pose proof (length_prop_delete key _ x E) as Hl.
    split; [|reflexivity]. split; simpl.
    + rewrite Hk. lia.
    + intros Hm. specialize (Hb Hm). lia.
  - split; [split; assumption|reflexivity].
Qed.

Lemma get_ok time key c :
  tier_ok c ->
  tier_ok (snd (NodeCache.get time key c))
  /\ NodeCache.maxKeys (snd (NodeCache.get time key c)) = NodeCache.maxKeys c.
Proof.
  intros H. unfold NodeCache.get.
  destruct (prop_get key (NodeCache.data c)) as [e|]; [|exact (conj H eq_refl)].
  unfold NodeCache._check.
  destruct (negb (NodeCache.t e =? 0) && (NodeCache.t e <? time)); simpl.
  - destruct (del_ok key c H) as (H1 & H2). split; [exact H1|exact H2].
  - exact (conj H eq_refl).
Qed.

Lemma set_ok time key value ttl c :
  tier_ok c ->
  tier_ok (snd (NodeCache.set time key value ttl c))
  /\ NodeCache.maxKeys (snd (NodeCache.set time key value ttl c)) = NodeCache.maxKeys c.
Proof.
  intros (Hk & Hb). unfold NodeCache.set.
  destruct ((NodeCache.maxKeys c >? -1) && (NodeCache.keys (NodeCache.st c) >=? NodeCache.maxKeys c))
    eqn:Hfull; simpl.
  - split; [split; assumption|reflexivity].
  - split; [|reflexivity]. split; simpl.
    + rewrite length_prop_set. destruct (prop_has key (NodeCache.data c)); lia.
    + intros Hm. specialize (Hb Hm).
      rewrite length_prop_set. destruct (prop_has key (NodeCache.data c)); [exact Hb|].
      apply andb_false_iff in Hfull. destruct Hfull as [Hf|Hf].
      * rewrite Z.gtb_ltb in Hf. apply Z.ltb_ge in Hf. lia.
      * rewrite Z.geb_leb in Hf. apply Z.leb_gt in Hf. lia.
Qed.

Lemma bounded_memory_only N : memory_only (bounded N).
Proof. intros w w' E H. unfold bounded in *. rewrite E. exact H. Qed.

Lemma bounded_get N key : preserves (bounded N) (memoryCache_get key).
Proof.
  intros w (H & HN). unfold memoryCache_get.
  destruct (get_ok (now w) key (memoryCache w) H) as (H1 & H2).
  destruct (NodeCache.get (now w) key (memoryCache w)) as [r c]. simpl in *.
  split; simpl; [exact H1|congruence].
Qed.

Lemma bounded_set N key value ttl : preserves (bounded N) (memoryCache_set key value ttl).
Proof.
  intros w (H & HN). unfold memoryCache_set.
  destruct (set_ok (now w) key value ttl (memoryCache w) H) as (H1 & H2).
  destruct (NodeCache.set (now w) key value ttl (memoryCache w)) as [r c]. simpl in *.
  split; simpl; [exact H1|congruence].
Qed.

Lemma bounded_del N key : preserves (bounded N) (memoryCache_del key).
Proof.
  intros w (H & HN). unfold memoryCache_del.
  destruct (del_ok key (memoryCache w) H) as (H1 & H2).
  destruct (NodeCache.del key (memoryCache w)) as [r c]. simpl in *.
  split; simpl; [exact H1|congruence].
Qed.

(** Steps that leave the memory tier alone keep any invariant about it. *)
Ltac frame_step HI :=
  first
    [ apply preserves_ret
    | apply (preserves_frame _ _ HI); intros; reflexivity
    | apply (preserves_frame _ _ HI); intros; apply RedisManager_get_memory
    | apply (preserves_frame _ _ HI); intros; apply RedisManager_set_memory ].

Lemma bounded_json_of N caps data : preserves (bounded N) (json_of caps data).
Proof.
  induction caps as [|cap inner IH]; simpl.
  - frame_step (bounded_memory_only N).
  - unfold wrapped_json.
    apply preserves_bind; [|intros _; apply preserves_bind; [|intros _; exact IH]].
    + destruct (cap_useMemory cap); [|apply preserves_ret].
      apply preserves_bind; [apply bounded_set|intros; apply preserves_ret].
    + frame_step (bounded_memory_only N).
Qed.

Lemma bounded_res_json N data : preserves (bounded N) (res_json data).
Proof.
  intros w H. unfold res_json. apply bounded_json_of. exact H.
Qed.

Lemma bounded_cache N ttl useMemory req : preserves (bounded N) (cache ttl useMemory req).
Proof.
  pose proof (bounded_memory_only N) as HI.
  unfold cache.
  destruct (negb (String.eqb (method req) "GET")); [frame_step HI|].
  apply preserves_try_catch.
  - apply preserves_bind.
    + destruct useMemory; [|apply preserves_ret].
      apply preserves_bind; [apply bounded_get|].
      intros [x|]; [|apply preserves_ret].
      destruct (truthy x); [|apply preserves_ret].
      apply preserves_bind; [frame_step HI|intros _].
      apply preserves_bind; [apply bounded_res_json|intros _; apply preserves_ret].
    + intros [|]; [apply preserves_ret|].
      apply preserves_bind; [frame_step HI|intros j].
      destruct (truthy j).
      * apply preserves_bind.
        -- destruct useMemory; [|apply preserves_ret].
           apply preserves_bind; [apply bounded_set|intros; apply preserves_ret].
        -- intros _. apply preserves_bind; [frame_step HI|intros _].
           apply bounded_res_json.
      * apply preserves_bind; [frame_step HI|intros _].
        apply preserves_bind; [frame_step HI|intros _]. frame_step HI.
  - intros e. apply preserves_bind; [frame_step HI|intros _; frame_step HI].
Qed.

Lemma bounded_handler N data : preserves (bounded N) (handler data).
Proof.
  unfold handler. apply preserves_try_catch; [apply bounded_res_json|].
  intros e. frame_step (bounded_memory_only N).
Qed.

Lemma bounded_route N ttl useMemory data req :
  preserves (bounded N) (route ttl useMemory data req).
Proof.
  intros w H. unfold route.
  assert (H0 : bounded N (new_request w)) by exact H.
  pose proof (bounded_cache N ttl useMemory req _ H0) as H1.
  destruct (cache ttl useMemory req (new_request w)) as [[u|e] w1]; simpl in *; [|exact H1].
  destruct (nexts w1); [exact H1|].
  apply bounded_handler. exact H1.
Qed.

Lemma bounded_forEach N (f : string -> M unit) l :
  (forall key, preserves (bounded N) (f key)) -> preserves (bounded N) (forEach l f).
Proof.
  intros Hf. induction l as [|x r IH]; simpl.
  - apply preserves_ret.
  - apply preserves_bind; [apply Hf|intros _; exact IH].
Qed.

Lemma bounded_invalidatePattern N pattern :
  preserves (bounded N) (invalidatePattern pattern).
Proof.
  pose proof (bounded_memory_only N) as HI.
  unfold invalidatePattern. apply preserves_try_catch.
  - apply preserves_bind; [frame_step HI|intros keys].
    apply bounded_forEach. intros key.
    destruct (includes key pattern); [|apply preserves_ret].
    apply preserves_bind; [apply bounded_del|intros; apply preserves_ret].
  - intros e. frame_step HI.
Qed.

Lemma bounded_step N ev w : bounded N w -> bounded N (step w ev).
Proof.
  intros H. destruct ev as [ttl useMemory data req|pattern|ms|up]; simpl.
  - apply bounded_route. exact H.
  - apply bounded_invalidatePattern. exact H.
  - exact H.
  - exact H.
Qed.

(** Whatever happens to a process that starts with an empty memory tier
    configured for [N] keys (requests of any kind on any route, hits and
    misses, invalidations, time passing, the remote store going away and
    coming back), the memory tier never holds more than [N] entries, and
    [stats.keys], which [getStats] reports, is the number of entries. *)
Theorem memory_tier_stays_within_maxKeys stdTTL N remote time events :
  0 <= N ->
  let w :=
    run events
      {| memoryCache := NodeCache.create stdTTL N; redisClient := remote; now := time;
         res := fresh_response; nexts := []; logged := [] |} in
  Z.of_nat (List.length (NodeCache.data (memoryCache w))) <= N
  /\ NodeCache.keys (NodeCache.getStats (memoryCache w))
     = Z.of_nat (List.length (NodeCache.data (memoryCache w))).
Proof.
  intros HN w.
  assert (H : bounded N w).
  { unfold w, run.
    assert (H0 : bounded N
      {| memoryCache := NodeCache.create stdTTL N; redisClient := remote; now := time;
         res := fresh_response; nexts := []; logged := [] |}).
    { split; [split; simpl; [reflexivity|intros _; lia]|reflexivity]. }
    revert H0.
    generalize {| memoryCache := NodeCache.create stdTTL N; redisClient := remote;
                  now := time; res := fresh_response; nexts := []; logged := [] |}.
    induction events as [|ev r IH]; intros w0 H0; simpl; [exact H0|].
    apply IH. apply bounded_step. exact H0. }
  destruct H as ((Hk & Hb) & Hm). split.
  - rewrite Hm in Hb. apply Hb. lia.
  - exact Hk.
Qed.

Lemma memory_tier_stays_within_maxKeys_witness :
  0 <= 1
  /\ Z.of_nat (List.length (NodeCache.data (memoryCache
       (run [Request 180 true (JNum 1) products;
             Request 60 true (JNum 2) (GET_of "/api/orders");
             Invalidate "products";
             Network false;
             Elapse 1000;
             Request 60 true (JNum 2) (GET_of "/api/orders")]
          (world_of (NodeCache.create 300 1) (redis_of true [])))))) <= 1.
Proof.
  split; [lia|].
  exact (proj1 (memory_tier_stays_within_maxKeys 300 1 (redis_of true []) 1000
                  [Request 180 true (JNum 1) products;
                   Request 60 true (JNum 2) (GET_of "/api/orders");
                   Invalidate "products";
                   Network false;
                   Elapse 1000;
                   Request 60 true (JNum 2) (GET_of "/api/orders")]
                  ltac:(lia))).
Defined.

(** ** Routes that switch the memory tier off *)

Lemma memory_is_frame {A : Type} c (m : M A) :
  (forall w, memoryCache (snd (m w)) = memoryCache w
             /\ overrides (res (snd (m w))) = overrides (res w)) ->
  preserves (memory_is c) m.
Proof.
  intros Hm w (H1 & H2). destruct (Hm w) as (E1 & E2).
  split; [congruence|]. unfold no_memory_closure in *. rewrite E2. exact H2.
Qed.

Lemma memory_is_RedisManager_get c key : preserves (memory_is c) (RedisManager.get key).
Proof.
  apply memory_is_frame. intros w.
  destruct (RedisManager_get_total key w) as (j & w' & E & Hm & Hr & _).
  rewrite E. simpl. split; congruence.
Qed.

Lemma memory_is_RedisManager_set c key value ttl :
  preserves (memory_is c) (RedisManager.set key value ttl).
Proof.
  apply memory_is_frame. intros w.
  destruct (RedisManager_set_total key value ttl w) as (j & w' & E & Hm & Hr & _).
  rewrite E. simpl. split; congruence.
Qed.

Lemma memory_is_json_of c data caps :
  Forall (fun cap => cap_useMemory cap = false) caps ->
  preserves (memory_is c) (json_of caps data).
Proof.
  induction 1 as [|cap inner Hcap Hinner IH]; simpl.
  - apply memory_is_frame. intros w. split; reflexivity.
  - unfold wrapped_json. rewrite Hcap.
    apply preserves_bind; [apply preserves_ret|intros _].
    apply preserves_bind; [apply memory_is_RedisManager_set|intros _; exact IH].
Qed.

Lemma memory_is_res_json c data : preserves (memory_is c) (res_json data).
Proof.
  intros w H. unfold res_json. apply memory_is_json_of; [|exact H]. apply H.
Qed.

Lemma memory_is_cache c ttl req : preserves (memory_is c) (cache ttl false req).
Proof.
  unfold cache.
  destruct (negb (String.eqb (method req) "GET"));
    [apply memory_is_frame; intros w; split; reflexivity|].
  apply preserves_try_catch.
  - apply preserves_bind; [apply preserves_ret|intros [|]; [apply preserves_ret|]].
    apply preserves_bind; [apply memory_is_RedisManager_get|intros j].
    destruct (truthy j).
    + apply preserves_bind; [apply preserves_ret|intros _].
      apply preserves_bind;
        [apply memory_is_frame; intros w; split; reflexivity|intros _].
      apply memory_is_res_json.
    + apply preserves_bind;
        [apply memory_is_frame; intros w; split; reflexivity|intros _].
      apply preserves_bind; [|intros _; apply memory_is_frame; intros w; split; reflexivity].
      intros w (H1 & H2). split; [exact H1|].
      unfold no_memory_closure. simpl. constructor; [reflexivity|exact H2].
  - intros e. apply preserves_bind;
      [|intros _]; apply memory_is_frame; intros w; split; reflexivity.
Qed.

(** A route mounted with [useMemory] off never reads or writes the memory
    tier: neither the middleware nor the closure it leaves over [res.json]
    changes the tier's entries or its hit and miss counters, whatever the
    request, the payload and the state of the remote store. *)
Theorem memory_off_leaves_memory_tier_alone ttl data req w :
  memoryCache (snd (route ttl false data req w)) = memoryCache w.
Proof.
  assert (H0 : memory_is (memoryCache w) (new_request w)) by (split; [reflexivity|constructor]).
  pose proof (memory_is_cache (memoryCache w) ttl req _ H0) as H1.
  unfold route.
  destruct (cache ttl false req (new_request w)) as [[u|e] w1]; simpl in *; [|apply H1].
  destruct (nexts w1); [apply H1|].
  assert (H2 : preserves (memory_is (memoryCache w)) (handler data)).
  { unfold handler. apply preserves_try_catch; [apply memory_is_res_json|].
    intros e. apply memory_is_frame. intros w'. split; reflexivity. }
  apply (H2 w1 H1).
Qed.

(** ** One outcome per request *)

Lemma level1_true_get key w r w1 :
  level1 true key w = (r, w1) ->
  NodeCache.get (now w) key (memoryCache w) = (r, memoryCache w1).
Proof.
  unfold level1.
  destruct (NodeCache.get (now w) key (memoryCache w)) as [r0 c0].
  intros H. inversion H; subst. reflexivity.
Qed.

Lemma cache_fresh_outcome ttl useMemory req w :
  res w = fresh_response ->
  exists w',
    cache ttl useMemory req w = (Normal tt, w')
    /\ ((exists x, emitted (res w') = [x] /\ truthy x = true /\ nexts w' = nexts w)
        \/ (emitted (res w') = [] /\ nexts w' = (nexts w ++ [None])%list)).
Proof.
  intros Hres.
  destruct (String.eqb (method req) "GET") eqn:Hm.
  2:{ eexists. split.
      - unfold cache. rewrite Hm. reflexivity.
      - right. simpl. rewrite Hres. split; reflexivity. }
  apply String.eqb_eq in Hm.
  destruct (level1 useMemory (generateKey req) w) as [r w1] eqn:Hl1.
  destruct (level1_frame _ _ _ _ _ Hl1) as (Hres1 & Hnexts1 & _ & _).
  destruct (RedisManager_get_total (generateKey req) w1) as (j & w2 & Hget & _ & Hres2 & Hnexts2 & _).
  assert (Hres2' : res w2 = fresh_response) by congruence.
  assert (Hn2 : nexts w2 = nexts w) by congruence.
  destruct (truthy_opt r) eqn:Hr.
  - destruct useMemory; [|unfold level1 in Hl1; inversion Hl1; subst; discriminate].
    destruct r as [x|]; [|discriminate]. simpl in Hr.
    eexists. split.
    + apply (cache_memory_hit ttl req w x _ Hm (level1_true_get _ _ _ _ Hl1) Hr).
      rewrite Hres. reflexivity.
    + left. exists x. simpl. rewrite Hres. repeat split. exact Hr.
  - destruct (truthy j) eqn:Hj.
    + destruct useMemory.
      * destruct (full (memoryCache w2)) eqn:Hfull.
        -- eexists. split.
           ++ apply (cache_remote_hit_full ttl req w r w1 j w2 (memoryCache w2) ECACHEFULL
                       Hm Hl1 Hr Hget Hj).
              apply set_full. exact Hfull.
           ++ right. simpl. rewrite Hres2', Hn2. split; reflexivity.
        -- eexists. split.
           ++ eapply (cache_remote_hit_backfill ttl req w r w1 j w2 _ Hm Hl1 Hr Hget Hj).
              ** apply set_room. exact Hfull.
              ** rewrite Hres2'. reflexivity.
           ++ left. exists j. simpl. rewrite Hres2', Hn2. repeat split. exact Hj.
      * unfold level1 in Hl1. inversion Hl1; subst r w1; clear Hl1.
        eexists. split.
        -- apply (cache_remote_hit_no_memory ttl req w j w2 Hm Hget Hj).
           rewrite Hres2'. reflexivity.
        -- left. exists j. simpl. rewrite Hres2', Hn2. repeat split. exact Hj.
    + eexists. split.
      * apply (cache_miss ttl useMemory req w r w1 j w2 Hm Hl1 Hr Hget Hj).
      * right. unfold miss_branch. simpl. rewrite Hres2', Hn2. split; reflexivity.
Qed.

(** For every request on a fresh response, of any method and with either
    setting of [useMemory], the middleware returns without throwing and
    does exactly one of two things: it answers the request itself with one
    payload, which is truthy, and does not call [next]; or it emits nothing
    and calls [next()] exactly once. *)
Theorem middleware_answers_or_passes_on ttl useMemory req w :
  res w = fresh_response ->
  nexts w = [] ->
  exists w',
    cache ttl useMemory req w = (Normal tt, w')
    /\ ((exists x, emitted (res w') = [x] /\ truthy x = true /\ nexts w' = [])
        \/ (emitted (res w') = [] /\ nexts w' = [None])).
Proof.
  intros Hres Hnexts.
  destruct (cache_fresh_outcome ttl useMemory req w Hres) as (w' & Hc & [H|H]).
  - exists w'. split; [exact Hc|]. left.
    destruct H as (x & He & Hx & Hn). exists x. rewrite Hn, Hnexts. auto.
  - exists w'. split; [exact Hc|]. right.
    destruct H as (He & Hn). rewrite Hn, Hnexts. auto.
Qed.

Lemma middleware_answers_or_passes_on_witness :
  (res (world_of (memory_with 1000 [(products_key, entry 0 (JNum 7))]) (redis_of false []))
   = fresh_response
   /\ nexts (world_of (memory_with 1000 [(products_key, entry 0 (JNum 7))]) (redis_of false []))
      = [])
  /\ exists w',
       cache 300 true products
         (world_of (memory_with 1000 [(products_key, entry 0 (JNum 7))]) (redis_of false []))
       = (Normal tt, w').
Proof.
  split; [split; reflexivity|].
  destruct (middleware_answers_or_passes_on 300 true products
              (world_of (memory_with 1000 [(products_key, entry 0 (JNum 7))])
                 (redis_of false []))
              eq_refl eq_refl) as (w' & Hc & _).
  exists w'. exact Hc.
Defined.

(** ** Requests one after the other *)

Lemma RedisManager_get_lacks key w :
  remote_lacks (now w) key (redisClient w) ->
  RedisManager.get key w =
    (Normal JNull,
     if Redis.reachable (redisClient w)
     then with_redisClient w (Redis.record (Redis.GET key) (redisClient w))
     else with_logged (with_redisClient w (Redis.record (Redis.GET key) (redisClient w)))
            (logged w ++ [ECONNREFUSED])).
Proof.
  intros H.
  destruct (Redis.reachable (redisClient w)) eqn:Hup.
  - unfold RedisManager.get, try_catch, bind, RedisManager.client_get, Redis.get, ret.
    simpl. rewrite Hup.
    destruct H as [H|[H|(expiry & s & H & Hexp)]].
    + congruence.
    + rewrite H. reflexivity.
    + rewrite H. simpl.
      replace (expiry <=? now w) with true by (symmetry; apply Z.leb_le; exact Hexp).
      reflexivity.
  - apply RedisManager_get_down. exact Hup.
Qed.

Lemma RedisManager_set_up key value ttl w :
  Redis.reachable (redisClient w) = true ->
  0 < ttl ->
  RedisManager.set key value ttl w =
    (Normal true,
     with_redisClient w
       (Redis.with_db
          (Redis.record (Redis.SETEX key ttl (JSON.stringify value)) (redisClient w))
          (prop_set key (now w + ttl * 1000, JSON.stringify value)
             (Redis.db (redisClient w))))).
Proof.
  intros Hup Httl.
  unfold RedisManager.set, try_catch, bind, RedisManager.client_setEx, Redis.setEx.
  simpl. rewrite Hup.
  replace (ttl <=? 0) with false by (symmetry; apply Z.leb_gt; exact Httl).
  reflexivity.
Qed.

Lemma set_room_stored time key value ttl c :
  full c = false ->
  NodeCache.set time key value ttl c = (Normal true, stored time key value ttl c).
Proof. apply set_room. Qed.

(** A GET request that finds nothing in either tier, with room in the
    memory tier: the handler's payload goes out and into both tiers. *)
Lemma route_miss ttl data req w r c1 :
  method req = "GET" ->
  NodeCache.get (now w) (generateKey req) (memoryCache w) = (r, c1) ->
  truthy_opt r = false ->
  full c1 = false ->
  remote_lacks (now w) (generateKey req) (redisClient w) ->
  exists w1,
    route ttl true data req w = (Normal tt, w1)
    /\ res w1 = miss_response ttl req data
    /\ nexts w1 = [None]
    /\ now w1 = now w
    /\ memoryCache w1 = stored (now w) (generateKey req) data ttl c1
    /\ Redis.reachable (redisClient w1) = Redis.reachable (redisClient w)
    /\ (Redis.reachable (redisClient w) = true -> 0 < ttl ->
        prop_get (generateKey req) (Redis.db (redisClient w1))
        = Some (now w + ttl * 1000, JSON.stringify data)).
Proof.
  intros Hm Hget Hr Hroom Hlacks.
  set (key := generateKey req) in *.
  set (w0 := new_request w).
  assert (Hl1 : level1 true key w0 = (r, with_memoryCache w0 c1)).
  { unfold level1. simpl. rewrite Hget. reflexivity. }
  pose proof (RedisManager_get_lacks key (with_memoryCache w0 c1) Hlacks) as Hrget.
  match type of Hrget with _ = (_, ?x) => set (w2 := x) in * end.
  pose proof (cache_miss ttl true req w0 r _ JNull w2 Hm Hl1 Hr Hrget eq_refl) as Hc.
  set (wm := miss_branch (capture_of ttl true req) w2) in *.
  assert (Hw2 : memoryCache w2 = c1 /\ now w2 = now w /\ res w2 = fresh_response
                /\ nexts w2 = []
                /\ Redis.reachable (redisClient w2) = Redis.reachable (redisClient w)
                /\ Redis.db (redisClient w2) = Redis.db (redisClient w)).
  { unfold w2. simpl.
    destruct (Redis.reachable (redisClient w)) eqn:E; simpl; repeat split; exact E. }
  destruct Hw2 as (Hmem2 & Hnow2 & Hres2 & Hnexts2 & Hup2 & Hdb2).
  assert (Hset : NodeCache.set (now wm) (cap_key (capture_of ttl true req)) data
                   (cap_ttl (capture_of ttl true req)) (memoryCache wm)
                 = (Normal true, stored (now w) key data ttl c1)).
  { unfold wm, miss_branch. simpl. rewrite Hmem2, Hnow2. apply set_room_stored. exact Hroom. }
  assert (Hov : overrides (res wm) = [capture_of ttl true req]).
  { unfold wm, miss_branch. simpl. rewrite Hres2. reflexivity. }
  destruct (handler_stores data _ wm _ Hov eq_refl Hset) as (b & w4 & Hrs & Hh).
  pose proof (RedisManager_set_total key data ttl
                (with_memoryCache wm (stored (now w) key data ttl c1))) as Htot.
  destruct Htot as (b' & w4' & Hrs' & Hsm & Hsr & Hsn & Hsnow).
  simpl in Hrs. unfold key in Hrs'. fold key in Hrs, Hrs'.
  rewrite Hrs in Hrs'. inversion Hrs'; subst b' w4'; clear Hrs'.
  assert (Hn : nexts wm = [None]) by (unfold wm, miss_branch; simpl; rewrite Hnexts2; reflexivity).
  unfold route. fold w0. rewrite Hc. cbv beta iota. fold wm. rewrite Hn, Hh.
  eexists. split; [reflexivity|]. simpl.
  rewrite Hsr, Hsn, Hsnow, Hsm. simpl. rewrite Hres2, Hnow2.
  split; [reflexivity|]. split; [exact Hn|]. split; [reflexivity|]. split; [reflexivity|].
  assert (Hupm : Redis.reachable (redisClient (with_memoryCache wm (stored (now w) key data ttl c1)))
                 = Redis.reachable (redisClient w)) by exact Hup2.
  split.
  - assert (Hreach : forall k v t u,
      Redis.reachable (redisClient (snd (RedisManager.set k v t u)))
      = Redis.reachable (redisClient u)).
    { intros k v t u.
      unfold RedisManager.set, try_catch, bind, RedisManager.client_setEx,
        Redis.setEx, logger_error, ret. simpl.
      destruct (Redis.reachable (redisClient u)) eqn:Eu; simpl; [|exact Eu].
      destruct (t <=? 0); simpl; exact Eu. }
    specialize (Hreach key data ttl (with_memoryCache wm (stored (now w) key data ttl c1))).
    rewrite Hrs in Hreach. simpl in Hreach. rewrite Hreach. exact Hup2.
  - intros Hup Httl. rewrite Hup in Hupm.
    rewrite (RedisManager_set_up key data ttl _ Hupm Httl) in Hrs.
    assert (E4 : w4 = with_redisClient (with_memoryCache wm (stored (now w) key data ttl c1))
       (Redis.with_db
          (Redis.record (Redis.SETEX key ttl (JSON.stringify data))
             (redisClient (with_memoryCache wm (stored (now w) key data ttl c1))))
          (prop_set key
             (now (with_memoryCache wm (stored (now w) key data ttl c1)) + ttl * 1000,
              JSON.stringify data)
             (Redis.db (redisClient (with_memoryCache wm (stored (now w) key data ttl c1)))))))
      by congruence.
    rewrite E4. simpl. rewrite Hnow2. apply prop_get_set_same.
Qed.

Lemma route_memory_hit ttl data req w e :
  method req = "GET" ->
  prop_get (generateKey req) (NodeCache.data (memoryCache w)) = Some e ->
  live (now w) e = true ->
  truthy (NodeCache.v e) = true ->
  route ttl true data req w =
    (Normal tt,
     with_res (with_memoryCache (new_request w) (count_hit (memoryCache w)))
       (hit_response "HIT-MEMORY" (NodeCache.v e))).
Proof.
  intros Hm Hget Hlive Hx. unfold route.
  rewrite (cache_memory_hit ttl req (new_request w) (NodeCache.v e)
             (count_hit (memoryCache w)) Hm
             (get_live (now w) _ (memoryCache w) e Hget Hlive) Hx eq_refl).
  reflexivity.
Qed.

Lemma route_remote_hit ttl data req w expiry s j :
  method req = "GET" ->
  prop_get (generateKey req) (NodeCache.data (memoryCache w)) = None ->
  full (memoryCache w) = false ->
  Redis.reachable (redisClient w) = true ->
  prop_get (generateKey req) (Redis.db (redisClient w)) = Some (expiry, s) ->
  now w < expiry ->
  JSON.parse s = Normal j ->
  truthy j = true ->
  route ttl true data req w =
    (Normal tt,
     with_res
       (with_memoryCache
          (with_redisClient (new_request w)
             (Redis.record (Redis.GET (generateKey req)) (redisClient w)))
          (stored (now w) (generateKey req) j ttl (count_miss (memoryCache w))))
       (hit_response "HIT-REDIS" j)).
Proof.
  intros Hm Habsent Hroom Hup Hdb Hlive Hparse Hj.
  set (key := generateKey req) in *.
  set (w0 := new_request w).
  set (w1 := with_memoryCache w0 (count_miss (memoryCache w))).
  assert (Hl1 : level1 true key w0 = (None, w1)).
  { unfold level1. simpl. rewrite (get_absent _ _ _ Habsent). reflexivity. }
  pose proof (RedisManager_get_hit key w1 expiry s j Hup Hdb Hlive Hparse) as Hget.
  match type of Hget with _ = (_, ?x) => set (w2 := x) in * end.
  assert (Hroom2 : full (memoryCache w2) = false) by exact Hroom.
  pose proof (cache_remote_hit_backfill ttl req w0 None w1 j w2 _ Hm Hl1 eq_refl Hget Hj
                (set_room_stored (now w2) key j ttl (memoryCache w2) Hroom2) eq_refl) as Hc.
  unfold route. fold w0. rewrite Hc. reflexivity.
Qed.

(** ** The remote tier fails soft, the memory tier goes on *)



(** Read-through: a GET request that finds its key in neither tier, with
    room in the memory tier, is marked MISS and answered with the origin's
    payload; a repeat of the request before the entry's time to live is
    over is marked HIT-MEMORY and answered with that same payload, the
    origin handler is not called again and the remote tier is not asked.
    This holds whether the remote store is up or down. *)
Theorem miss_then_hit_from_memory ttl data data' req w later :
  method req = "GET" ->
  truthy data = true ->
  prop_get (generateKey req) (NodeCache.data (memoryCache w)) = None ->
  full (memoryCache w) = false ->
  remote_lacks (now w) (generateKey req) (redisClient w) ->
  ttl = 0 \/ later <= now w + ttl * 1000 ->
  exists w1 w2,
    route ttl true data req w = (Normal tt, w1)
    /\ res w1 = miss_response ttl req data
    /\ nexts w1 = [None]
    /\ route ttl true data' req (with_now w1 later) = (Normal tt, w2)
    /\ res w2 = hit_response "HIT-MEMORY" data
    /\ nexts w2 = []
    /\ redisClient w2 = redisClient w1.
Proof.
  intros Hm Hdata Habsent Hroom Hlacks Hlater.
  destruct (route_miss ttl data req w None (count_miss (memoryCache w)) Hm
              (get_absent _ _ _ Habsent) eq_refl Hroom Hlacks)
    as (w1 & Hr1 & Hres1 & Hn1 & Hnow1 & Hmem1 & _).
  assert (Hentry : prop_get (generateKey req)
                     (NodeCache.data (memoryCache (with_now w1 later)))
                   = Some (NodeCache._wrap (now w) data ttl)).
  { simpl. rewrite Hmem1. simpl. apply prop_get_set_same. }
  pose proof (route_memory_hit ttl data' req (with_now w1 later) _ Hm Hentry
                (live_wrap (now w) later data ttl Hlater) Hdata) as Hr2.
  eexists. eexists. split; [exact Hr1|]. split; [exact Hres1|]. split; [exact Hn1|].
  split; [exact Hr2|]. repeat split.
Qed.

Lemma miss_then_hit_from_memory_witness :
  (method products = "GET"
   /\ truthy (JArr [JNum 1]) = true
   /\ prop_get products_key (NodeCache.data (memory_with 1000 [])) = None
   /\ full (memory_with 1000 []) = false
   /\ remote_lacks 1000 products_key (redis_of false [])
   /\ 2000 <= 1000 + 180 * 1000)
  /\ exists w1 w2,
       route 180 true (JArr [JNum 1]) products
         (world_of (memory_with 1000 []) (redis_of false [])) = (Normal tt, w1)
       /\ route 180 true (JArr [JNum 2]) products (with_now w1 2000) = (Normal tt, w2)
       /\ res w2 = hit_response "HIT-MEMORY" (JArr [JNum 1]).
Proof.
  assert (Hl : remote_lacks 1000 products_key (redis_of false [])) by (left; reflexivity).
  split; [repeat split; try exact Hl; lia|].
  destruct (miss_then_hit_from_memory 180 (JArr [JNum 1]) (JArr [JNum 2]) products
              (world_of (memory_with 1000 []) (redis_of false [])) 2000
              eq_refl eq_refl eq_refl eq_refl Hl
              (or_intror (proj1 (Z.leb_le 2000 (1000 + 180 * 1000)) eq_refl)))
    as (w1 & w2 & H1 & _ & _ & H2 & H3 & _).
  exists w1, w2. split; [exact H1|]. split; [exact H2|exact H3].
Defined.



Lemma get_expired time key c e :
  prop_get key (NodeCache.data c) = Some e ->
  live time e = false ->
  NodeCache.get time key c = (None, count_miss (snd (NodeCache.del key c))).
Proof.
  intros Hget Hlive. unfold NodeCache.get, NodeCache._check. rewrite Hget.
  unfold live in Hlive. apply negb_false_iff in Hlive. rewrite Hlive. reflexivity.
Qed.

Lemma prop_get_delete_same {A : Type} key (o : list (string * A)) :
  NoDup (map fst o) -> prop_get key (prop_delete key o) = None.
Proof.
  induction o as [|[k x] r IH]; simpl; intros Hnd; [reflexivity|].
  inversion Hnd as [|k' ks Hnotin Hnd']; subst.
  destruct (String.eqb key k) eqn:E.
  - apply String.eqb_eq in E. subst k. apply prop_get_notin. exact Hnotin.
  - simpl. rewrite E. apply IH. exact Hnd'.
Qed.

Lemma prop_delete_set_new {A : Type} key (x : A) (o : list (string * A)) :
  prop_get key o = None -> prop_delete key (prop_set key x o) = o.
Proof.
  induction o as [|[k y] r IH]; simpl; intros H.
  - rewrite String.eqb_refl. reflexivity.
  - destruct (String.eqb key k) eqn:E; [discriminate|].
    simpl. rewrite E. rewrite (IH H). reflexivity.
Qed.

(** Expiry: once more than the route's time to live (positive) has passed
    since a payload was cached on a miss, a repeat of the request finds
    neither tier holding it: it is marked MISS again, the origin handler
    runs, and its new payload is what goes out and replaces the expired
    entry in the memory tier. *)
Theorem entry_expires_after_ttl ttl data data' req w later :
  method req = "GET" ->
  prop_get (generateKey req) (NodeCache.data (memoryCache w)) = None ->
  full (memoryCache w) = false ->
  remote_lacks (now w) (generateKey req) (redisClient w) ->
  0 <= now w ->
  0 < ttl ->
  now w + ttl * 1000 < later ->
  exists w1 w2,
    route ttl true data req w = (Normal tt, w1)
    /\ route ttl true data' req (with_now w1 later) = (Normal tt, w2)
    /\ res w2 = miss_response ttl req data'
    /\ nexts w2 = [None]
    /\ prop_get (generateKey req) (NodeCache.data (memoryCache w2))
       = Some (NodeCache._wrap later data' ttl).
Proof.
  intros Hm Habsent Hroom Hlacks Hnow Httl Hlater.
  set (key := generateKey req) in *.
  destruct (route_miss ttl data req w None (count_miss (memoryCache w)) Hm
              (get_absent _ _ _ Habsent) eq_refl Hroom Hlacks)
    as (w1 & Hr1 & _ & _ & Hnow1 & Hmem1 & Hup1 & Hdb1).
  fold key in Hmem1, Hdb1.
  set (wl := with_now w1 later).
  assert (Hentry : prop_get key (NodeCache.data (memoryCache wl))
                   = Some (NodeCache._wrap (now w) data ttl)).
  { simpl. rewrite Hmem1. simpl. apply prop_get_set_same. }
  assert (Hdead : live (now wl) (NodeCache._wrap (now w) data ttl) = false).
  { unfold live, NodeCache._wrap. simpl.
    replace (ttl =? 0) with false by (symmetry; apply Z.eqb_neq; lia).
    apply negb_false_iff. apply andb_true_iff. split.
    - apply negb_true_iff. apply Z.eqb_neq. lia.
    - apply Z.ltb_lt. exact Hlater. }
  pose proof (get_expired (now wl) key (memoryCache wl) _ Hentry Hdead) as Hget.
  assert (Hdel : snd (NodeCache.del key (memoryCache wl))
                 = NodeCache.with_data (memoryCache wl) (NodeCache.data (memoryCache w))
                     {| NodeCache.hits := NodeCache.hits (NodeCache.st (memoryCache wl));
                        NodeCache.misses := NodeCache.misses (NodeCache.st (memoryCache wl));
                        NodeCache.keys := NodeCache.keys (NodeCache.st (memoryCache wl)) - 1 |}).
  { unfold NodeCache.del. rewrite Hentry. simpl. rewrite Hmem1. simpl.
    rewrite (prop_delete_set_new key _ _ Habsent). reflexivity. }
  assert (Hroom' : full (count_miss (snd (NodeCache.del key (memoryCache wl)))) = false).
  { rewrite Hdel. unfold full in *. simpl. rewrite Hmem1. simpl.
    unfold prop_has. rewrite Habsent.
    replace (NodeCache.keys (NodeCache.st (memoryCache w)) + 1 - 1)
      with (NodeCache.keys (NodeCache.st (memoryCache w))) by lia.
    exact Hroom. }
  assert (Hlacks' : remote_lacks (now wl) key (redisClient wl)).
  { simpl. destruct (Redis.reachable (redisClient w)) eqn:Hup.
    - right. right. exists (now w + ttl * 1000), (JSON.stringify data).
      split; [exact (Hdb1 eq_refl Httl)|lia].
    - left. exact Hup1. }
  destruct (route_miss ttl data' req wl None _ Hm Hget eq_refl Hroom' Hlacks')
    as (w2 & Hr2 & Hres2 & Hn2 & _ & Hmem2 & _).
  exists w1, w2. split; [exact Hr1|]. split; [exact Hr2|]. split; [exact Hres2|].
  split; [exact Hn2|]. rewrite Hmem2. simpl. apply prop_get_set_same.
Qed.

Lemma entry_expires_after_ttl_witness :
  (method products = "GET"
   /\ full (memory_with 1000 []) = false
   /\ remote_lacks 1000 products_key (redis_of true [])
   /\ 0 <= 1000 /\ 0 < 180 /\ 1000 + 180 * 1000 < 200000)
  /\ exists w1 w2,
       route 180 true (JNum 1) products (world_of (memory_with 1000 []) (redis_of true []))
       = (Normal tt, w1)
       /\ route 180 true (JNum 2) products (with_now w1 200000) = (Normal tt, w2)
       /\ res w2 = miss_response 180 products (JNum 2).
Proof.
  assert (Hl : remote_lacks 1000 products_key (redis_of true []))
    by (right; left; reflexivity).
  split; [repeat split; try exact Hl; lia|].
  destruct (entry_expires_after_ttl 180 (JNum 1) (JNum 2) products
              (world_of (memory_with 1000 []) (redis_of true [])) 200000
              eq_refl eq_refl eq_refl Hl ltac:(simpl; lia) ltac:(lia) ltac:(simpl; lia))
    as (w1 & w2 & H1 & H2 & H3 & _).
  exists w1, w2. split; [exact H1|]. split; [exact H2|exact H3].
Defined.

(** ** Invalidation and what it reaches *)

Lemma forEach_purge_now pattern l :
  forall w, now (snd (forEach l (purge pattern) w)) = now w.
Proof.
  induction l as [|x r IH]; intros w; [reflexivity|].
  simpl. unfold bind. unfold purge at 1.
  destruct (includes x pattern).
  - unfold bind, memoryCache_del.
    destruct (NodeCache.del x (memoryCache w)) as [n c]. simpl. rewrite IH. reflexivity.
  - unfold ret. rewrite IH. reflexivity.
Qed.

(** What [invalidatePattern] does to a world, in one place. *)
Lemma invalidatePattern_effect pattern w :
  exists w',
    invalidatePattern pattern w = (Normal tt, w')
    /\ NodeCache.data (memoryCache w')
       = filter (kept pattern) (NodeCache.data (memoryCache w))
    /\ redisClient w' = redisClient w
    /\ now w' = now w
    /\ NodeCache.maxKeys (memoryCache w') = NodeCache.maxKeys (memoryCache w)
    /\ (tier_ok (memoryCache w) -> tier_ok (memoryCache w')).
Proof.
  destruct (forEach_purge pattern (NodeCache.data (memoryCache w)) [] w eq_refl)
    as (w' & Hrun & Hd & Hr & _).
  { intros kv []. }
  assert (Hinv : invalidatePattern pattern w = (Normal tt, w')).
  { change (invalidatePattern pattern)
      with (try_catch (keys <- memoryCache_keys ;; forEach keys (purge pattern))
              (fun error => logger_error error)).
    unfold try_catch. unfold bind at 1. unfold memoryCache_keys.
    unfold NodeCache.keys_of, Object_keys. rewrite Hrun. reflexivity. }
  exists w'. split; [exact Hinv|]. split; [exact Hd|]. split; [exact Hr|].
  split.
  - pose proof (forEach_purge_now pattern (map fst (NodeCache.data (memoryCache w))) w) as H.
    rewrite Hrun in H. exact H.
  - assert (Hb : forall N, bounded N w -> bounded N w').
    { intros N H. pose proof (bounded_invalidatePattern N pattern w H) as H'.
      rewrite Hinv in H'. exact H'. }
    split.
    + (* the configured limit is not an entry: deletions leave it alone *)
      assert (Hmax : forall l u,
        NodeCache.maxKeys (memoryCache (snd (forEach l (purge pattern) u)))
        = NodeCache.maxKeys (memoryCache u)).
      { induction l as [|x r IH]; intros u; [reflexivity|].
        simpl. unfold bind. unfold purge at 1.
        destruct (includes x pattern).
        - unfold bind, memoryCache_del, NodeCache.del.
          destruct (prop_get x (NodeCache.data (memoryCache u))); simpl; rewrite IH; reflexivity.
        - unfold ret. rewrite IH. reflexivity. }
      specialize (Hmax (map fst (NodeCache.data (memoryCache w))) w).
      rewrite Hrun in Hmax. exact Hmax.
    + intros Hok. apply (Hb (NodeCache.maxKeys (memoryCache w))). split; [exact Hok|reflexivity].
Qed.

(** The key of a request contains whatever its URL contains. *)
Lemma url_in_key req pattern :
  includes (originalUrl req) pattern = true ->
  includes (generateKey req) pattern = true.
Proof.
  intros H. apply includes_spec in H. destruct H as (a & b & H).
  apply includes_spec.
  exists ("api:" ++ method req ++ ":" ++ a),
         (b ++ ":" ++ JSON.stringify (query req) ++ ":"
            ++ template match user req with
                        | Some u => prop_get "id" u
                        | None => Some (JStr "anonymous")
                        end).
  unfold generateKey. rewrite H. rewrite !append_assoc. reflexivity.
Qed.

(** [invalidatePattern(p)] reaches every request whose URL contains [p]:
    afterwards the memory tier holds no entry under the key of any such
    request, whatever its method, query and caller, so the next request
    for it is not answered from the memory tier's old entry. *)
Theorem invalidation_reaches_every_matching_url pattern req w :
  includes (originalUrl req) pattern = true ->
  exists w',
    invalidatePattern pattern w = (Normal tt, w')
    /\ prop_get (generateKey req) (NodeCache.data (memoryCache w')) = None.
Proof.
  intros H.
  destruct (invalidatePattern_effect pattern w) as (w' & Hinv & Hd & _).
  exists w'. split; [exact Hinv|].
  rewrite Hd, prop_get_filter, (url_in_key req pattern H). reflexivity.
Qed.

Lemma invalidation_reaches_every_matching_url_witness :
  includes (originalUrl products_page_limit) "products" = true
  /\ exists w',
       invalidatePattern "products"
         (world_of (memory_with 1000 [(generateKey products_page_limit, entry 0 (JNum 1))])
            (redis_of true []))
       = (Normal tt, w')
       /\ prop_get (generateKey products_page_limit) (NodeCache.data (memoryCache w')) = None.
Proof.
  split; [reflexivity|].
  exact (invalidation_reaches_every_matching_url "products" products_page_limit
           (world_of (memory_with 1000 [(generateKey products_page_limit, entry 0 (JNum 1))])
              (redis_of true []))
           eq_refl).
Defined.

Lemma filter_drops pattern key e (l : list (string * NodeCache.wrapper)) :
  prop_get key l = Some e ->
  includes key pattern = true ->
  (List.length (filter (kept pattern) l) < List.length l)%nat.
Proof.
  intros Hget Hinc. induction l as [|[k x] r IH]; simpl in *; [discriminate|].
  pose proof (filter_length_le (kept pattern) r) as Hle.
  destruct (String.eqb key k) eqn:E.
  - apply String.eqb_eq in E. subst k. unfold kept at 1. simpl. rewrite Hinc. simpl. lia.
  - specialize (IH Hget). destruct (kept pattern (k, x)); simpl; lia.
Qed.

(** The remote tier is not invalidated: after a payload was cached on a
    miss (remote store up, positive time to live), [invalidatePattern]
    with a pattern the request's URL contains removes the memory entry,
    and yet a repeat of the request before the time to live is over is
    answered, marked HIT-REDIS, with the payload from before the
    invalidation; the origin handler is not called, and the old payload is
    back in the memory tier. *)
Theorem stale_payload_survives_invalidation ttl ttl' data data' req pattern w later :
  method req = "GET" ->
  representable data ->
  truthy data = true ->
  tier_ok (memoryCache w) ->
  prop_get (generateKey req) (NodeCache.data (memoryCache w)) = None ->
  full (memoryCache w) = false ->
  Redis.reachable (redisClient w) = true ->
  prop_get (generateKey req) (Redis.db (redisClient w)) = None ->
  0 < ttl ->
  later < now w + ttl * 1000 ->
  includes (originalUrl req) pattern = true ->
  exists w1 w2 w3,
    route ttl true data req w = (Normal tt, w1)
    /\ invalidatePattern pattern w1 = (Normal tt, w2)
    /\ prop_get (generateKey req) (NodeCache.data (memoryCache w2)) = None
    /\ route ttl' true data' req (with_now w2 later) = (Normal tt, w3)
    /\ res w3 = hit_response "HIT-REDIS" data
    /\ nexts w3 = []
    /\ prop_get (generateKey req) (NodeCache.data (memoryCache w3))
       = Some (NodeCache._wrap later data ttl').
Proof.
  intros Hm Hrep Hdata Hok Habsent Hroom Hup Hdb Httl Hlater Hurl.
  set (key := generateKey req) in *.
  pose proof (url_in_key req pattern Hurl) as Hkey. fold key in Hkey.
  destruct (route_miss ttl data req w None (count_miss (memoryCache w)) Hm
              (get_absent _ _ _ Habsent) eq_refl Hroom (or_intror (or_introl Hdb)))
    as (w1 & Hr1 & _ & _ & Hnow1 & Hmem1 & Hup1 & Hdb1).
  fold key in Hmem1, Hdb1.
  specialize (Hdb1 Hup Httl). rewrite Hup in Hup1.
  assert (Hok1 : tier_ok (memoryCache w1)).
  { pose proof (bounded_route (NodeCache.maxKeys (memoryCache w)) ttl true data req w
                  (conj Hok eq_refl)) as H.
    rewrite Hr1 in H. apply H. }
  destruct (invalidatePattern_effect pattern w1)
    as (w2 & Hinv & Hd2 & Hredis2 & Hnow2 & Hmax2 & Hok2).
  specialize (Hok2 Hok1).
  assert (Hgone : prop_get key (NodeCache.data (memoryCache w2)) = None)
    by (rewrite Hd2, prop_get_filter, Hkey; reflexivity).
  assert (Hentry : prop_get key (NodeCache.data (memoryCache w1))
                   = Some (NodeCache._wrap (now w) data ttl))
    by (rewrite Hmem1; simpl; apply prop_get_set_same).
  assert (Hroom2 : full (memoryCache w2) = false).
  { unfold full. destruct (NodeCache.maxKeys (memoryCache w2) >? -1) eqn:Hlim; [|reflexivity].
    simpl. rewrite Z.geb_leb. apply Z.leb_gt.
    destruct Hok2 as (Hk2 & _). destruct Hok1 as (_ & Hb1).
    rewrite Hk2, Hd2. rewrite Hmax2 in *.
    apply Z.gtb_lt in Hlim.
    pose proof (filter_drops pattern key _ _ Hentry Hkey). specialize (Hb1 ltac:(lia)). lia. }
  pose proof (route_remote_hit ttl' data' req (with_now w2 later)
                (now w + ttl * 1000) (JSON.stringify data) data Hm Hgone Hroom2) as Hr3.
  simpl in Hr3. rewrite Hredis2 in Hr3.
  specialize (Hr3 Hup1 Hdb1 Hlater (parse_stringify data Hrep) Hdata).
  eexists. eexists. eexists.
  split; [exact Hr1|]. split; [exact Hinv|]. split; [exact Hgone|].
  split; [exact Hr3|]. split; [reflexivity|]. split; [reflexivity|].
  simpl. apply prop_get_set_same.
Qed.

Lemma stale_payload_survives_invalidation_witness :
  (method products = "GET"
   /\ representable (JArr [JNum 1])
   /\ tier_ok (memory_with 1000 [])
   /\ full (memory_with 1000 []) = false
   /\ 0 < 180 /\ 2000 < 1000 + 180 * 1000
   /\ includes (originalUrl products) "products" = true)
  /\ exists w1 w2 w3,
       route 180 true (JArr [JNum 1]) products
         (world_of (memory_with 1000 []) (redis_of true [])) = (Normal tt, w1)
       /\ invalidatePattern "products" w1 = (Normal tt, w2)
       /\ route 180 true (JArr [JNum 2]) products (with_now w2 2000) = (Normal tt, w3)
       /\ res w3 = hit_response "HIT-REDIS" (JArr [JNum 1]).
Proof.
  assert (Hrep : representable (JArr [JNum 1])) by (simpl; repeat split; lia).
  assert (Hok : tier_ok (memory_with 1000 [])) by (split; simpl; [reflexivity|lia]).
  split; [repeat split; try exact Hrep; try apply Hok; lia|].
  destruct (stale_payload_survives_invalidation 180 180 (JArr [JNum 1]) (JArr [JNum 2])
              products "products"
              (world_of (memory_with 1000 []) (redis_of true [])) 2000
              eq_refl Hrep eq_refl Hok eq_refl eq_refl eq_refl eq_refl
              ltac:(lia) ltac:(simpl; lia) eq_refl)
    as (w1 & w2 & w3 & H1 & H2 & _ & H3 & H4 & _).
  exists w1, w2, w3. split; [exact H1|]. split; [exact H2|]. split; [exact H3|exact H4].
Defined.

Lemma filter_kept_comm p q (l : list (string * NodeCache.wrapper)) :
  filter (kept q) (filter (kept p) l) = filter (kept p) (filter (kept q) l).
Proof.
  induction l as [|x r IH]; simpl; [reflexivity|].
  destruct (kept p x) eqn:Ep; destruct (kept q x) eqn:Eq; simpl;
    rewrite ?Ep, ?Eq, IH; reflexivity.
Qed.

Lemma filter_kept_idem p (l : list (string * NodeCache.wrapper)) :
  filter (kept p) (filter (kept p) l) = filter (kept p) l.
Proof.
  induction l as [|x r IH]; simpl; [reflexivity|].
  destruct (kept p x) eqn:Ep; simpl; rewrite ?Ep, IH; reflexivity.
Qed.

(** Invalidations compose: the entries the memory tier is left with after
    [invalidatePattern(p)] and then [invalidatePattern(q)] are the same,
    in the same order, as after the two calls the other way round (as in
    the order route, which invalidates orders and then products); and
    repeating an invalidation removes nothing more. *)
Theorem invalidations_commute_and_repeat_harmlessly p q w :
  NodeCache.data (memoryCache (snd (invalidatePattern q (snd (invalidatePattern p w)))))
  = NodeCache.data (memoryCache (snd (invalidatePattern p (snd (invalidatePattern q w)))))
  /\ NodeCache.data (memoryCache (snd (invalidatePattern p (snd (invalidatePattern p w)))))
     = NodeCache.data (memoryCache (snd (invalidatePattern p w))).
Proof.
  destruct (invalidatePattern_effect p w) as (wp & Hp & Hdp & _).
  destruct (invalidatePattern_effect q w) as (wq & Hq & Hdq & _).
  destruct (invalidatePattern_effect q wp) as (wpq & Hpq & Hdpq & _).
  destruct (invalidatePattern_effect p wq) as (wqp & Hqp & Hdqp & _).
  destruct (invalidatePattern_effect p wp) as (wpp & Hpp & Hdpp & _).
  rewrite Hp, Hq. simpl. rewrite Hpq, Hqp, Hpp. simpl.
  rewrite Hdpq, Hdqp, Hdpp, Hdp, Hdq.
  split; [apply filter_kept_comm|apply filter_kept_idem].
Qed.

(** ** Keys and callers *)

Lemma append_cancel_l (a x y : string) : a ++ x = a ++ y -> x = y.
Proof.
  induction a as [|c a IH]; simpl; intros H; [exact H|].
  inversion H. apply IH. assumption.
Qed.

Lemma number_to_string_inj a b :
  JSON.number_to_string a = JSON.number_to_string b -> a = b.
Proof.
  intros H.
  pose proof (parse_number_to_string a EmptyString eq_refl) as Ha.
  pose proof (parse_number_to_string b EmptyString eq_refl) as Hb.
  rewrite H in Ha. rewrite Ha in Hb. inversion Hb. reflexivity.
Qed.

Lemma key_shape req :
  generateKey req =
    ("api:" ++ method req ++ ":" ++ originalUrl req ++ ":"
       ++ JSON.stringify (query req) ++ ":") ++ template (userId req).
Proof.
  unfold generateKey, userId. rewrite !append_assoc. reflexivity.
Qed.

(** Two requests that agree on method, URL and query but come from
    callers with different numeric ids, or one from a caller with a
    numeric id and the other from no caller at all, never get the same
    key: one caller's cached response is not served to the other. *)
Theorem callers_do_not_share_keys req1 req2 a b :
  method req1 = method req2 ->
  originalUrl req1 = originalUrl req2 ->
  query req1 = query req2 ->
  userId req1 = Some (JNum a) ->
  (userId req2 = Some (JNum b) /\ a <> b) \/ user req2 = None ->
  generateKey req1 <> generateKey req2.
Proof.
  intros Hm Hu Hq Hid1 Hid2 Hkeys.
  rewrite (key_shape req1), (key_shape req2), Hm, Hu, Hq in Hkeys.
  apply append_cancel_l in Hkeys. rewrite Hid1 in Hkeys. simpl in Hkeys.
  destruct Hid2 as [(Hid2 & Hne)|Hnone].
  - rewrite Hid2 in Hkeys. simpl in Hkeys.
    apply Hne. apply number_to_string_inj. exact Hkeys.
  - unfold userId in Hkeys. rewrite Hnone in Hkeys. simpl in Hkeys.
    destruct (number_head a) as (c & r & E & Hc).
    rewrite E in Hkeys. inversion Hkeys. subst c.
    destruct Hc as [Hc|Hc]; [discriminate Hc|apply Hc; reflexivity].
Qed.

Lemma callers_do_not_share_keys_witness :
  (userId {| method := "GET"; originalUrl := "/api/orders"; query := JObj [];
             user := Some [("id", JNum 7); ("email", JStr "a@example.com")] |}
   = Some (JNum 7)
   /\ userId {| method := "GET"; originalUrl := "/api/orders"; query := JObj [];
                user := Some [("id", JNum 8)] |}
      = Some (JNum 8)
   /\ 7 <> 8)
  /\ generateKey {| method := "GET"; originalUrl := "/api/orders"; query := JObj [];
                    user := Some [("id", JNum 7); ("email", JStr "a@example.com")] |}
     <> generateKey {| method := "GET"; originalUrl := "/api/orders"; query := JObj [];
                       user := Some [("id", JNum 8)] |}.
Proof.
  split; [split; [reflexivity|split; [reflexivity|discriminate]]|].
  apply (callers_do_not_share_keys
           {| method := "GET"; originalUrl := "/api/orders"; query := JObj [];
              user := Some [("id", JNum 7); ("email", JStr "a@example.com")] |}
           {| method := "GET"; originalUrl := "/api/orders"; query := JObj [];
              user := Some [("id", JNum 8)] |}
           7 8 eq_refl eq_refl eq_refl eq_refl).
  left. split; [reflexivity|discriminate].
Defined.

(** ** The rest of [RedisManager] *)

(** Reconnecting: for a retry count up to [3] the client waits a hundred
    milliseconds per retry made, so at most [300] and not at all before
    the first retry; from a count of [4] on it gives up.  The ceiling of
    [3000] in [Math.min] is never the delay returned. *)
Theorem reconnect_waits_at_most_300ms retries :
  reconnectStrategy retries =
    (if retries <=? 3 then inl (retries * 100) else inr "Redis connection failed")
  /\ forall delay, reconnectStrategy retries = inl delay -> delay <= 300 /\ delay < 3000.
Proof.
  unfold reconnectStrategy. rewrite Z.gtb_ltb.
  destruct (Z.leb_spec retries 3) as [H|H].
  - replace (3 <? retries) with false by (symmetry; apply Z.ltb_ge; exact H).
    rewrite Z.min_l by lia.
    split; [reflexivity|]. intros delay E. inversion E. lia.
  - replace (3 <? retries) with true by (symmetry; apply Z.ltb_lt; exact H).
    split; [reflexivity|]. intros delay E. discriminate E.
Qed.

Lemma reconnect_waits_at_most_300ms_witness :
  reconnectStrategy 2 = inl 200 /\ 200 <= 300 /\ 200 < 3000.
Proof.
  split; [reflexivity|].
  exact (proj2 (reconnect_waits_at_most_300ms 2) 200 eq_refl).
Defined.

(** With the store unreachable, [exists] and [flushAll] return [false]
    like the other operations, leaving the database and the request
    alone; [ping], which has no [try] of its own, throws the client's
    error to its caller. *)
Theorem exists_and_flushAll_fail_soft_but_ping_throws key w :
  Redis.reachable (redisClient w) = false ->
  (exists w', RedisManager_exists key w = (Normal (JBool false), w') /\ same_request w w')
  /\ (exists w', RedisManager_flushAll w = (Normal false, w')
                 /\ same_request w w'
                 /\ Redis.db (redisClient w') = Redis.db (redisClient w))
  /\ RedisManager_ping w = (Throw ECONNREFUSED, w).
Proof.
  intros Hdown. split; [|split].
  - eexists. split.
    + unfold RedisManager_exists, try_catch, client_exists. rewrite Hdown. reflexivity.
    + repeat split.
  - eexists. split.
    + unfold RedisManager_flushAll, try_catch, bind, client_flushAll. rewrite Hdown.
      reflexivity.
    + repeat split.
  - unfold RedisManager_ping, client_ping. rewrite Hdown. reflexivity.
Qed.

Lemma exists_and_flushAll_fail_soft_but_ping_throws_witness :
  Redis.reachable (redisClient (world_of (memory_with 10 []) (redis_of false []))) = false
  /\ RedisManager_ping (world_of (memory_with 10 []) (redis_of false []))
     = (Throw ECONNREFUSED, world_of (memory_with 10 []) (redis_of false [])).
Proof.
  split; [reflexivity|].
  exact (proj2 (proj2 (exists_and_flushAll_fail_soft_but_ping_throws products_key
                         (world_of (memory_with 10 []) (redis_of false [])) eq_refl))).
Defined.

Lemma prop_get_delete_other {A : Type} key key' (o : list (string * A)) :
  key' <> key -> prop_get key' (prop_delete key o) = prop_get key' o.
Proof.
  intros Hne. induction o as [|[k x] r IH]; simpl; [reflexivity|].
  destruct (String.eqb key k) eqn:E.
  - apply String.eqb_eq in E. subst k.
    apply String.eqb_neq in Hne. rewrite Hne. reflexivity.
  - simpl. destruct (String.eqb key' k); [reflexivity|exact IH].
Qed.

(** Through a reachable store whose keys are distinct: after [del(key)]
    both [get(key)] and [exists(key)] find nothing, every other key reads
    as before; and after [flushAll()] every key reads as [null]. *)
Theorem deleted_and_flushed_keys_read_as_null key w :
  Redis.reachable (redisClient w) = true ->
  NoDup (map fst (Redis.db (redisClient w))) ->
  (exists w1 w2 w3,
      RedisManager.del key w = (Normal true, w1)
      /\ RedisManager.get key w1 = (Normal JNull, w2)
      /\ RedisManager_exists key w1 = (Normal (JNum 0), w3)
      /\ forall key', key' <> key ->
           prop_get key' (Redis.db (redisClient w1))
           = prop_get key' (Redis.db (redisClient w)))
  /\ (exists w1,
        RedisManager_flushAll w = (Normal true, w1)
        /\ forall key', exists w2, RedisManager.get key' w1 = (Normal JNull, w2)).
Proof.
  intros Hup Hnd. split.
  - assert (Hdel : RedisManager.del key w =
              (Normal true,
               with_redisClient w
                 (Redis.with_db (Redis.record (Redis.DEL key) (redisClient w))
                    (prop_delete key (Redis.db (redisClient w)))))).
    { unfold RedisManager.del, try_catch, bind, RedisManager.client_del, Redis.del.
      simpl. rewrite Hup. reflexivity. }
    eexists. eexists. eexists. split; [exact Hdel|].
    assert (Hgone : prop_get key (prop_delete key (Redis.db (redisClient w))) = None)
      by (apply prop_get_delete_same; exact Hnd).
    split; [|split].
    + rewrite RedisManager_get_lacks; [|right; left; exact Hgone].
      simpl. rewrite Hup. reflexivity.
    + unfold RedisManager_exists, try_catch, client_exists. simpl.
      rewrite Hup, Hgone. reflexivity.
    + intros key' Hne. simpl. apply prop_get_delete_other. exact Hne.
  - eexists. split.
    + unfold RedisManager_flushAll, try_catch, bind, client_flushAll. rewrite Hup.
      reflexivity.
    + intros key'. eexists.
      rewrite RedisManager_get_lacks; [|right; left; reflexivity].
      reflexivity.
Qed.

Lemma deleted_and_flushed_keys_read_as_null_witness :
  (Redis.reachable (redis_of true [(products_key, (5000, "[5]"))]) = true
   /\ NoDup (map fst [(products_key, (5000, "[5]"))]))
  /\ exists w1 w2,
       RedisManager.del products_key
         (world_of (memory_with 10 []) (redis_of true [(products_key, (5000, "[5]"))]))
       = (Normal true, w1)
       /\ RedisManager.get products_key w1 = (Normal JNull, w2).
Proof.
  assert (Hnd : NoDup (map fst [(products_key, (5000, "[5]"))]))
    by (repeat constructor; intros []).
  split; [split; [reflexivity|exact Hnd]|].
  destruct (deleted_and_flushed_keys_read_as_null products_key
              (world_of (memory_with 10 []) (redis_of true [(products_key, (5000, "[5]"))]))
              eq_refl Hnd) as ((w1 & w2 & w3 & H1 & H2 & _) & _).
  exists w1, w2. split; [exact H1|exact H2].
Defined.

(** ** The error handler *)

(** What the client is told depends on the environment.  In production
    the body has no [stack] and its message is one of six fixed texts
    chosen from the error's name, code and status alone: the error's own
    message never goes out, and a status of [500] always reads Internal
    Server Error.  Outside production the body always carries the error's
    own message and its stack, also for the recognised kinds of error. *)
Theorem error_body_by_environment NODE_ENV timestamp path err :
  (is_production NODE_ENV = true ->
   exists message,
     snd (errorHandler NODE_ENV timestamp path err)
     = JObj [("error", JStr message); ("timestamp", JStr timestamp); ("path", JStr path)]
     /\ In message ["Validation Error"; "Invalid Token"; "Token Expired";
                    "Resource already exists"; "Invalid reference"; "Internal Server Error"]
     /\ message = snd (classify err)
     /\ (fst (errorHandler NODE_ENV timestamp path err) = 500 ->
         message = "Internal Server Error"))
  /\ (is_production NODE_ENV = false ->
      snd (errorHandler NODE_ENV timestamp path err)
      = JObj [("error", JStr (err_message err)); ("timestamp", JStr timestamp);
              ("path", JStr path); ("stack", JStr (err_stack err))])
  /\ fst (errorHandler NODE_ENV timestamp path err) = fst (classify err).
Proof.
  unfold errorHandler.
  destruct (classify err) as [status message] eqn:Hc. simpl.
  split; [|split; [|reflexivity]].
  - intros Hprod. rewrite Hprod. simpl.
    assert (Hin : In message ["Validation Error"; "Invalid Token"; "Token Expired";
                    "Resource already exists"; "Invalid reference"; "Internal Server Error"]).
    { revert Hc. unfold classify.
      repeat match goal with
             | |- context [if ?b then _ else _] => destruct b
             end; intros E; inversion E; simpl; auto 10. }
    destruct (status =? 500) eqn:Hs.
    + assert (Hm : message = "Internal Server Error").
      { revert Hc Hs. unfold classify.
        repeat match goal with
               | |- context [if ?b then _ else _] => destruct b
               end; intros E; inversion E; subst; simpl; intros Hs;
          first [discriminate Hs | reflexivity]. }
      exists message. rewrite Hm. simpl. auto 10.
    + exists message. split; [reflexivity|]. split; [exact Hin|]. split; [reflexivity|].
      intros E. apply Z.eqb_neq in Hs. contradiction.
  - intros Hdev. rewrite Hdev. reflexivity.
Qed.

Lemma error_body_by_environment_witness :
  is_production (Some "production") = true
  /\ exists message,
       snd (errorHandler (Some "production") "2024-01-01T00:00:00.000Z" "/api/products"
              {| err_status := Some 503; err_name := "Error"; err_code := Some "23505";
                 err_message := "duplicate key value violates unique constraint";
                 err_stack := "Error: duplicate key value" |})
       = JObj [("error", JStr message); ("timestamp", JStr "2024-01-01T00:00:00.000Z");
               ("path", JStr "/api/products")]
       /\ message = "Resource already exists".
Proof.
  split; [reflexivity|].
  destruct (proj1 (error_body_by_environment (Some "production")
                     "2024-01-01T00:00:00.000Z" "/api/products"
                     {| err_status := Some 503; err_name := "Error"; err_code := Some "23505";
                        err_message := "duplicate key value violates unique constraint";
                        err_stack := "Error: duplicate key value" |}) eq_refl)
    as (message & Hbody & _ & Hmessage & _).
  exists message. split; [exact Hbody|exact Hmessage].
Defined.

Lemma handler_is_res_json data w W :
  handler data w = (Normal tt, W) ->
  nexts W = [None] ->
  res_json data w = (Normal tt, W).
Proof.
  unfold handler, try_catch.
  destruct (res_json data w) as [[[]|e] W'].
  - intros H _. exact H.
  - unfold next. intros H Hn. inversion H; subst W. simpl in Hn.
    destruct (nexts W') as [|? [|? ?]]; simpl in Hn; inversion Hn.
Qed.

Lemma failing_route_as_route ttl useMemory NODE_ENV timestamp path err req w W :
  route ttl useMemory (snd (errorHandler NODE_ENV timestamp path err)) req w = (Normal tt, W) ->
  nexts W = [None] ->
  failing_route ttl useMemory NODE_ENV timestamp path err req w = (Normal tt, W).
Proof.
  unfold route, failing_route.
  destruct (cache ttl useMemory req (new_request w)) as [[u|e] w1]; [|discriminate].
  destruct (nexts w1).
  - intros H _. exact H.
  - apply handler_is_res_json.
Qed.

(** Error responses are cached like any payload.  When a GET request
    misses both tiers (room in the memory tier) and its handler then
    fails, the error handler answers through the [res.json] the
    middleware has overridden: the error body goes out and into the
    cache under the request's key.  A repeat of the request before the
    time to live is over is answered from the memory tier with that error
    body, marked HIT-MEMORY, and the handler, which might succeed now, is
    not called. *)
Theorem error_responses_are_cached ttl NODE_ENV timestamp path err data' req w later :
  method req = "GET" ->
  prop_get (generateKey req) (NodeCache.data (memoryCache w)) = None ->
  full (memoryCache w) = false ->
  remote_lacks (now w) (generateKey req) (redisClient w) ->
  ttl = 0 \/ later <= now w + ttl * 1000 ->
  exists w1 w2,
    failing_route ttl true NODE_ENV timestamp path err req w = (Normal tt, w1)
    /\ emitted (res w1) = [snd (errorHandler NODE_ENV timestamp path err)]
    /\ route ttl true data' req (with_now w1 later) = (Normal tt, w2)
    /\ res w2 = hit_response "HIT-MEMORY" (snd (errorHandler NODE_ENV timestamp path err))
    /\ nexts w2 = [].
Proof.
  intros Hm Habsent Hroom Hlacks Hlater.
  set (body := snd (errorHandler NODE_ENV timestamp path err)).
  assert (Hbody : truthy body = true).
  { unfold body, errorHandler. destruct (classify err). reflexivity. }
  destruct (route_miss ttl body req w None (count_miss (memoryCache w)) Hm
              (get_absent _ _ _ Habsent) eq_refl Hroom Hlacks)
    as (w1 & Hr1 & Hres1 & Hn1 & Hnow1 & Hmem1 & _).
  pose proof (failing_route_as_route ttl true NODE_ENV timestamp path err req w w1 Hr1 Hn1)
    as Hf1.
  assert (Hentry : prop_get (generateKey req)
                     (NodeCache.data (memoryCache (with_now w1 later)))
                   = Some (NodeCache._wrap (now w) body ttl)).
  { simpl. rewrite Hmem1. simpl. apply prop_get_set_same. }
  pose proof (route_memory_hit ttl data' req (with_now w1 later) _ Hm Hentry
                (live_wrap (now w) later body ttl Hlater) Hbody) as Hr2.
  exists w1. eexists. split; [exact Hf1|]. split; [rewrite Hres1; reflexivity|].
  split; [exact Hr2|]. split; reflexivity.
Qed.

Lemma error_responses_are_cached_witness :
  (method products = "GET"
   /\ full (memory_with 1000 []) = false
   /\ remote_lacks 1000 products_key (redis_of true [])
   /\ 2000 <= 1000 + 180 * 1000)
  /\ exists w1 w2,
       failing_route 180 true (Some "production") "2024-01-01T00:00:00.000Z" "/"
         {| err_status := None; err_name := "Error"; err_code := None;
            err_message := "connection terminated"; err_stack := "Error: at query" |}
         products (world_of (memory_with 1000 []) (redis_of true []))
       = (Normal tt, w1)
       /\ route 180 true (JObj [("products", JArr [])]) products (with_now w1 2000)
          = (Normal tt, w2)
       /\ res w2 = hit_response "HIT-MEMORY"
                     (JObj [("error", JStr "Internal Server Error");
                            ("timestamp", JStr "2024-01-01T00:00:00.000Z");
                            ("path", JStr "/")]).
Proof.
  assert (Hl : remote_lacks 1000 products_key (redis_of true []))
    by (right; left; reflexivity).
  split; [repeat split; try exact Hl; lia|].
  destruct (error_responses_are_cached 180 (Some "production") "2024-01-01T00:00:00.000Z" "/"
              {| err_status := None; err_name := "Error"; err_code := None;
                 err_message := "connection terminated"; err_stack := "Error: at query" |}
              (JObj [("products", JArr [])]) products
              (world_of (memory_with 1000 []) (redis_of true [])) 2000
              eq_refl eq_refl eq_refl Hl
              (or_intror (proj1 (Z.leb_le 2000 (1000 + 180 * 1000)) eq_refl)))
    as (w1 & w2 & H1 & _ & H2 & H3 & _).
  exists w1, w2. split; [exact H1|]. split; [exact H2|exact H3].
Defined.

(** ** Transactions *)

Lemma query_effect text c :
  Database.statements (snd (Database.query text c)) = (Database.statements c ++ [text])%list
  /\ Database.released (snd (Database.query text c)) = Database.released c
  /\ Database.rejects (snd (Database.query text c)) = Database.rejects c
  /\ (forall u, fst (Database.query text c) = Database.Resolved u ->
                Database.rejects c text = None).
Proof.
  unfold Database.query. destruct (Database.rejects c text); simpl; repeat split.
  intros u H. discriminate H.
Qed.

(** [transaction] settles what it starts.  For a callback that only sends
    statements, the client is released exactly once whatever fails; the
    first statement sent is BEGIN; when the transaction resolves, the last
    statement is COMMIT and neither BEGIN nor COMMIT was rejected; when it
    rejects, the last statement is ROLLBACK. *)
Theorem transaction_settles_and_releases {A : Type}
    (callback : Database.client -> Database.outcome A * Database.client) c :
  well_behaved callback ->
  Database.released (snd (Database.transaction callback c)) = S (Database.released c)
  /\ (exists more,
        Database.statements (snd (Database.transaction callback c))
        = (Database.statements c ++ "BEGIN" :: more)%list)
  /\ match fst (Database.transaction callback c) with
     | Database.Resolved _ =>
         last (Database.statements (snd (Database.transaction callback c))) EmptyString
         = "COMMIT"
         /\ Database.rejects c "BEGIN" = None
         /\ Database.rejects c "COMMIT" = None
     | Database.Rejected _ =>
         last (Database.statements (snd (Database.transaction callback c))) EmptyString
         = "ROLLBACK"
     end.
Proof.
  intros Hcb. unfold Database.transaction.
  destruct (query_effect "BEGIN" c) as (Hs1 & Hr1 & Hj1 & Hok1).
  destruct (Database.query "BEGIN" c) as [[u1|e1] c1]; simpl in *.
  - destruct (Hcb c1) as (Hr2 & Hj2 & more & Hs2).
    destruct (callback c1) as [[result|e2] c2]; simpl in *.
    + destruct (query_effect "COMMIT" c2) as (Hs3 & Hr3 & Hj3 & Hok3).
      destruct (Database.query "COMMIT" c2) as [[u3|e3] c3]; simpl in *.
      * split; [congruence|]. split.
        -- exists (more ++ ["COMMIT"])%list. rewrite Hs3, Hs2, Hs1, <- !app_assoc. reflexivity.
        -- split; [rewrite Hs3; apply last_last|].
           split; [apply (Hok1 u1); reflexivity|].
           rewrite <- Hj1, <- Hj2. apply (Hok3 u3). reflexivity.
      * destruct (query_effect "ROLLBACK" c3) as (Hs4 & Hr4 & Hj4 & _).
        destruct (Database.query "ROLLBACK" c3) as [[u4|e4] c4]; simpl in *;
          (split; [congruence|]; split;
           [exists (more ++ ["COMMIT"; "ROLLBACK"])%list;
            rewrite Hs4, Hs3, Hs2, Hs1, <- !app_assoc; reflexivity
           |rewrite Hs4; apply last_last]).
    + destruct (query_effect "ROLLBACK" c2) as (Hs4 & Hr4 & Hj4 & _).
      destruct (Database.query "ROLLBACK" c2) as [[u4|e4] c4]; simpl in *;
        (split; [congruence|]; split;
         [exists (more ++ ["ROLLBACK"])%list;
          rewrite Hs4, Hs2, Hs1, <- !app_assoc; reflexivity
         |rewrite Hs4; apply last_last]).
  - destruct (query_effect "ROLLBACK" c1) as (Hs4 & Hr4 & Hj4 & _).
    destruct (Database.query "ROLLBACK" c1) as [[u4|e4] c4]; simpl in *;
      (split; [congruence|]; split;
       [exists ["ROLLBACK"]; rewrite Hs4, Hs1, <- !app_assoc; reflexivity
       |rewrite Hs4; apply last_last]).
Qed.

Lemma transaction_settles_and_releases_witness :
  well_behaved (fun c => Database.query "UPDATE orders SET total_amount = $1 WHERE id = $2" c)
  /\ Database.released
       (snd (Database.transaction
               (fun c => Database.query "UPDATE orders SET total_amount = $1 WHERE id = $2" c)
               {| Database.statements := []; Database.released := 0;
                  Database.rejects := fun text =>
                    if String.eqb text "COMMIT" then Some "deadlock detected" else None |}))
     = 1%nat.
Proof.
  assert (Hcb : well_behaved
            (fun c => Database.query "UPDATE orders SET total_amount = $1 WHERE id = $2" c)).
  { intros c. destruct (query_effect "UPDATE orders SET total_amount = $1 WHERE id = $2" c)
      as (Hs & Hr & Hj & _).
    split; [exact Hr|]. split; [exact Hj|]. eexists. exact Hs. }
  split; [exact Hcb|].
  exact (proj1 (transaction_settles_and_releases _
                  {| Database.statements := []; Database.released := 0;
                     Database.rejects := fun text =>
                       if String.eqb text "COMMIT" then Some "deadlock detected" else None |}
                  Hcb)).
Defined.

(** ** The product list query *)

Lemma parse_digits_uint_stops d rest :
  stops rest -> JSON.parse_digits (NilEmpty.string_of_uint d ++ rest) = (d, rest).
Proof.
  intros Hrest. induction d; simpl; try rewrite IHd; try reflexivity.
  destruct rest as [|c r]; [reflexivity|]. simpl in *. rewrite Hrest. reflexivity.
Qed.

Lemma placeholders_digits d rest :
  placeholders (NilEmpty.string_of_uint d ++ rest) = placeholders rest.
Proof. induction d; simpl; try exact IHd; reflexivity. Qed.

(** A placeholder in a text that stops after it is read back as its number. *)
Lemma placeholders_placeholder n rest :
  0 < n -> stops rest ->
  placeholders (placeholder n ++ rest) = n :: placeholders rest.
Proof.
  intros Hn Hrest. destruct n as [|p|p]; try lia.
  unfold placeholder, JSON.number_to_string. simpl Z.to_int. simpl NilEmpty.string_of_int.
  change (("$" ++ NilEmpty.string_of_uint (Pos.to_uint p)) ++ rest)
    with (String "$" (NilEmpty.string_of_uint (Pos.to_uint p) ++ rest)).
  simpl placeholders.
  rewrite (parse_digits_uint_stops _ _ Hrest), placeholders_digits. simpl fst.
  assert (Hz : Z.of_uint (Pos.to_uint p) = Z.pos p).
  { unfold Z.of_uint. rewrite DecimalPos.Unsigned.of_to. reflexivity. }
  pose proof (DecimalPos.Unsigned.to_uint_nonnil p) as Hnil.
  destruct (Pos.to_uint p); first [contradiction | rewrite Hz; reflexivity].
Qed.

Lemma placeholders_plain prefix rest :
  plain prefix = true -> placeholders (prefix ++ rest) = placeholders rest.
Proof.
  induction prefix as [|c r IH]; simpl; [reflexivity|].
  intros H. apply andb_prop in H. destruct H as [Hc Hr].
  apply negb_true_iff in Hc. rewrite Hc. exact (IH Hr).
Qed.

Lemma in_step_start :
  in_step {| whereClause := "WHERE p.active = true"; params := []; paramCount := 0 |}.
Proof.
  exists 0%nat. split; [reflexivity|]. split; [reflexivity|].
  intros rest i _. cbn [whereClause].
  rewrite placeholders_plain by reflexivity. intuition lia.
Qed.

(** A filter whose clause starts with a character that is no digit and
    mentions the new placeholder, and no other, keeps clause and parameters
    in step. *)
Lemma in_step_add value clause param b :
  (forall n rest, stops (clause n ++ rest)) ->
  (forall n rest i, 0 < n -> stops rest ->
     (In i (placeholders (clause n ++ rest)) <-> i = n \/ In i (placeholders rest))) ->
  in_step b ->
  in_step (add_filter value clause param b).
Proof.
  intros Hstart Hclause (k & Hk & Hlen & Hin).
  unfold add_filter. destruct (truthy_opt value); [|exists k; auto].
  destruct value as [x|]; [|exists k; auto].
  exists (S k). cbn [whereClause params paramCount].
  split; [rewrite Hk; lia|]. split; [rewrite length_app, Hlen; simpl; lia|].
  intros rest i Hrest.
  rewrite append_assoc, (Hin _ i (Hstart _ _)).
  rewrite (Hclause _ rest i) by (assumption || lia).
  rewrite Hk. intuition lia.
Qed.

Ltac read_placeholders :=
  rewrite ?append_assoc;
  repeat first
    [ rewrite placeholders_plain by reflexivity
    | rewrite placeholders_placeholder by first [assumption | reflexivity | lia] ].

Lemma product_filters_in_step q : in_step (product_filters q).
Proof.
  unfold product_filters. cbv zeta.
  repeat (apply in_step_add; [reflexivity | | ]); try apply in_step_start;
    intros n rest i Hn Hrest; read_placeholders; cbn [In]; intuition lia.
Qed.

Lemma slice_drops_the_last_two {A : Type} (l : list A) a b :
  slice_0_minus_2 (l ++ [a; b])%list = l.
Proof.
  unfold slice_0_minus_2. rewrite length_app. simpl List.length.
  replace (List.length l + 2 - 2)%nat with (List.length l + 0)%nat by lia.
  rewrite firstn_app_2. simpl. apply app_nil_r.
Qed.

(** In both queries of the product list ([GET /api/products]) the text
    and the parameter array fit, whatever the query object holds: the
    placeholders [$n] that occur in the main query are exactly
    [$1 .. $(number of its parameters)], those of the count query are exactly
    [$1 .. $(number of its parameters)], and the main query's parameters are
    those of the count query followed by [limit] and [offset]. *)
Theorem product_queries_bind_every_placeholder q limit offset :
  let queries := product_list_queries q limit offset in
  (forall i, In i (placeholders (fst (fst queries)))
             <-> 1 <= i <= Z.of_nat (List.length (snd (fst queries))))
  /\ (forall i, In i (placeholders (fst (snd queries)))
                <-> 1 <= i <= Z.of_nat (List.length (snd (snd queries))))
  /\ snd (fst queries) = (snd (snd queries) ++ [JNum limit; JNum offset])%list.
Proof.
  unfold product_list_queries. cbv zeta. cbn [fst snd].
  rewrite slice_drops_the_last_two.
  destruct (product_filters_in_step q) as (k & Hk & Hlen & Hin).
  set (b := product_filters q) in *.
  rewrite length_app, Hlen, Hk. cbn [List.length].
  split; [|split; [|reflexivity]]; intros i.
  - repeat (rewrite placeholders_plain by reflexivity).
    rewrite Hin by reflexivity.
    read_placeholders.
    change (placeholders "    ") with (@nil Z). cbn [In]. intuition lia.
  - repeat (rewrite placeholders_plain by reflexivity).
    rewrite Hin by reflexivity.
    read_placeholders.
    change (placeholders "    ") with (@nil Z). cbn [In]. intuition lia.
Qed.
